(** * Farquhar-Wheat: photosynthesis solver and its simulation front-end

    A shallow embedding of [farquharwheat/model.py] (class [Model]) and of
    [farquharwheat/simulation.py] (class [Simulation]), and the properties of
    the two that the specification states, followed by further properties
    of the same functions.

    Numbers.  Python floats are idealised as real numbers: rounding, overflow
    and the special values inf and nan are not modelled.  What is modelled is
    the control flow that floats drive and the exceptions Python raises on
    them: [ZeroDivisionError] for a division by zero (and for zero raised to a
    negative power), [ValueError] for [log] and [sqrt] outside their domain
    and for a negative base raised to a fractional power.

    Effects.  A formula either returns or raises, so it lives in [result].
    [Model.run] also prints diagnostics: it lives in [io], a log of the
    printed lines next to a [result].  [Simulation.run] mutates
    [self.outputs]; the store is threaded explicitly and survives an
    exception, as the attribute does. *)

From Stdlib Require Import Reals Lra Lia.
From stdpp Require Import base option list gmap strings.

#[local] Open Scope R_scope.

(** ** Exceptions and results *)

Inductive exn : Type :=
| ZeroDivisionError
| ValueError
| KeyError
| NameError (msg : string).

Inductive result (T : Type) : Type :=
| Ok (v : T)
| Raise (e : exn).

Arguments Ok {T} v.
Arguments Raise {T} e.

#[global] Instance result_ret : MRet result := λ T v, Ok v.

#[global] Instance result_bind : MBind result := λ T U k m,
  match m with
  | Ok v => k v
  | Raise e => Raise e
  end.

(** ** Float operations that can raise *)

(** [x / y] *)
Definition fdiv (x y : R) : result R :=
  if Req_dec_T y 0 then Raise ZeroDivisionError else Ok (x / y).

(** [math.log(x)] *)
Definition flog (x : R) : result R :=
  if Rlt_dec 0 x then Ok (ln x) else Raise ValueError.

(** [math.sqrt(x)] *)
Definition fsqrt (x : R) : result R :=
  if Rle_dec 0 x then Ok (sqrt x) else Raise ValueError.

(** [x ** y] for a float exponent.  The source only uses it with the
    exponents [delta2 = -0.548], [0.47] and [PAR/15]; a negative base with a
    fractional exponent has no float value. *)
Definition fpow (x y : R) : result R :=
  if Rlt_dec 0 x then Ok (Rpower x y)
  else if Req_dec_T x 0 then
    if Rlt_dec y 0 then Raise ZeroDivisionError
    else if Req_dec_T y 0 then Ok 1 else Ok 0
  else Raise ValueError.

(** Comparisons of floats, as booleans. *)
#[global] Instance R_eq_dec : EqDecision R := Req_dec_T.
#[global] Instance R_lt_dec : RelDecision Rlt := Rlt_dec.
#[global] Instance R_le_dec : RelDecision Rle := Rle_dec.

(** ** farquharwheat.model *)

Module Model.

(** *** Parameters (class attributes of [Model]) *)

(** [O]: intercellular O2 concentration. *)
Definition O2 : R := 21000.
Definition KC25 : R := 404.
Definition KO25 : R := 278.4E3.
Definition GAMMA25 : R := 39.
Definition THETA : R := 0.72.

Definition MM_WATER : R := 18.

(** [PARAM_N] *)
Definition S_surfacic_nitrogen_Vc_max25 : R := 84.965.
Definition S_surfacic_nitrogen_Jmax25 : R := 117.6.
Definition S_surfacic_nitrogen_alpha : R := 0.0413.
Definition S_surfacic_nitrogen_TPU25 : R := 9.25.
Definition S_surfacic_nitrogen_Rdark25 : R := 0.493.
Definition surfacic_nitrogen_min_Vc_max25 : R := 0.
Definition surfacic_nitrogen_min_Jmax25 : R := 0.
Definition surfacic_nitrogen_min_TPU25 : R := 0.
Definition surfacic_nitrogen_min_Rdark25 : R := 0.
Definition beta : R := 0.2101 + 0.0083.
Definition delta1 : R := 14.7.
Definition delta2 : R := -0.548.
Definition NA_0 : R := 2.

Definition GSMIN : R := 0.05.
Definition GB : R := 3.5.

Definition A : R := 2.5.
Definition GAMMA : R := 66E-3.
Definition K : R := 0.40.
Definition LAMBDA : R := 2260E3.
Definition RHOCP : R := 1256.
Definition ZR : R := 2.

(** [R]: gas constant. *)
Definition R_gas : R := 8.3144.
Definition PATM : R := 1.01325E5.
Definition PARa_to_RGa : R := 1.53.

(** [PARAM_TEMP], keyed by the parameter name. *)
Inductive pname : Type :=
| p_Vc_max | p_Jmax | p_TPU | p_Kc | p_Ko | p_Gamma | p_Rdark.

Definition deltaHa (p : pname) : R :=
  match p with
  | p_Vc_max => 89.7 | p_Jmax => 48.9 | p_TPU => 47
  | p_Kc => 79.43 | p_Ko => 36.38 | p_Gamma => 35 | p_Rdark => 46.39
  end.

(** [deltaHd] and [deltaS] have an entry for the three capacity
    parameters only. *)
Definition deltaHd (p : pname) : option R :=
  match p with
  | p_Vc_max => Some 149.3 | p_Jmax => Some 152.3 | p_TPU => Some 152.3
  | _ => None
  end.

Definition deltaS (p : pname) : option R :=
  match p with
  | p_Vc_max => Some 0.486 | p_Jmax => Some 0.495 | p_TPU => Some 0.495
  | _ => None
  end.

Definition Tref : R := 298.15.
Definition KELVIN_DEGREE : R := 273.15.

Definition EFFICENCY_STEM : R := 0.78.
Definition DELTA_CONVERGENCE : R := 0.01.

Definition N_MOLAR_MASS : R := 14.

(** [d[key]] on one of the two partial tables. *)
Definition table_get (d : pname → option R) (p : pname) : result R :=
  match d p with
  | Some v => Ok v
  | None => Raise KeyError
  end.

(** [pname in ('Vc_max', 'Jmax', 'TPU')] *)
Definition is_capacity (p : pname) : bool :=
  match p with
  | p_Vc_max | p_Jmax | p_TPU => true
  | _ => false
  end.

(** *** [_f_temperature] *)
Definition _f_temperature (p : pname) (p25 T : R) : result R :=
  let Tk := T + KELVIN_DEGREE in
  let dHa := deltaHa p in
  x ← fdiv (dHa * (Tk - Tref)) (R_gas * 1E-3 * Tref * Tk);
  let f_activation := exp x in
  f_deactivation ←
    (if is_capacity p then
       dS ← table_get deltaS p;
       dHd ← table_get deltaHd p;
       a ← fdiv (Tref * dS - dHd) (Tref * R_gas * 1E-3);
       b ← fdiv (Tk * dS - dHd) (Tk * R_gas * 1E-3);
       fdiv (1 + exp a) (1 + exp b)
     else Ok 1);
  Ok (p25 * f_activation * f_deactivation).

(** *** [calculate_photosynthesis] *)

(** The local variables of [calculate_photosynthesis] when it reaches the
    line [Ag = min(Ac, Aj, Ap)]. *)
Record rates : Type := Rates {
  Kc : R; Ko : R; Gamma : R;
  Vc_max : R; Ac : R;
  ALPHA : R; Jmax : R; J : R; Aj : R;
  TPU : R; Vomax : R; Vo : R; Ap : R
}.

(** Lines 243 to 272: the three limitation rates. *)
Definition limitation_rates
    (PAR surfacic_nonstructural_nitrogen Ts Ci : R) : result rates :=
  Kc ← _f_temperature p_Kc KC25 Ts;
  Ko ← _f_temperature p_Ko KO25 Ts;
  Gamma ← _f_temperature p_Gamma GAMMA25 Ts;
  let Vc_max25 := S_surfacic_nitrogen_Vc_max25
                  * (surfacic_nonstructural_nitrogen - surfacic_nitrogen_min_Vc_max25) in
  Vc_max ← _f_temperature p_Vc_max Vc_max25 Ts;
  o_ko ← fdiv O2 Ko;
  Ac ← fdiv (Vc_max * (Ci - Gamma)) (Ci + Kc * (1 + o_ko));
  let ALPHA := S_surfacic_nitrogen_alpha * surfacic_nonstructural_nitrogen + beta in
  let Jmax25 := S_surfacic_nitrogen_Jmax25
                * (surfacic_nonstructural_nitrogen - surfacic_nitrogen_min_Jmax25) in
  Jmax ← _f_temperature p_Jmax Jmax25 Ts;
  root ← fsqrt ((Jmax + ALPHA * PAR) ^ 2 - 4 * THETA * ALPHA * PAR * Jmax);
  J ← fdiv ((Jmax + ALPHA * PAR) - root) (2 * THETA);
  Aj ← fdiv (J * (Ci - Gamma)) (4 * Ci + 8 * Gamma);
  let TPU25 := S_surfacic_nitrogen_TPU25
               * (surfacic_nonstructural_nitrogen - surfacic_nitrogen_min_TPU25) in
  TPU ← _f_temperature p_TPU TPU25 Ts;
  Vomax ← fdiv (Vc_max * Ko * Gamma) (0.5 * Kc * O2);
  ci_kc ← fdiv Ci Kc;
  Vo ← fdiv (Vomax * O2) (O2 + Ko * (1 + ci_kc));
  g_ci ← fdiv Gamma Ci;
  let Ap := (1 - g_ci) * (3 * TPU + Vo) in
  Ok (Rates Kc Ko Gamma Vc_max Ac ALPHA Jmax J Aj TPU Vomax Vo Ap).

(** Lines 280 to 282: respiration in the light. *)
Definition respiration (PAR surfacic_nonstructural_nitrogen Ts : R) : result R :=
  let Rdark25 := S_surfacic_nitrogen_Rdark25
                 * (surfacic_nonstructural_nitrogen - surfacic_nitrogen_min_Rdark25) in
  Rdark ← _f_temperature p_Rdark Rdark25 Ts;
  e ← fdiv PAR 15;
  decay ← fpow 0.5 e;
  Ok (Rdark * (0.33 + (1 - 0.33) * decay)).

(** [min(Ac, Aj, Ap)] *)
Definition min3 (a b c : R) : R := Rmin (Rmin a b) c.

Definition calculate_photosynthesis
    (PAR surfacic_nonstructural_nitrogen Ts Ci : R) : result (R * R * R) :=
  r ← limitation_rates PAR surfacic_nonstructural_nitrogen Ts Ci;
  let Ag := min3 (Ac r) (Aj r) (Ap r) in
  Rd ← respiration PAR surfacic_nonstructural_nitrogen Ts;
  if Rle_dec Ag 0 then Ok (0, 0, Rd)
  else Ok (Ag, Ag - Rd, Rd).

(** *** [_stomatal_conductance] *)
Definition _stomatal_conductance
    (Ag An surfacic_nonstructural_nitrogen ambient_CO2 RH : R) : result R :=
  c ← fdiv 1.37 GB;
  let Cs := ambient_CO2 - An * c in
  p ← fpow surfacic_nonstructural_nitrogen delta2;
  let m := delta1 * p in
  q ← fdiv (Ag * RH) Cs;
  Ok (GSMIN + m * q).

(** *** [_calculate_Ci] *)
Definition _calculate_Ci (ambient_CO2 An gsw : R) : result R :=
  a ← fdiv 1.6 gsw;
  b ← fdiv 1.37 GB;
  Ok (ambient_CO2 - An * (a + b)).

(** *** [_organ_temperature] *)

(** [Ur = max(Ur, 0.1)] *)
Definition clamp_wind (Ur : R) : R := Rmax Ur 0.1.

(** Lines 109 to 118: displacement height, roughness length, clamped
    reference wind and the wind speed [u] at organ height. *)
Definition wind_at_organ (z Zh Ur : R) : result (R * R * R * R) :=
  let d := 0.7 * Zh in
  let Zo := 0.1 * Zh in
  let Ur := clamp_wind Ur in
  a ← fdiv (ZR - d) Zo;
  la ← flog a;
  u_star ← fdiv (Ur * K) la;
  us_k ← fdiv u_star K;
  b ← fdiv (Zh - d) Zo;
  lb ← flog b;
  let Uh := us_k * lb in
  z_zh ← fdiv z Zh;
  let u := Uh * exp (A * (z_zh - 1)) in
  Ok (d, Zo, Ur, u).

(** Lines 121 to 124: boundary layer resistance to heat. *)
Definition boundary_layer_resistance (organ_name : string) (w u : R) : result R :=
  if String.eqb organ_name "blade" then
    q ← fdiv w u;
    s ← fsqrt q;
    Ok (154 * s)
  else
    q ← fdiv (u * w) 1.5E-5;
    p ← fpow q 0.47;
    fdiv w (1.2E-5 * p).

(** Line 127: aerodynamic resistance, on the clamped wind. *)
Definition aerodynamic_resistance (d Zo Ur : R) : result R :=
  i ← fdiv 1 (K ^ 2 * Ur);
  a ← fdiv (ZR - d) Zo;
  la ← flog a;
  Ok (i * la ^ 2).

(** [0.611 * exp((17.4*T)/(239+T))] *)
Definition saturated_vapour_pressure (T : R) : result R :=
  q ← fdiv (17.4 * T) (239 + T);
  Ok (0.611 * exp q).

Definition _organ_temperature
    (w z Zh Ur PAR gsw Ta Ts RH : R) (organ_name : string) : result (R * R) :=
  '(d, Zo, Ur, u) ← wind_at_organ z Zh Ur;
  rbh ← boundary_layer_resistance organ_name w u;
  ra ← aerodynamic_resistance d Zo Ur;
  RGa ← fdiv (PAR * PARa_to_RGa) 4.55;
  es_Ta ← saturated_vapour_pressure Ta;
  let V := RH * es_Ta in
  let Rn := RGa in
  s ← (if Req_dec_T Ts Ta then
          let Ta_K := Ta + KELVIN_DEGREE in
          q ← fdiv (17.4 * 239) ((Ta_K + 239) ^ 2);
          Ok (q * es_Ta)
        else
          es_Tl ← saturated_vapour_pressure Ts;
          let Ts_K := Ts + KELVIN_DEGREE in
          let Ta_K := Ta + KELVIN_DEGREE in
          fdiv (es_Tl - es_Ta) (Ts_K - Ta_K));
  let VPDa := es_Ta - V in
  let rbw := 0.96 * rbh in
  gsw_physic ← fdiv (gsw * R_gas * (Ts + KELVIN_DEGREE)) PATM;
  rswp ← fdiv 1 gsw_physic;
  vp ← fdiv (RHOCP * VPDa) (rbh + ra);
  rr ← fdiv (rbw + ra + rswp) (rbh + ra);
  t ← fdiv (s * Rn + vp) (LAMBDA * (s + GAMMA * rr));
  let Tr := Rmax 0 t in
  h ← fdiv ((rbh + ra) * (Rn - LAMBDA * Tr)) RHOCP;
  let Ts := Ta + h in
  Ok (Ts, Tr).

(** *** Surfacic nitrogen contents *)

(** [calculate_surfacic_nitrogen] *)
Definition calculate_surfacic_nitrogen
    (nitrates amino_acids proteins Nstruct green_area : R) : result R :=
  let mass_N_tot := (nitrates + amino_acids + proteins) * 1E-6 * N_MOLAR_MASS + Nstruct in
  fdiv mass_N_tot green_area.

(** [calculate_surfacic_nonstructural_nitrogen] *)
Definition calculate_surfacic_nonstructural_nitrogen
    (nitrates amino_acids proteins green_area : R) : result R :=
  let mass_N_tot := (nitrates + amino_acids + proteins) * 1E-6 * N_MOLAR_MASS in
  fdiv mass_N_tot green_area.

(** [calculate_surfacic_photosynthetic_proteins] *)
Definition calculate_surfacic_photosynthetic_proteins
    (proteins green_area : R) : result R :=
  let mass_N_prot := proteins * 1E-6 * N_MOLAR_MASS in
  fdiv mass_N_prot green_area.

(** *** [run] *)

(** The two lines [run] can print. *)
Inductive diagnostic : Type :=
| Ci_cannot_converge (organ_name : string) (prec_Ci Ci : R)
| Ts_cannot_converge (organ_name : string) (prec_Ts Ts : R).

(** A computation that prints and then returns or raises. *)
Record io (T : Type) : Type := IO { printed : list diagnostic; outcome : result T }.
Arguments IO {T} printed outcome.
Arguments printed {T} _.
Arguments outcome {T} _.

#[global] Instance io_ret : MRet io := λ T v, IO [] (Ok v).

#[global] Instance io_bind : MBind io := λ T U k m,
  match outcome m with
  | Ok v => IO (printed m ++ printed (k v)) (outcome (k v))
  | Raise e => IO (printed m) (Raise e)
  end.

Definition print (d : diagnostic) : io unit := IO [d] (Ok ()).
Definition lift {T : Type} (r : result T) : io T := IO [] r.

(** The values one pass through the loop body leaves in the variables
    [Ag, An, Rd, gsw, Ci, Ts, Tr]. *)
Record iterate : Type := Iterate {
  it_Ag : R; it_An : R; it_Rd : R; it_gsw : R;
  it_Ci : R; it_Ts : R; it_Tr : R
}.

(** Lines 371 to 379: the loop body up to [count += 1]. *)
Definition iteration
    (surfacic_nonstructural_nitrogen width height PAR Ta ambient_CO2 RH Ur : R)
    (organ_name : string) (height_canopy : R) (Ci Ts : R) : result iterate :=
  '(Ag, An, Rd) ← calculate_photosynthesis PAR surfacic_nonstructural_nitrogen Ts Ci;
  gsw ← _stomatal_conductance Ag An surfacic_nonstructural_nitrogen ambient_CO2 RH;
  Ci ← _calculate_Ci ambient_CO2 An gsw;
  '(Ts, Tr) ← _organ_temperature width height height_canopy Ur PAR gsw Ta Ts RH organ_name;
  Ok (Iterate Ag An Rd gsw Ci Ts Tr).

(** The iteration cap of line 382. *)
Definition MAX_COUNT : nat := 30.

(** Lines 382 to 389: [true] when the loop breaks. *)
Definition loop_exit (organ_name : string) (count : nat)
    (prec_Ci prec_Ts Ci Ts : R) : io bool :=
  if (MAX_COUNT <=? count)%nat then
    r ← lift (fdiv (Ci - prec_Ci) prec_Ci);
    _ ← (if bool_decide (DELTA_CONVERGENCE <= Rabs r)
         then print (Ci_cannot_converge organ_name prec_Ci Ci) else mret ());
    _ ← (if bool_decide (prec_Ts = 0) then mret ()
         else
           r ← lift (fdiv (Ts - prec_Ts) prec_Ts);
           if bool_decide (DELTA_CONVERGENCE <= Rabs r)
           then print (Ts_cannot_converge organ_name prec_Ts Ts) else mret ());
    mret true
  else
    r ← lift (fdiv (Ci - prec_Ci) prec_Ci);
    if bool_decide (Rabs r < DELTA_CONVERGENCE) then
      if bool_decide (prec_Ts = 0) && bool_decide (Ts - prec_Ts = 0) then mret true
      else
        r ← lift (fdiv (Ts - prec_Ts) prec_Ts);
        mret (bool_decide (Rabs r < DELTA_CONVERGENCE))
    else mret false.

(** [while True:] run for at most [fuel] passes.  [None] when the fuel is
    spent before a [break]; otherwise the values of the last pass and the
    value of [count]. *)
Fixpoint while_true (fuel : nat)
    (surfacic_nonstructural_nitrogen width height PAR Ta ambient_CO2 RH Ur : R)
    (organ_name : string) (height_canopy : R)
    (Ci Ts : R) (count : nat) : io (option (iterate * nat)) :=
  match fuel with
  | O => mret None
  | S fuel =>
      let prec_Ci := Ci in
      let prec_Ts := Ts in
      it ← lift (iteration surfacic_nonstructural_nitrogen width height PAR Ta
                   ambient_CO2 RH Ur organ_name height_canopy Ci Ts);
      let count := S count in
      stop ← loop_exit organ_name count prec_Ci prec_Ts (it_Ci it) (it_Ts it);
      if stop : bool then mret (Some (it, count))
      else while_true fuel surfacic_nonstructural_nitrogen width height PAR Ta
             ambient_CO2 RH Ur organ_name height_canopy (it_Ci it) (it_Ts it) count
  end.

(** Lines 391 to 396: unit conversion of [Tr], stem discount on [Ag]. *)
Definition conclude (organ_name : string) (it : iterate)
    : result (R * R * R * R * R * R) :=
  Tr ← fdiv (it_Tr it * 1E6) MM_WATER;
  let Ag := if negb (String.eqb organ_name "blade")
            then it_Ag it * EFFICENCY_STEM else it_Ag it in
  Ok (Ag, it_An it, it_Rd it, Tr, it_Ts it, it_gsw it).

(** [run], its loop given [fuel] passes. *)
Definition run_fuel (fuel : nat)
    (surfacic_nonstructural_nitrogen : option R)
    (width height PAR Ta ambient_CO2 RH Ur : R)
    (organ_name : string) (height_canopy : R)
    : io (option (R * R * R * R * R * R)) :=
  let surfacic_nonstructural_nitrogen :=
    match surfacic_nonstructural_nitrogen with
    | None => NA_0
    | Some n => n
    end in
  let Ci := 0.7 * ambient_CO2 in
  let Ts := Ta in
  let count := 0%nat in
  last ← while_true fuel surfacic_nonstructural_nitrogen width height PAR Ta
           ambient_CO2 RH Ur organ_name height_canopy Ci Ts count;
  match last with
  | None => mret None
  | Some (it, _) => out ← lift (conclude organ_name it); mret (Some out)
  end.

(** [run]: the cap makes [MAX_COUNT] passes enough (see [while_true_fuel_enough]). *)
Definition run := run_fuel MAX_COUNT.

End Model.

(** ** farquharwheat.simulation *)

Module Simulation.

(** A Python value held in the input and output dictionaries: a float or
    [None]. *)
Abbreviation pyval := (option R).

(** [(plant_index, axis_label, metamer_index, organ_label, element_label)] *)
Abbreviation element_id := (Z * string * Z * string * string)%type.
(** [element_id[:2]] *)
Abbreviation axis_id := (Z * string)%type.

(** [self.inputs]: the dictionary ['elements'], in its iteration order, and
    the dictionary ['axes']. *)
Record inputs : Type := Inputs {
  elements : list (element_id * gmap string pyval);
  axes : gmap axis_id (gmap string pyval)
}.

(** The mutable part of a [Simulation]: [self.outputs], and next to it the
    elements for which [model.run] has been called, in call order (a ghost
    log: the source keeps no such list). *)
Record state : Type := State {
  outputs : gmap element_id (gmap string pyval);
  solved : list element_id
}.

(** A method body: it reads and writes the state and returns or raises.
    The state written before an exception stays written. *)
Record sim (T : Type) : Type := Sim { exec : state → state * result T }.
Arguments Sim {T} exec.
Arguments exec {T} _ _.

#[global] Instance sim_ret : MRet sim := λ T v, Sim (λ st, (st, Ok v)).

#[global] Instance sim_bind : MBind sim := λ T U k m,
  Sim (λ st,
    match exec m st with
    | (st', Ok v) => exec (k v) st'
    | (st', Raise e) => (st', Raise e)
    end).

Definition pure {T : Type} (r : result T) : sim T := Sim (λ st, (st, r)).
Definition raise {T : Type} (e : exn) : sim T := pure (Raise e).

(** [d[key]] *)
Definition getitem `{Countable K} {V : Type} (d : gmap K V) (key : K) : sim V :=
  match d !! key with
  | Some v => mret v
  | None => raise KeyError
  end.

(** [self.outputs[element_id] = element_outputs] *)
Definition set_outputs (id : element_id) (element_outputs : gmap string pyval)
    : sim unit :=
  Sim (λ st, (State (<[id := element_outputs]> (outputs st)) (solved st), Ok ())).

(** [self.outputs.update({inputs_type: {} for inputs_type in
    self.inputs['elements'].keys()})] *)
Definition reset_outputs (ids : list element_id) : sim unit :=
  Sim (λ st,
    (State (foldl (λ o id, <[id := ∅]> o) (outputs st) ids) (solved st), Ok ())).

Definition NAME_ERROR_MESSAGE : string :=
  "MODEL_VERSION is not none. MODEL_VERSION must be Barillot2016 or SurfacicProteins or SurfacicProteins_Retroinhibition.".

Section Run.

(** [parameters.MODEL_VERSION]; the module [parameters] is not part of
    the sources at hand. *)
Variable MODEL_VERSION : string.

(** The functions of the module [model] that [Simulation.run] calls.
    This revision of [simulation.py] calls a later revision of the model
    than the class [Model] above (its [run] takes two more arguments), so
    they are taken as they are. *)
Variable calculate_surfacic_photosynthetic_proteins : pyval → pyval → result pyval.
Variable calculate_surfacic_nonstructural_nitrogen_Farquhar : pyval → result pyval.
Variable calculate_surfacic_WSC : pyval → pyval → pyval → pyval → result pyval.
Variable calculate_surfacic_nitrogen :
  pyval → pyval → pyval → pyval → pyval → result pyval.
Variable model_run :
  pyval → bool → pyval → pyval → pyval → pyval → R → R → R → R → string → pyval
  → result (pyval * pyval * pyval * pyval * pyval * pyval).

(** A call of [model.run] for the element [id]: logged, then made. *)
Definition call_run (id : element_id)
    (r : result (pyval * pyval * pyval * pyval * pyval * pyval))
    : sim (pyval * pyval * pyval * pyval * pyval * pyval) :=
  Sim (λ st, (State (outputs st) (solved st ++ [id]), r)).

(** Lines 95 to 134: the branch of an element that has a height. *)
Definition solve_element (Ta ambient_CO2 RH Ur : R) (inp : inputs)
    (element_id : element_id) (element_inputs : gmap string pyval)
    : sim (pyval * pyval * pyval * pyval * pyval * pyval) :=
  let '(plant_index, axe_label, _, organ_label, _) := element_id in
  let axis_id := (plant_index, axe_label) in
  PARa ← getitem element_inputs "PARa";
  axis ← getitem (axes inp) axis_id;
  height_canopy ← getitem axis "height_canopy";
  if String.eqb MODEL_VERSION "SurfacicProteins"
     || String.eqb MODEL_VERSION "SurfacicProteins_Retroinhibition" then
    proteins ← getitem element_inputs "proteins";
    green_area ← getitem element_inputs "green_area";
    surfacic_photosynthetic_proteins ←
      pure (calculate_surfacic_photosynthetic_proteins proteins green_area);
    SLN_nonstruct_Farquhar ←
      pure (calculate_surfacic_nonstructural_nitrogen_Farquhar
              surfacic_photosynthetic_proteins);
    '(option_Retroinhibition, surfacic_WSC) ←
      (if String.eqb MODEL_VERSION "SurfacicProteins_Retroinhibition" then
         sucrose ← getitem element_inputs "sucrose";
         starch ← getitem element_inputs "starch";
         fructan ← getitem element_inputs "fructan";
         green_area ← getitem element_inputs "green_area";
         wsc ← pure (calculate_surfacic_WSC sucrose starch fructan green_area);
         mret (true, wsc)
       else mret (false, None));
    width ← getitem element_inputs "width";
    height ← getitem element_inputs "height";
    call_run element_id
      (model_run SLN_nonstruct_Farquhar option_Retroinhibition surfacic_WSC
         width height PARa Ta ambient_CO2 RH Ur organ_label height_canopy)
  else if String.eqb MODEL_VERSION "Barillot2016" then
    nitrates ← getitem element_inputs "nitrates";
    amino_acids ← getitem element_inputs "amino_acids";
    proteins ← getitem element_inputs "proteins";
    Nstruct ← getitem element_inputs "Nstruct";
    green_area ← getitem element_inputs "green_area";
    surfacic_nitrogen ←
      pure (calculate_surfacic_nitrogen nitrates amino_acids proteins
              Nstruct green_area);
    width ← getitem element_inputs "width";
    height ← getitem element_inputs "height";
    call_run element_id
      (model_run surfacic_nitrogen false (Some 0) width height PARa
         Ta ambient_CO2 RH Ur organ_label height_canopy)
  else raise (NameError NAME_ERROR_MESSAGE).

(** The dictionary literal of line 136. *)
Definition make_outputs (Ag An Rd Tr Ts gs width height : pyval)
    : gmap string pyval :=
  <["height" := height]> (<["width" := width]> (<["gs" := gs]> (<["Ts" := Ts]>
    (<["Tr" := Tr]> (<["Rd" := Rd]> (<["An" := An]> (<["Ag" := Ag]> ∅))))))).

(** Lines 84 to 140: the loop body for one element. *)
Definition run_element (Ta ambient_CO2 RH Ur : R) (inp : inputs)
    (element_id : element_id) (element_inputs : gmap string pyval) : sim unit :=
  let '(plant_index, axe_label, _, organ_label, _) := element_id in
  let axis_id := (plant_index, axe_label) in
  if negb (String.eqb axe_label "MS") then mret ()
  else
    height ← getitem element_inputs "height";
    '(Ag, An, Rd, Tr, Ts, gs) ←
      match height with
      | None =>
          axis ← getitem (axes inp) axis_id;
          Ts ← getitem axis "SAM_temperature";
          mret (Some 0, Some 0, Some 0, Some 0, Ts, Some 0)
      | Some _ => solve_element Ta ambient_CO2 RH Ur inp element_id element_inputs
      end;
    width ← getitem element_inputs "width";
    height ← getitem element_inputs "height";
    set_outputs element_id (make_outputs Ag An Rd Tr Ts gs width height).

(** The [for] loop of line 82. *)
Fixpoint for_elements (Ta ambient_CO2 RH Ur : R) (inp : inputs)
    (items : list (element_id * gmap string pyval)) : sim unit :=
  match items with
  | [] => mret ()
  | (element_id, element_inputs) :: items =>
      _ ← run_element Ta ambient_CO2 RH Ur inp element_id element_inputs;
      for_elements Ta ambient_CO2 RH Ur inp items
  end.

(** [Simulation.run] *)
Definition run (inp : inputs) (Ta ambient_CO2 RH Ur : R) : sim unit :=
  _ ← reset_outputs (map fst (elements inp));
  for_elements Ta ambient_CO2 RH Ur inp (elements inp).

End Run.

End Simulation.

(** ** Closed forms

    The values the formula functions return where they return, written with
    the total operations on real numbers.  The lemmas below connect each of
    them to the function it describes. *)

Module Closed.
Import Model.

(** The Arrhenius factor of [_f_temperature]. *)
Definition activation (p : pname) (T : R) : R :=
  exp (deltaHa p * (T + KELVIN_DEGREE - Tref)
       / (R_gas * 1E-3 * Tref * (T + KELVIN_DEGREE))).

(** The deactivation factor of [_f_temperature]: [1] for the parameters
    without an entropy term. *)
Definition deactivation (p : pname) (T : R) : R :=
  match deltaS p, deltaHd p with
  | Some dS, Some dHd =>
      (1 + exp ((Tref * dS - dHd) / (Tref * R_gas * 1E-3)))
      / (1 + exp (((T + KELVIN_DEGREE) * dS - dHd)
                  / ((T + KELVIN_DEGREE) * R_gas * 1E-3)))
  | _, _ => 1
  end.

(** The electron transport rate [J] of [calculate_photosynthesis], from
    [Jmax] and the absorbed quanta [I = ALPHA * PAR]. *)
Definition electron_transport (Jmax I : R) : R :=
  ((Jmax + I) - sqrt ((Jmax + I) ^ 2 - 4 * THETA * I * Jmax)) / (2 * THETA).

(** What the locals of [calculate_photosynthesis] hold when
    [limitation_rates] returns them, and the conditions under which no
    division on the way raised. *)
Record rates_of (PAR N Ts Ci : R) (r : rates) : Prop := RatesOf {
  rates_Tk : Ts + KELVIN_DEGREE ≠ 0;
  rates_Ci : Ci ≠ 0;
  rates_Kc : Kc r = KC25 * activation p_Kc Ts * deactivation p_Kc Ts;
  rates_Ko : Ko r = KO25 * activation p_Ko Ts * deactivation p_Ko Ts;
  rates_Gamma : Gamma r = GAMMA25 * activation p_Gamma Ts * deactivation p_Gamma Ts;
  rates_Vc_max :
    Vc_max r = S_surfacic_nitrogen_Vc_max25 * (N - surfacic_nitrogen_min_Vc_max25)
               * activation p_Vc_max Ts * deactivation p_Vc_max Ts;
  rates_Ac_den : Ci + Kc r * (1 + O2 / Ko r) ≠ 0;
  rates_Ac : Ac r = Vc_max r * (Ci - Gamma r) / (Ci + Kc r * (1 + O2 / Ko r));
  rates_ALPHA : ALPHA r = S_surfacic_nitrogen_alpha * N + beta;
  rates_Jmax :
    Jmax r = S_surfacic_nitrogen_Jmax25 * (N - surfacic_nitrogen_min_Jmax25)
             * activation p_Jmax Ts * deactivation p_Jmax Ts;
  rates_J : J r = electron_transport (Jmax r) (ALPHA r * PAR);
  rates_Aj_den : 4 * Ci + 8 * Gamma r ≠ 0;
  rates_Aj : Aj r = J r * (Ci - Gamma r) / (4 * Ci + 8 * Gamma r);
  rates_TPU :
    TPU r = S_surfacic_nitrogen_TPU25 * (N - surfacic_nitrogen_min_TPU25)
            * activation p_TPU Ts * deactivation p_TPU Ts;
  rates_Vomax : Vomax r = Vc_max r * Ko r * Gamma r / (0.5 * Kc r * O2);
  rates_Vo_den : O2 + Ko r * (1 + Ci / Kc r) ≠ 0;
  rates_Vo : Vo r = Vomax r * O2 / (O2 + Ko r * (1 + Ci / Kc r));
  rates_Ap : Ap r = (1 - Gamma r / Ci) * (3 * TPU r + Vo r)
}.

(** The convergence test in the words of the specification.  A relative
    change is a quotient by the previous value, so it is below the
    tolerance only where that value is not zero. *)
Definition relative_change_below_tolerance (prec new : R) : Prop :=
  prec ≠ 0 ∧ Rabs ((new - prec) / prec) < DELTA_CONVERGENCE.

Definition converged (prec_Ci prec_Ts Ci Ts : R) : Prop :=
  relative_change_below_tolerance prec_Ci Ci
  ∧ (relative_change_below_tolerance prec_Ts Ts ∨ (prec_Ts = 0 ∧ Ts = prec_Ts)).

(** The values left by pass [n + 1] of the loop of [run] when every pass
    before it returned, whatever the exit test said. *)
Fixpoint nth_pass (n : nat)
    (surfacic_nonstructural_nitrogen width height PAR Ta ambient_CO2 RH Ur : R)
    (organ_name : string) (height_canopy : R) (Ci Ts : R) : result iterate :=
  match n with
  | O => iteration surfacic_nonstructural_nitrogen width height PAR Ta
           ambient_CO2 RH Ur organ_name height_canopy Ci Ts
  | S n =>
      it ← iteration surfacic_nonstructural_nitrogen width height PAR Ta
             ambient_CO2 RH Ur organ_name height_canopy Ci Ts;
      nth_pass n surfacic_nonstructural_nitrogen width height PAR Ta
        ambient_CO2 RH Ur organ_name height_canopy (it_Ci it) (it_Ts it)
  end.

End Closed.

(** ** The footprint of a method body

    [footprint P m]: whatever the state [m] starts in and however it ends,
    the outputs of the elements outside [P] are left as they were and
    [model.run] is called for elements of [P] only. *)

Module Footprint.
Import Simulation.

Definition footprint {T : Type} (P : element_id → Prop) (m : sim T) : Prop :=
  ∀ st,
    (∀ id, ¬ P id → outputs (exec m st).1 !! id = outputs st !! id)
    ∧ (∀ id, id ∈ solved (exec m st).1 → id ∈ solved st ∨ P id).

(** [uniform m]: what [m] returns or raises, what it writes in the outputs
    and what it logs are the same whatever the state it starts in; the
    record it leaves for an element depends at most on the record it found
    for that element. *)
Definition uniform {T : Type} (m : sim T) : Prop :=
  ∃ (r : result T) (upd : gmap element_id (gmap string pyval)
                          → gmap element_id (gmap string pyval))
    (log : list element_id),
    (∀ o o' id, o !! id = o' !! id → upd o !! id = upd o' !! id)
    ∧ ∀ st, exec m st = (State (upd (outputs st)) (solved st ++ log), r).

(** [element_id[1]] *)
Definition axis_label (id : element_id) : string := id.1.1.1.2.

(** [element_id[:2]] *)
Definition axis_of (id : element_id) : axis_id := (id.1.1.1.1, id.1.1.1.2).


(** [element_id[3]] *)
Definition organ_label (id : element_id) : string := id.1.2.

(** The items of ['elements'] that take the branch of line 95: those of
    the main stem whose ['height'] is not [None]. *)
Definition to_solve (item : element_id * gmap string pyval) : bool :=
  String.eqb (axis_label item.1) "MS"
  && match item.2 !! "height" with
     | Some (Some _) => true
     | _ => false
     end.

End Footprint.

(** ** Inputs for the examples

    None of the runs below reaches a function of the module [model]: the
    stand-ins for them are never called. *)

Module Example.
Import Simulation.

Definition tiller_blade : element_id := (1%Z, "T1", 3%Z, "blade", "LeafElement1").
Definition hidden_internode : element_id := (1%Z, "MS", 4%Z, "internode", "HiddenElement").
Definition main_stem_blade : element_id := (1%Z, "MS", 3%Z, "blade", "LeafElement1").

(** A tiller blade with its geometry. *)
Definition tiller_blade_inputs : gmap string pyval :=
  <["height" := Some 0.5]> (<["width" := Some 0.01]> (<["PARa" := Some 500]> ∅)).

(** A tiller blade too small to have a height. *)
Definition small_tiller_blade_inputs : gmap string pyval :=
  <["height" := None]> (<["width" := Some 0.001]> ∅).

(** A hidden element: no height. *)
Definition hidden_internode_inputs : gmap string pyval :=
  <["height" := None]> (<["width" := Some 0.003]> ∅).

Definition main_stem_blade_inputs : gmap string pyval :=
  <["height" := Some 0.6]> (<["width" := Some 0.012]> (<["PARa" := Some 450]> ∅)).

Definition main_stem : gmap axis_id (gmap string pyval) :=
  <[(1%Z, "MS") := <["SAM_temperature" := Some 18]> (<["height_canopy" := Some 0.8]> ∅)]> ∅.

Definition unreached2 : pyval → pyval → result pyval := λ _ _, Raise ValueError.
Definition unreached1 : pyval → result pyval := λ _, Raise ValueError.
Definition unreached4 : pyval → pyval → pyval → pyval → result pyval :=
  λ _ _ _ _, Raise ValueError.
Definition unreached5 : pyval → pyval → pyval → pyval → pyval → result pyval :=
  λ _ _ _ _ _, Raise ValueError.
Definition unreached_run :
  pyval → bool → pyval → pyval → pyval → pyval → R → R → R → R → string → pyval
  → result (pyval * pyval * pyval * pyval * pyval * pyval) :=
  λ _ _ _ _ _ _ _ _ _ _ _ _, Raise ValueError.

(** [Simulation.run] with the stand-ins. *)
Definition run (MODEL_VERSION : string) (inp : inputs) (Ta ambient_CO2 RH Ur : R)
    : sim unit :=
  Simulation.run MODEL_VERSION unreached2 unreached1 unreached4 unreached5
    unreached_run inp Ta ambient_CO2 RH Ur.

Definition empty_state : state := State ∅ [].

End Example.

(** ** Inputs for the examples that reach the solver

    Stand-ins that return, for the runs that call [model.run]. *)

Module SolverExample.
Import Simulation.

(** A main stem blade with its geometry and its contents. *)
Definition main_stem_blade_inputs : gmap string pyval :=
  <["height" := Some 0.6]> (<["width" := Some 0.012]> (<["PARa" := Some 450]>
    (<["nitrates" := Some 10]> (<["amino_acids" := Some 20]> (<["proteins" := Some 300]>
      (<["Nstruct" := Some 0.002]> (<["green_area" := Some 0.003]>
        (<["sucrose" := Some 50]> (<["starch" := Some 5]>
          (<["fructan" := Some 15]> ∅)))))))))).

Definition returned2 : pyval → pyval → result pyval := λ _ _, Ok (Some 1.4).
Definition returned1 : pyval → result pyval := λ _, Ok (Some 1.7).
Definition returned4 : pyval → pyval → pyval → pyval → result pyval :=
  λ _ _ _ _, Ok (Some 8).
Definition returned5 : pyval → pyval → pyval → pyval → pyval → result pyval :=
  λ _ _ _ _ _, Ok (Some 2.2).
Definition returned_run :
  pyval → bool → pyval → pyval → pyval → pyval → R → R → R → R → string → pyval
  → result (pyval * pyval * pyval * pyval * pyval * pyval) :=
  λ _ _ _ _ _ _ _ _ _ _ _ _,
    Ok (Some 12, Some 10, Some 2, Some 1.5, Some 21, Some 0.3).

(** [Simulation.run] with the stand-ins. *)
Definition run (MODEL_VERSION : string) (inp : inputs) (Ta ambient_CO2 RH Ur : R)
    : sim unit :=
  Simulation.run MODEL_VERSION returned2 returned1 returned4 returned5
    returned_run inp Ta ambient_CO2 RH Ur.

End SolverExample.

(** * Properties *)

(** ** The result monad and the float operations *)

Lemma rbind_Ok {T U : Type} (v : T) (k : T → result U) :
  (x ← Ok v; k x) = k v.
Proof. reflexivity. Qed.

Lemma rbind_inv {T U : Type} (m : result T) (k : T → result U) (u : U) :
  (x ← m; k x) = Ok u → ∃ v, m = Ok v ∧ k v = Ok u.
Proof. destruct m as [v|e]; cbn; [eauto | discriminate]. Qed.

Lemma fdiv_ok (x y : R) : y ≠ 0 → fdiv x y = Ok (x / y).
Proof. intros Hy. unfold fdiv. destruct (Req_dec_T y 0); [contradiction | reflexivity]. Qed.

Lemma fdiv_zero (x : R) : fdiv x 0 = Raise ZeroDivisionError.
Proof. unfold fdiv. destruct (Req_dec_T 0 0); [reflexivity | contradiction]. Qed.

Lemma fdiv_inv (x y v : R) : fdiv x y = Ok v → y ≠ 0 ∧ v = x / y.
Proof.
  unfold fdiv. destruct (Req_dec_T y 0); [discriminate | ].
  intros [= <-]. split; [assumption | reflexivity].
Qed.

Lemma flog_ok (x : R) : 0 < x → flog x = Ok (ln x).
Proof. intros Hx. unfold flog. destruct (Rlt_dec 0 x); [reflexivity | contradiction]. Qed.

Lemma fsqrt_ok (x : R) : 0 <= x → fsqrt x = Ok (sqrt x).
Proof. intros Hx. unfold fsqrt. destruct (Rle_dec 0 x); [reflexivity | contradiction]. Qed.

Lemma fsqrt_inv (x v : R) : fsqrt x = Ok v → 0 <= x ∧ v = sqrt x.
Proof.
  unfold fsqrt. destruct (Rle_dec 0 x); [ | discriminate].
  intros [= <-]. split; [assumption | reflexivity].
Qed.

Lemma fpow_ok (x y : R) : 0 < x → fpow x y = Ok (Rpower x y).
Proof. intros Hx. unfold fpow. destruct (Rlt_dec 0 x); [reflexivity | contradiction]. Qed.

Lemma Rpower_pos (x y : R) : 0 < Rpower x y.
Proof. unfold Rpower. apply exp_pos. Qed.

(** ** Running the formulas forward

    [step_by tac] rewrites the operation at the head of a chain of binds into
    its value, [tac] proving that it does not raise. *)

Ltac bind_head t :=
  lazymatch t with
  | mbind _ ?m => bind_head m
  | _ => t
  end.

Ltac step_by tac :=
  cbv zeta;
  lazymatch goal with
  | |- ?lhs = _ =>
      let h := bind_head lhs in
      lazymatch h with
      | fdiv ?x ?y => rewrite (fdiv_ok x y) by tac
      | flog ?x => rewrite (flog_ok x) by tac
      | fsqrt ?x => rewrite (fsqrt_ok x) by tac
      | fpow ?x ?y => rewrite (fpow_ok x y) by tac
      end
  end; rewrite !rbind_Ok; cbn beta.

Section Forward.
Import Model Closed.

Lemma activation_pos p T : 0 < activation p T.
Proof. apply exp_pos. Qed.

Lemma deactivation_pos p T : 0 < deactivation p T.
Proof.
  unfold deactivation.
  destruct (deltaS p), (deltaHd p); try lra.
  apply Rdiv_lt_0_compat; match goal with |- 0 < 1 + exp ?x => pose proof (exp_pos x); lra end.
Qed.

Lemma one_plus_exp_nonzero x : 1 + exp x ≠ 0.
Proof. pose proof (exp_pos x). lra. Qed.

Lemma f_temperature_ok p p25 T :
  T + KELVIN_DEGREE ≠ 0 →
  _f_temperature p p25 T = Ok (p25 * activation p T * deactivation p T).
Proof.
  intros HT. unfold _f_temperature, activation, deactivation.
  assert (Hg : R_gas * 1E-3 * Tref ≠ 0) by (unfold R_gas, Tref; lra).
  step_by ltac:(apply Rmult_integral_contrapositive_currified; assumption).
  destruct p; cbn [is_capacity deltaS deltaHd table_get]; rewrite ?rbind_Ok;
    try reflexivity;
    (step_by ltac:(unfold R_gas, Tref; lra));
    (step_by ltac:(unfold R_gas; lra));
    (step_by ltac:(apply one_plus_exp_nonzero));
    reflexivity.
Qed.

Lemma f_temperature_inv p p25 T v :
  _f_temperature p p25 T = Ok v →
  T + KELVIN_DEGREE ≠ 0 ∧ v = p25 * activation p T * deactivation p T.
Proof.
  intros H.
  assert (HT : T + KELVIN_DEGREE ≠ 0).
  { intros HT. unfold _f_temperature in H. rewrite HT in H.
    rewrite Rmult_0_r in H. rewrite fdiv_zero in H. discriminate. }
  split; [assumption | ]. rewrite f_temperature_ok in H by assumption. congruence.
Qed.

Lemma limitation_rates_inv PAR N Ts Ci r :
  limitation_rates PAR N Ts Ci = Ok r → rates_of PAR N Ts Ci r.
Proof.
  unfold limitation_rates. intros H.
  apply rbind_inv in H as (kc & Hkc & H). apply f_temperature_inv in Hkc as [HT ->].
  apply rbind_inv in H as (ko & Hko & H). apply f_temperature_inv in Hko as [_ ->].
  apply rbind_inv in H as (gm & Hgm & H). apply f_temperature_inv in Hgm as [_ ->].
  apply rbind_inv in H as (vc & Hvc & H). apply f_temperature_inv in Hvc as [_ ->].
  apply rbind_inv in H as (oko & Hoko & H). apply fdiv_inv in Hoko as [_ ->].
  apply rbind_inv in H as (ac & Hac & H). apply fdiv_inv in Hac as [Hacd ->].
  apply rbind_inv in H as (jm & Hjm & H). apply f_temperature_inv in Hjm as [_ ->].
  apply rbind_inv in H as (rt & Hrt & H). apply fsqrt_inv in Hrt as [_ ->].
  apply rbind_inv in H as (j & Hj & H). apply fdiv_inv in Hj as [_ ->].
  apply rbind_inv in H as (aj & Haj & H). apply fdiv_inv in Haj as [Hajd ->].
  apply rbind_inv in H as (tpu & Htpu & H). apply f_temperature_inv in Htpu as [_ ->].
  apply rbind_inv in H as (vom & Hvom & H). apply fdiv_inv in Hvom as [_ ->].
  apply rbind_inv in H as (cikc & Hcikc & H). apply fdiv_inv in Hcikc as [_ ->].
  apply rbind_inv in H as (vo & Hvo & H). apply fdiv_inv in Hvo as [Hvod ->].
  apply rbind_inv in H as (gci & Hgci & H). apply fdiv_inv in Hgci as [HCi ->].
  injection H as <-.
  constructor; cbn [Kc Ko Gamma Vc_max Ac ALPHA Jmax J Aj TPU Vomax Vo Ap];
    try assumption; try reflexivity.
  unfold electron_transport.
  replace (4 * THETA * (S_surfacic_nitrogen_alpha * N + beta) * PAR)
    with (4 * THETA * ((S_surfacic_nitrogen_alpha * N + beta) * PAR)) by ring.
  reflexivity.
Qed.

Lemma discriminant_nonneg x y :
  0 <= (x + y) ^ 2 - 4 * THETA * y * x.
Proof.
  unfold THETA.
  destruct (Rle_dec 0 (x * y)) as [Hs|Hs].
  - nra.
  - nra.
Qed.

Lemma limitation_rates_defined PAR N Ts Ci :
  0 < Ci → Ts + KELVIN_DEGREE ≠ 0 →
  ∃ r, limitation_rates PAR N Ts Ci = Ok r.
Proof.
  intros HCi HT. unfold limitation_rates.
  rewrite !f_temperature_ok by assumption. rewrite !rbind_Ok.
  set (kc := KC25 * activation p_Kc Ts * deactivation p_Kc Ts).
  set (ko := KO25 * activation p_Ko Ts * deactivation p_Ko Ts).
  set (gm := GAMMA25 * activation p_Gamma Ts * deactivation p_Gamma Ts).
  assert (Hkc : 0 < kc).
  { unfold kc, KC25. pose proof (activation_pos p_Kc Ts). pose proof (deactivation_pos p_Kc Ts).
    apply Rmult_lt_0_compat; [apply Rmult_lt_0_compat | ]; lra. }
  assert (Hko : 0 < ko).
  { unfold ko, KO25. pose proof (activation_pos p_Ko Ts). pose proof (deactivation_pos p_Ko Ts).
    apply Rmult_lt_0_compat; [apply Rmult_lt_0_compat | ]; lra. }
  assert (Hgm : 0 < gm).
  { unfold gm, GAMMA25. pose proof (activation_pos p_Gamma Ts). pose proof (deactivation_pos p_Gamma Ts).
    apply Rmult_lt_0_compat; [apply Rmult_lt_0_compat | ]; lra. }
  eexists.
  step_by ltac:(lra).
  assert (Hoko : 0 < O2 / ko) by (apply Rdiv_lt_0_compat; [unfold O2; lra | assumption]).
  assert (Hd1 : 0 < Ci + kc * (1 + O2 / ko)).
  { assert (0 < kc * (1 + O2 / ko)) by (apply Rmult_lt_0_compat; lra). lra. }
  step_by ltac:(lra).
  step_by ltac:(idtac; match goal with |- 0 <= (?a + ?b) ^ 2 - _ =>
     replace (4 * THETA * (S_surfacic_nitrogen_alpha * N + beta) * PAR * a)
       with (4 * THETA * b * a) by ring; apply discriminant_nonneg end).
  step_by ltac:(unfold THETA; lra).
  step_by ltac:(lra).
  step_by ltac:(apply Rgt_not_eq; apply Rmult_lt_0_compat; [lra | unfold O2; lra]).
  step_by ltac:(lra).
  assert (Hd3 : 0 < O2 + ko * (1 + Ci / kc)).
  { assert (0 < Ci / kc) by (apply Rdiv_lt_0_compat; assumption).
    assert (0 < ko * (1 + Ci / kc)) by (apply Rmult_lt_0_compat; lra).
    unfold O2. lra. }
  step_by ltac:(lra).
  step_by ltac:(lra).
  rewrite ?rbind_Ok. reflexivity.
Qed.

Lemma respiration_defined PAR N Ts :
  Ts + KELVIN_DEGREE ≠ 0 → ∃ Rd, respiration PAR N Ts = Ok Rd.
Proof.
  intros HT. unfold respiration. eexists.
  rewrite f_temperature_ok by assumption. rewrite rbind_Ok.
  step_by ltac:(lra).
  step_by ltac:(lra).
  reflexivity.
Qed.

(** [calculate_photosynthesis] returns for a positive internal CO2 and a
    temperature that is not the absolute zero. *)
Lemma calculate_photosynthesis_defined PAR N Ts Ci :
  0 < Ci → Ts + KELVIN_DEGREE ≠ 0 →
  ∃ Ag An Rd, calculate_photosynthesis PAR N Ts Ci = Ok (Ag, An, Rd).
Proof.
  intros HCi HT.
  destruct (limitation_rates_defined PAR N Ts Ci HCi HT) as [r Hr].
  destruct (respiration_defined PAR N Ts HT) as [Rd HRd].
  unfold calculate_photosynthesis. rewrite Hr, rbind_Ok. cbv zeta.
  rewrite HRd, rbind_Ok.
  destruct (Rle_dec (min3 (Ac r) (Aj r) (Ap r)) 0); eauto.
Qed.

End Forward.

(** ** Photosynthesis: sign of the gross rate, net rate *)

Section Photosynthesis.
Import Model.

(** The values [calculate_photosynthesis] returns, from its locals. *)
Lemma calculate_photosynthesis_inv PAR N Ts Ci Ag An Rd :
  calculate_photosynthesis PAR N Ts Ci = Ok (Ag, An, Rd) →
  ∃ r, limitation_rates PAR N Ts Ci = Ok r
       ∧ respiration PAR N Ts = Ok Rd
       ∧ ((min3 (Ac r) (Aj r) (Ap r) <= 0 ∧ Ag = 0 ∧ An = 0)
          ∨ (0 < min3 (Ac r) (Aj r) (Ap r)
             ∧ Ag = min3 (Ac r) (Aj r) (Ap r) ∧ An = Ag - Rd)).
Proof.
  unfold calculate_photosynthesis. intros H.
  apply rbind_inv in H as (r & Hr & H).
  apply rbind_inv in H as (rd & Hrd & H).
  exists r.
  destruct (Rle_dec (min3 (Ac r) (Aj r) (Ap r)) 0) as [Hle|Hgt];
    injection H as <- <- <-; (split; [assumption | split; [assumption | ]]).
  - left. auto.
  - right. split; [lra | auto].
Qed.

End Photosynthesis.

(** C3.  Whenever [calculate_photosynthesis] returns [(Ag, An, Rd)]: [Ag] is
    not negative; [An = Ag - Rd] when [Ag > 0]; [Ag] and [An] are both [0]
    otherwise, which is when the smallest of the three limitation rates is
    not positive; and so [An <= Ag] as soon as [Rd >= 0]. *)
Theorem calculate_photosynthesis_sign PAR N Ts Ci Ag An Rd :
  Model.calculate_photosynthesis PAR N Ts Ci = Ok (Ag, An, Rd) →
  0 <= Ag
  ∧ (0 < Ag → An = Ag - Rd)
  ∧ (¬ 0 < Ag → Ag = 0 ∧ An = 0)
  ∧ (0 <= Rd → An <= Ag)
  ∧ ∃ r, Model.limitation_rates PAR N Ts Ci = Ok r
         ∧ (0 < Ag ↔ 0 < Model.min3 (Model.Ac r) (Model.Aj r) (Model.Ap r)).
Proof.
  intros H.
  apply calculate_photosynthesis_inv in H as (r & Hr & _ & [(Hm & -> & ->) | (Hm & HAg & ->)]).
  - repeat split; try lra. exists r. split; [assumption | lra].
  - rewrite <- HAg in Hm. repeat split; try lra.
    exists r. split; [assumption | ]. rewrite <- HAg. tauto.
Qed.

Lemma calculate_photosynthesis_sign_witness :
  ∃ Ag An Rd,
    Model.calculate_photosynthesis 500 2 20 266 = Ok (Ag, An, Rd)
    ∧ 0 <= Ag ∧ (0 < Ag → An = Ag - Rd) ∧ (¬ 0 < Ag → Ag = 0 ∧ An = 0).
Proof.
  destruct (calculate_photosynthesis_defined 500 2 20 266) as (Ag & An & Rd & H);
    [lra | unfold Model.KELVIN_DEGREE; lra | ].
  exists Ag, An, Rd. split; [exact H | ].
  destruct (calculate_photosynthesis_sign 500 2 20 266 Ag An Rd H) as (H1 & H2 & H3 & _).
  auto.
Defined.

(** ** Stomatal conductance and its floor *)

(** C4, as stated, fails: the Ball-Berry term is divided by the CO2
    concentration at the organ surface, [Cs = ambient_CO2 - An * 1.37 / GB],
    which is negative for a net assimilation that is large against the
    ambient CO2.  With [Ag = An = 10], one gram of nitrogen per square metre,
    [ambient_CO2 = 1] and [RH = 0.5] the conductance returned is below
    [GSMIN]. *)
Lemma stomatal_conductance_below_floor :
  ∃ gsw, Model._stomatal_conductance 10 10 1 1 0.5 = Ok gsw ∧ gsw < Model.GSMIN.
Proof.
  unfold Model._stomatal_conductance, Model.GB, Model.GSMIN, Model.delta1, Model.delta2.
  rewrite fdiv_ok by lra. rewrite rbind_Ok.
  rewrite fpow_ok by lra. rewrite rbind_Ok.
  rewrite fdiv_ok by lra. rewrite rbind_Ok.
  eexists; split; [reflexivity | ].
  assert (Hp : Rpower 1 (-0.548) = 1).
  { unfold Rpower. rewrite ln_1, Rmult_0_r. apply exp_0. }
  rewrite Hp. lra.
Qed.

(** C4, amended.  With a positive nitrogen content, [Ag * RH >= 0] and a
    positive CO2 concentration at the organ surface, [_stomatal_conductance]
    returns, and what it returns is at least [GSMIN]. *)
Theorem stomatal_conductance_floor Ag An N ambient_CO2 RH :
  0 < N →
  0 <= Ag * RH →
  0 < ambient_CO2 - An * (1.37 / Model.GB) →
  ∃ gsw, Model._stomatal_conductance Ag An N ambient_CO2 RH = Ok gsw
         ∧ Model.GSMIN <= gsw.
Proof.
  intros HN HA HCs.
  unfold Model._stomatal_conductance.
  rewrite fdiv_ok by (unfold Model.GB; lra). rewrite rbind_Ok.
  rewrite fpow_ok by assumption. rewrite rbind_Ok.
  rewrite fdiv_ok by lra. rewrite rbind_Ok.
  eexists; split; [reflexivity | ].
  pose proof (Rpower_pos N Model.delta2) as Hp.
  assert (Hq : 0 <= Ag * RH / (ambient_CO2 - An * (1.37 / Model.GB))).
  { apply Rmult_le_pos; [assumption | ]. left. apply Rinv_0_lt_compat. assumption. }
  assert (Hm : 0 <= Model.delta1 * Rpower N Model.delta2).
  { apply Rmult_le_pos; [unfold Model.delta1; lra | lra]. }
  pose proof (Rmult_le_pos _ _ Hm Hq). lra.
Qed.

Lemma stomatal_conductance_floor_witness :
  ∃ gsw, Model._stomatal_conductance 10 8 2 380 0.6 = Ok gsw ∧ Model.GSMIN <= gsw.
Proof.
  apply (stomatal_conductance_floor 10 8 2 380 0.6); unfold Model.GB; lra.
Defined.


(** ** The loop of [run] *)

Section Loop.
Import Model Closed.

Lemma io_eta {T : Type} (m : io T) : IO (printed m) (outcome m) = m.
Proof. destruct m; reflexivity. Qed.

Lemma io_bind_lift_Ok {T U : Type} (v : T) (k : T → io U) :
  (x ← lift (Ok v); k x) = k v.
Proof. unfold mbind, io_bind, lift. cbn. apply io_eta. Qed.

Lemma io_bind_lift_Raise {T U : Type} (e : exn) (k : T → io U) :
  (x ← lift (Raise e); k x) = IO [] (Raise e).
Proof. reflexivity. Qed.

Lemma io_bind_ret {T U : Type} (v : T) (k : T → io U) :
  (x ← mret v; k x) = k v.
Proof. unfold mbind, io_bind, mret, io_ret. cbn. apply io_eta. Qed.

Lemma outcome_bind {T U : Type} (m : io T) (k : T → io U) :
  outcome (x ← m; k x) =
  match outcome m with Ok v => outcome (k v) | Raise e => Raise e end.
Proof. unfold mbind, io_bind. destruct (outcome m); reflexivity. Qed.

Lemma io_bind_ext {T U : Type} (m : io T) (k1 k2 : T → io U) :
  (∀ v, outcome m = Ok v → k1 v = k2 v) → (x ← m; k1 x) = (x ← m; k2 x).
Proof.
  intros H. unfold mbind, io_bind. destruct (outcome m) as [v|e]; [ | reflexivity].
  rewrite (H v) by reflexivity. reflexivity.
Qed.

Variables (N width height PAR Ta ambient_CO2 RH Ur : R).
Variables (organ_name : string) (height_canopy : R).

#[local] Abbreviation body := (iteration N width height PAR Ta ambient_CO2 RH Ur organ_name height_canopy).
#[local] Abbreviation loop fuel := (while_true fuel N width height PAR Ta ambient_CO2 RH Ur organ_name height_canopy).
#[local] Abbreviation pass n := (nth_pass n N width height PAR Ta ambient_CO2 RH Ur organ_name height_canopy).


(** At the cap the exit test never says "go on". *)
Lemma loop_exit_cap count prec_Ci prec_Ts Ci Ts :
  (MAX_COUNT ≤ count)%nat →
  outcome (loop_exit organ_name count prec_Ci prec_Ts Ci Ts) ≠ Ok false.
Proof.
  intros Hc. unfold loop_exit.
  destruct (Nat.leb_spec MAX_COUNT count) as [_|Hlt]; [ | lia].
  destruct (fdiv (Ci - prec_Ci) prec_Ci) as [r|e]; [ | discriminate].
  rewrite io_bind_lift_Ok.
  rewrite !outcome_bind.
  destruct (bool_decide (DELTA_CONVERGENCE <= Rabs r)); cbn.
  all: destruct (bool_decide (prec_Ts = 0)); cbn; try discriminate.
  all: destruct (fdiv (Ts - prec_Ts) prec_Ts) as [r'|e']; cbn; try discriminate.
  all: destruct (bool_decide (DELTA_CONVERGENCE <= Rabs r')); cbn; discriminate.
Qed.

Lemma loop_exit_below_cap count prec_Ci prec_Ts Ci Ts :
  (count < MAX_COUNT)%nat →
  printed (loop_exit organ_name count prec_Ci prec_Ts Ci Ts) = []
  ∧ (outcome (loop_exit organ_name count prec_Ci prec_Ts Ci Ts) = Ok true
     ↔ converged prec_Ci prec_Ts Ci Ts).
Proof.
  intros Hc. unfold loop_exit, converged, relative_change_below_tolerance.
  destruct (Nat.leb_spec MAX_COUNT count) as [Hge|_]; [lia | ].
  destruct (Req_dec_T prec_Ci 0) as [H0|H0].
  { subst prec_Ci. rewrite fdiv_zero, io_bind_lift_Raise. split; [reflexivity | ]. cbn.
    split; [discriminate | intros [[? _] _]; congruence]. }
  rewrite (fdiv_ok (Ci - prec_Ci) prec_Ci) by assumption. rewrite io_bind_lift_Ok.
  destruct (bool_decide_reflect (Rabs ((Ci - prec_Ci) / prec_Ci) < DELTA_CONVERGENCE)) as [HCi|HCi].
  2:{ split; [reflexivity | ]. cbn. split; [discriminate | tauto]. }
  destruct (bool_decide_reflect (prec_Ts = 0)) as [HT0|HT0]; cbn [andb].
  - subst prec_Ts. destruct (bool_decide_reflect (Ts - 0 = 0)) as [HTe|HTe].
    + split; [reflexivity | ]. cbn. split; [intros _ | reflexivity].
      split; [tauto | ]. right. split; [reflexivity | lra].
    + rewrite fdiv_zero, io_bind_lift_Raise. split; [reflexivity | ]. cbn.
      split; [discriminate | ]. intros [_ [[? _] | [_ ?]]]; [contradiction | lra].
  - rewrite fdiv_ok by assumption. rewrite io_bind_lift_Ok. split; [reflexivity | ].
    cbn.
    destruct (bool_decide_reflect (Rabs ((Ts - prec_Ts) / prec_Ts) < DELTA_CONVERGENCE)) as [HTs|HTs].
    + split; [intros _ | reflexivity]. tauto.
    + split; [discriminate | ]. intros [_ [[_ ?] | [? _]]]; contradiction.
Qed.


Lemma while_true_S fuel Ci Ts count :
  loop (S fuel) Ci Ts count =
  (it ← lift (body Ci Ts);
   stop ← loop_exit organ_name (S count) Ci Ts (it_Ci it) (it_Ts it);
   if stop : bool then mret (Some (it, S count))
   else loop fuel (it_Ci it) (it_Ts it) (S count)).
Proof. reflexivity. Qed.

(** Fuel beyond what the cap leaves to run changes nothing. *)
Lemma while_true_fuel_enough k : ∀ count fuel Ci Ts,
  (count + S k = MAX_COUNT)%nat → (S k ≤ fuel)%nat →
  loop fuel Ci Ts count = loop (S k) Ci Ts count.
Proof.
  induction k as [|k IH]; intros count fuel Ci Ts Hc Hf;
    (destruct fuel as [|fuel]; [lia | ]); rewrite !while_true_S;
    (destruct (body Ci Ts) as [it|e]; [ | reflexivity]);
    rewrite !io_bind_lift_Ok; apply io_bind_ext; intros [|] Hstop; try reflexivity.
  - exfalso. revert Hstop. apply loop_exit_cap. lia.
  - apply IH; lia.
Qed.

(** The loop started below the cap breaks or raises; when it breaks, it
    does so in one of the passes the cap leaves, with the values of that
    pass. *)
Lemma while_true_result k : ∀ count Ci Ts,
  (count + S k = MAX_COUNT)%nat →
  match outcome (loop (S k) Ci Ts count) with
  | Ok None => False
  | Ok (Some (it, c)) =>
      ∃ n, (n ≤ k)%nat ∧ c = (count + S n)%nat ∧ pass n Ci Ts = Ok it
  | Raise _ => True
  end.
Proof.
  induction k as [|k IH]; intros count Ci Ts Hc; rewrite while_true_S;
    (destruct (body Ci Ts) as [it|e] eqn:Hit; [ | exact I]);
    rewrite io_bind_lift_Ok, outcome_bind;
    (destruct (outcome (loop_exit organ_name (S count) Ci Ts (it_Ci it) (it_Ts it)))
       as [[|]|e] eqn:Hstop; [ | | exact I]).
  - cbn. exists 0%nat. repeat split; [lia | lia | exact Hit].
  - exfalso. revert Hstop. apply loop_exit_cap. lia.
  - cbn. exists 0%nat. repeat split; [lia | lia | exact Hit].
  - specialize (IH (S count) (it_Ci it) (it_Ts it) ltac:(lia)).
    destruct (outcome (loop (S k) (it_Ci it) (it_Ts it) (S count))) as [[[it' c]|]|e];
      [ | exact IH | exact I].
    destruct IH as (n & Hn & -> & Hp). exists (S n).
    repeat split; [lia | lia | ]. cbn [nth_pass]. rewrite Hit. exact Hp.
Qed.

(** The count a break returns is above the count the loop started at. *)
Lemma while_true_count fuel : ∀ count Ci Ts it c,
  outcome (loop fuel Ci Ts count) = Ok (Some (it, c)) → (count < c)%nat.
Proof.
  induction fuel as [|fuel IH]; intros count Ci Ts it c.
  - discriminate.
  - rewrite while_true_S. destruct (body Ci Ts) as [it0|e]; [ | discriminate].
    rewrite io_bind_lift_Ok, outcome_bind.
    destruct (outcome (loop_exit organ_name (S count) Ci Ts (it_Ci it0) (it_Ts it0)))
      as [[|]|e]; [ | | discriminate].
    + cbn. intros [= _ <-]. lia.
    + intros H. apply IH in H. lia.
Qed.

End Loop.

(** ** A run in the dark *)

Section Dark.
Import Model Closed.

Lemma stomatal_conductance_no_nitrogen Ag An ambient_CO2 RH :
  _stomatal_conductance Ag An 0 ambient_CO2 RH = Raise ZeroDivisionError.
Proof.
  unfold _stomatal_conductance.
  rewrite fdiv_ok by (unfold GB; lra). rewrite rbind_Ok.
  unfold fpow, delta2.
  destruct (Rlt_dec 0 0) as [H|_]; [lra | ].
  destruct (Req_dec_T 0 0) as [_|H]; [ | contradiction].
  destruct (Rlt_dec (-0.548) 0) as [_|H]; [reflexivity | lra].
Qed.

Lemma iteration_no_nitrogen width height PAR Ta ambient_CO2 RH Ur organ_name height_canopy Ci Ts :
  0 < Ci → Ts + KELVIN_DEGREE ≠ 0 →
  iteration 0 width height PAR Ta ambient_CO2 RH Ur organ_name height_canopy Ci Ts
  = Raise ZeroDivisionError.
Proof.
  intros HCi HT. unfold iteration.
  destruct (calculate_photosynthesis_defined PAR 0 Ts Ci HCi HT) as (Ag & An & Rd & ->).
  rewrite rbind_Ok. rewrite stomatal_conductance_no_nitrogen. reflexivity.
Qed.

Lemma one_lt_div a b : 0 < b → b < a → 1 < a / b.
Proof.
  intros Hb Hab.
  assert (0 < (a - b) / b) by (apply Rdiv_lt_0_compat; lra).
  replace (a / b) with ((a - b) / b + 1) by (field; lra). lra.
Qed.

Lemma ln_pos x : 1 < x → 0 < ln x.
Proof. intros Hx. rewrite <- ln_1. apply ln_increasing; lra. Qed.

Lemma clamp_wind_pos Ur : 0.1 <= clamp_wind Ur.
Proof. unfold clamp_wind. apply Rmax_r. Qed.

(** Under a canopy lower than 2.5 m the wind profile is defined, whatever
    the reference wind, and the wind at organ height is positive. *)
Lemma wind_at_organ_ok z Zh Ur :
  0 < Zh < 2.5 →
  ∃ u, 0 < u ∧ wind_at_organ z Zh Ur = Ok (0.7 * Zh, 0.1 * Zh, clamp_wind Ur, u).
Proof.
  intros [HZ0 HZ1]. unfold wind_at_organ, ZR, K.
  pose proof (clamp_wind_pos Ur) as HU.
  assert (Ha : 0 < ln ((2 - 0.7 * Zh) / (0.1 * Zh))) by (apply ln_pos, one_lt_div; lra).
  assert (Hb : 0 < ln ((Zh - 0.7 * Zh) / (0.1 * Zh))) by (apply ln_pos, one_lt_div; lra).
  eexists. split; [ | ].
  2:{ step_by ltac:(lra).
      step_by ltac:(apply Rdiv_lt_0_compat; lra).
      step_by ltac:(lra).
      step_by ltac:(lra).
      step_by ltac:(lra).
      step_by ltac:(apply Rdiv_lt_0_compat; lra).
      step_by ltac:(lra).
      reflexivity. }
  apply Rmult_lt_0_compat; [ | apply exp_pos].
  apply Rmult_lt_0_compat; [ | assumption].
  apply Rdiv_lt_0_compat; [ | lra].
  apply Rdiv_lt_0_compat; [ | assumption].
  apply Rmult_lt_0_compat; lra.
Qed.

Lemma aerodynamic_resistance_ok Zh Ur :
  0 < Zh < 2.5 → 0 < Ur →
  ∃ ra, 0 < ra ∧ aerodynamic_resistance (0.7 * Zh) (0.1 * Zh) Ur = Ok ra.
Proof.
  intros [HZ0 HZ1] HU. unfold aerodynamic_resistance, ZR, K.
  assert (Ha : 0 < ln ((2 - 0.7 * Zh) / (0.1 * Zh))) by (apply ln_pos, one_lt_div; lra).
  assert (HK : 0 < 0.40 ^ 2 * Ur) by (apply Rmult_lt_0_compat; lra).
  eexists. split; [ | ].
  2:{ step_by ltac:(lra).
      step_by ltac:(lra).
      step_by ltac:(apply Rdiv_lt_0_compat; lra).
      reflexivity. }
  apply Rmult_lt_0_compat; [apply Rdiv_lt_0_compat; lra | ].
  apply pow_lt. assumption.
Qed.

Lemma boundary_layer_resistance_ok organ_name w u :
  0 < w → 0 < u →
  ∃ rbh, 0 < rbh ∧ boundary_layer_resistance organ_name w u = Ok rbh.
Proof.
  intros Hw Hu. unfold boundary_layer_resistance.
  destruct (String.eqb organ_name "blade").
  - assert (0 < w / u) by (apply Rdiv_lt_0_compat; assumption).
    eexists. split; [ | ].
    2:{ step_by ltac:(lra). step_by ltac:(lra). reflexivity. }
    apply Rmult_lt_0_compat; [lra | apply sqrt_lt_R0; assumption].
  - assert (0 < u * w / 1.5E-5) by (apply Rdiv_lt_0_compat; [apply Rmult_lt_0_compat; assumption | lra]).
    pose proof (Rpower_pos (u * w / 1.5E-5) 0.47) as Hp.
    assert (0 < 1.2E-5 * Rpower (u * w / 1.5E-5) 0.47) by (apply Rmult_lt_0_compat; lra).
    eexists. split; [ | ].
    2:{ step_by ltac:(lra). step_by ltac:(lra). rewrite fdiv_ok by lra. reflexivity. }
    apply Rdiv_lt_0_compat; assumption.
Qed.

Lemma saturated_vapour_pressure_ok T :
  239 + T ≠ 0 →
  saturated_vapour_pressure T = Ok (0.611 * exp (17.4 * T / (239 + T))).
Proof.
  intros HT. unfold saturated_vapour_pressure. rewrite fdiv_ok by assumption. reflexivity.
Qed.

(** In the dark, in saturated air and at air temperature, nothing is
    absorbed and nothing evaporates: the organ stays at air temperature. *)
Lemma organ_temperature_dark w z Zh Ur gsw Ta organ_name :
  0 < w → 0 < Zh < 2.5 → 0 < gsw → -239 < Ta →
  _organ_temperature w z Zh Ur 0 gsw Ta Ta 1 organ_name = Ok (Ta, 0).
Proof.
  intros Hw HZ Hg HTa. unfold _organ_temperature.
  destruct (wind_at_organ_ok z Zh Ur HZ) as (u & Hu & ->). rewrite rbind_Ok. cbv beta iota.
  destruct (boundary_layer_resistance_ok organ_name w u Hw Hu) as (rbh & Hrbh & ->).
  rewrite rbind_Ok.
  pose proof (clamp_wind_pos Ur) as HU.
  destruct (aerodynamic_resistance_ok Zh (clamp_wind Ur) HZ ltac:(lra)) as (ra & Hra & ->).
  rewrite rbind_Ok.
  step_by ltac:(lra).
  rewrite saturated_vapour_pressure_ok by lra. rewrite rbind_Ok.
  set (es := 0.611 * exp (17.4 * Ta / (239 + Ta))).
  assert (Hes : 0 < es) by (apply Rmult_lt_0_compat; [lra | apply exp_pos]).
  destruct (Req_dec_T Ta Ta) as [_|Hne]; [ | contradiction].
  assert (Hsq : 0 < (Ta + KELVIN_DEGREE + 239) ^ 2).
  { apply pow_lt. unfold KELVIN_DEGREE. lra. }
  step_by ltac:(lra).
  set (s := 17.4 * 239 / (Ta + KELVIN_DEGREE + 239) ^ 2 * es).
  assert (Hs : 0 < s).
  { apply Rmult_lt_0_compat; [ | assumption]. apply Rdiv_lt_0_compat; lra. }
  assert (Hgp : 0 < gsw * R_gas * (Ta + KELVIN_DEGREE) / PATM).
  { apply Rdiv_lt_0_compat; [ | unfold PATM; lra].
    apply Rmult_lt_0_compat; [apply Rmult_lt_0_compat; [assumption | unfold R_gas; lra] | ].
    unfold KELVIN_DEGREE. lra. }
  step_by ltac:(unfold PATM; lra).
  step_by ltac:(lra).
  step_by ltac:(lra).
  step_by ltac:(lra).
  set (rswp := 1 / (gsw * R_gas * (Ta + KELVIN_DEGREE) / PATM)).
  assert (Hrs : 0 < rswp) by (apply Rdiv_lt_0_compat; lra).
  assert (Hrr : 0 < (0.96 * rbh + ra + rswp) / (rbh + ra)) by (apply Rdiv_lt_0_compat; lra).
  assert (Hden : 0 < LAMBDA * (s + GAMMA * ((0.96 * rbh + ra + rswp) / (rbh + ra)))).
  { apply Rmult_lt_0_compat; [unfold LAMBDA; lra | ].
    assert (0 < GAMMA * ((0.96 * rbh + ra + rswp) / (rbh + ra)))
      by (apply Rmult_lt_0_compat; [unfold GAMMA; lra | assumption]).
    lra. }
  step_by ltac:(lra).
  step_by ltac:(unfold RHOCP; lra).
  f_equal.
  assert (Hnum : s * (0 * PARa_to_RGa / 4.55) + RHOCP * (es - 1 * es) / (rbh + ra) = 0).
  { unfold Rdiv. ring. }
  rewrite Hnum.
  replace (0 / (LAMBDA * (s + GAMMA * ((0.96 * rbh + ra + rswp) / (rbh + ra))))) with 0
    by (unfold Rdiv; ring).
  rewrite Rmax_left by lra.
  f_equal. unfold Rdiv. ring.
Qed.


Lemma electron_transport_dark x : 0 <= x → electron_transport x 0 = 0.
Proof.
  intros Hx. unfold electron_transport.
  replace ((x + 0) ^ 2 - 4 * THETA * 0 * x) with (x ^ 2) by ring.
  rewrite sqrt_pow2 by assumption. unfold Rdiv. ring.
Qed.

Lemma min3_le_2 a b c : min3 a b c <= b.
Proof.
  unfold min3. eapply Rle_trans; [apply Rmin_l | apply Rmin_r].
Qed.

(** Without light the electron transport rate is zero, and so is the gross
    assimilation. *)
Lemma calculate_photosynthesis_dark N Ts Ci :
  0 <= N → 0 < Ci → Ts + KELVIN_DEGREE ≠ 0 →
  ∃ Rd, calculate_photosynthesis 0 N Ts Ci = Ok (0, 0, Rd).
Proof.
  intros HN HCi HT.
  destruct (limitation_rates_defined 0 N Ts Ci HCi HT) as [r Hr].
  destruct (respiration_defined 0 N Ts HT) as [Rd HRd].
  exists Rd. unfold calculate_photosynthesis. rewrite Hr, rbind_Ok. cbv zeta.
  rewrite HRd, rbind_Ok.
  apply limitation_rates_inv in Hr.
  assert (HJm : 0 <= Jmax r).
  { rewrite (rates_Jmax _ _ _ _ _ Hr). unfold surfacic_nitrogen_min_Jmax25, S_surfacic_nitrogen_Jmax25.
    pose proof (activation_pos p_Jmax Ts). pose proof (deactivation_pos p_Jmax Ts).
    apply Rmult_le_pos; [apply Rmult_le_pos | ]; lra. }
  assert (HAj : Aj r = 0).
  { rewrite (rates_Aj _ _ _ _ _ Hr), (rates_J _ _ _ _ _ Hr), Rmult_0_r,
      electron_transport_dark by assumption.
    unfold Rdiv. ring. }
  pose proof (min3_le_2 (Ac r) (Aj r) (Ap r)) as Hm.
  destruct (Rle_dec (min3 (Ac r) (Aj r) (Ap r)) 0); [reflexivity | lra].
Qed.

Lemma stomatal_conductance_dark N ambient_CO2 RH :
  0 < N → ambient_CO2 ≠ 0 →
  _stomatal_conductance 0 0 N ambient_CO2 RH = Ok GSMIN.
Proof.
  intros HN HC. unfold _stomatal_conductance.
  step_by ltac:(unfold GB; lra).
  step_by ltac:(assumption).
  step_by ltac:(lra).
  f_equal. unfold Rdiv. ring.
Qed.

Lemma calculate_Ci_dark ambient_CO2 gsw :
  gsw ≠ 0 → _calculate_Ci ambient_CO2 0 gsw = Ok ambient_CO2.
Proof.
  intros Hg. unfold _calculate_Ci.
  step_by ltac:(assumption).
  step_by ltac:(unfold GB; lra).
  f_equal. ring.
Qed.

(** One pass of the loop in the dark, in saturated air, from the air
    temperature. *)
Lemma iteration_dark N width height Ta ambient_CO2 Ur organ_name height_canopy Ci :
  0 < N → 0 < width → 0 < height_canopy < 2.5 → -239 < Ta → ambient_CO2 ≠ 0 → 0 < Ci →
  ∃ Rd, iteration N width height 0 Ta ambient_CO2 1 Ur organ_name height_canopy Ci Ta
        = Ok (Iterate 0 0 Rd GSMIN ambient_CO2 Ta 0).
Proof.
  intros HN Hw HZ HTa HC HCi. unfold iteration.
  destruct (calculate_photosynthesis_dark N Ta Ci) as (Rd & ->);
    [lra | assumption | unfold KELVIN_DEGREE; lra | ].
  exists Rd. rewrite rbind_Ok. cbv beta iota.
  rewrite stomatal_conductance_dark by assumption. rewrite rbind_Ok.
  rewrite calculate_Ci_dark by (unfold GSMIN; lra). rewrite rbind_Ok.
  rewrite organ_temperature_dark by (assumption || (unfold GSMIN; lra)).
  reflexivity.
Qed.

End Dark.

(** ** [run]: termination and the values returned *)

Section RunFacts.
Import Model Closed.

Lemma conclude_ok organ_name it :
  conclude organ_name it =
  Ok (if negb (String.eqb organ_name "blade") then it_Ag it * EFFICENCY_STEM else it_Ag it,
      it_An it, it_Rd it, it_Tr it * 1E6 / MM_WATER, it_Ts it, it_gsw it).
Proof.
  unfold conclude. rewrite fdiv_ok by (unfold MM_WATER; lra). reflexivity.
Qed.

(** What [loop_exit] prints and returns at the cap. *)
Lemma loop_exit_at_cap organ_name count prec_Ci prec_Ts Ci Ts :
  (MAX_COUNT ≤ count)%nat → prec_Ci ≠ 0 →
  loop_exit organ_name count prec_Ci prec_Ts Ci Ts =
  IO ((if bool_decide (DELTA_CONVERGENCE <= Rabs ((Ci - prec_Ci) / prec_Ci))
       then [Ci_cannot_converge organ_name prec_Ci Ci] else [])
      ++ (if bool_decide (prec_Ts ≠ 0
                          ∧ DELTA_CONVERGENCE <= Rabs ((Ts - prec_Ts) / prec_Ts))
          then [Ts_cannot_converge organ_name prec_Ts Ts] else []))
     (Ok true).
Proof.
  intros Hc H0. unfold loop_exit.
  destruct (Nat.leb_spec MAX_COUNT count) as [_|Hlt]; [ | lia].
  rewrite (fdiv_ok (Ci - prec_Ci) prec_Ci) by assumption. rewrite io_bind_lift_Ok.
  destruct (bool_decide (DELTA_CONVERGENCE <= Rabs ((Ci - prec_Ci) / prec_Ci)));
    destruct (bool_decide_reflect (prec_Ts = 0)) as [HT|HT].
  all: try (rewrite (fdiv_ok (Ts - prec_Ts) prec_Ts) by assumption).
  all: try rewrite io_bind_lift_Ok.
  all: destruct (bool_decide_reflect (DELTA_CONVERGENCE <= Rabs ((Ts - prec_Ts) / prec_Ts))) as [HD|HD].
  all: try (rewrite (bool_decide_eq_true_2 (prec_Ts ≠ 0 ∧ _)) by tauto).
  all: try (rewrite (bool_decide_eq_false_2 (prec_Ts ≠ 0 ∧ _)) by tauto).
  all: reflexivity.
Qed.


Lemma run_fuel_unfold fuel Nopt width height PAR Ta ambient_CO2 RH Ur organ_name height_canopy :
  run_fuel fuel Nopt width height PAR Ta ambient_CO2 RH Ur organ_name height_canopy =
  (last ← while_true fuel (default NA_0 Nopt) width height PAR Ta ambient_CO2 RH Ur
            organ_name height_canopy (0.7 * ambient_CO2) Ta 0;
   match last with
   | None => mret None
   | Some (it, _) => out ← lift (conclude organ_name it); mret (Some out)
   end).
Proof. destruct Nopt; reflexivity. Qed.

Lemma outcome_run_fuel fuel Nopt width height PAR Ta ambient_CO2 RH Ur organ_name height_canopy :
  outcome (run_fuel fuel Nopt width height PAR Ta ambient_CO2 RH Ur organ_name height_canopy) =
  match outcome (while_true fuel (default NA_0 Nopt) width height PAR Ta ambient_CO2 RH Ur
                   organ_name height_canopy (0.7 * ambient_CO2) Ta 0) with
  | Ok None => Ok None
  | Ok (Some (it, _)) =>
      Ok (Some (if negb (String.eqb organ_name "blade")
                then it_Ag it * EFFICENCY_STEM else it_Ag it,
                it_An it, it_Rd it, it_Tr it * 1E6 / MM_WATER, it_Ts it, it_gsw it))
  | Raise e => Raise e
  end.
Proof.
  rewrite run_fuel_unfold, outcome_bind.
  destruct (outcome (while_true _ _ _ _ _ _ _ _ _ _ _ _ _ _)) as [[[it c]|]|e];
    try reflexivity.
  rewrite conclude_ok, io_bind_lift_Ok. reflexivity.
Qed.

(** What [run] returns comes from the last pass made. *)
Lemma run_returns_last_pass
    Nopt width height PAR Ta ambient_CO2 RH Ur organ_name height_canopy :
  match outcome (run Nopt width height PAR Ta ambient_CO2 RH Ur organ_name height_canopy) with
  | Ok None => False
  | Ok (Some out) =>
      ∃ n it, (n < MAX_COUNT)%nat
        ∧ nth_pass n (default NA_0 Nopt) width height PAR Ta ambient_CO2
            RH Ur organ_name height_canopy (0.7 * ambient_CO2) Ta = Ok it
        ∧ conclude organ_name it = Ok out
  | Raise _ => True
  end.
Proof.
  unfold run. rewrite outcome_run_fuel.
  pose proof (while_true_result (default NA_0 Nopt) width height PAR Ta ambient_CO2
                RH Ur organ_name height_canopy 29 0 (0.7 * ambient_CO2) Ta eq_refl) as H.
  change (S 29) with MAX_COUNT in H.
  destruct (outcome (while_true _ _ _ _ _ _ _ _ _ _ _ _ _ _)) as [[[it c]|]|e];
    [ | exact H | exact I].
  destruct H as (n & Hn & _ & Hp). exists n, it.
  split; [unfold MAX_COUNT; lia | ]. split; [exact Hp | apply conclude_ok].
Qed.

End RunFacts.

(** C1, amended.  The loop of [run] never needs more than 30 passes: with
    any fuel from 30 on, [run_fuel] is [run], and [run] never runs out of
    fuel.  It raises (when a formula or the exit test divides by zero or
    leaves a domain) or it returns the sextuple that [conclude] builds from
    the values of the last pass made, the [n + 1]-th with [n < 30].  From
    [count = 30] on the exit test never asks for another pass, converged or
    not; there, for a previous [Ci] that is not zero, it prints the [Ci] line
    exactly when the relative change of [Ci] is at least the tolerance and
    the [Ts] line exactly when the previous [Ts] is not zero and its relative
    change is at least the tolerance, and it breaks. *)
Theorem run_within_thirty_passes
    Nopt width height PAR Ta ambient_CO2 RH Ur organ_name height_canopy :
  (∀ fuel, (Model.MAX_COUNT ≤ fuel)%nat →
     Model.run_fuel fuel Nopt width height PAR Ta ambient_CO2 RH Ur organ_name height_canopy
     = Model.run Nopt width height PAR Ta ambient_CO2 RH Ur organ_name height_canopy)
  ∧ match Model.outcome
            (Model.run Nopt width height PAR Ta ambient_CO2 RH Ur organ_name height_canopy) with
    | Ok None => False
    | Ok (Some out) =>
        ∃ n it, (n < Model.MAX_COUNT)%nat
          ∧ Closed.nth_pass n (default Model.NA_0 Nopt) width height PAR Ta ambient_CO2
              RH Ur organ_name height_canopy (0.7 * ambient_CO2) Ta = Ok it
          ∧ Model.conclude organ_name it = Ok out
    | Raise _ => True
    end
  ∧ (∀ count prec_Ci prec_Ts Ci Ts, (Model.MAX_COUNT ≤ count)%nat →
       Model.outcome (Model.loop_exit organ_name count prec_Ci prec_Ts Ci Ts) ≠ Ok false)
  ∧ (∀ count prec_Ci prec_Ts Ci Ts, (Model.MAX_COUNT ≤ count)%nat → prec_Ci ≠ 0 →
       Model.loop_exit organ_name count prec_Ci prec_Ts Ci Ts =
       Model.IO
         ((if bool_decide (Model.DELTA_CONVERGENCE <= Rabs ((Ci - prec_Ci) / prec_Ci))
           then [Model.Ci_cannot_converge organ_name prec_Ci Ci] else [])
          ++ (if bool_decide (prec_Ts ≠ 0
                    ∧ Model.DELTA_CONVERGENCE <= Rabs ((Ts - prec_Ts) / prec_Ts))
              then [Model.Ts_cannot_converge organ_name prec_Ts Ts] else []))
         (Ok true)).
Proof.
  split; [ | split; [ | split]].
  - intros fuel Hf. unfold Model.run. rewrite !run_fuel_unfold.
    rewrite (while_true_fuel_enough _ _ _ _ _ _ _ _ _ _ 29 0 fuel); [reflexivity | reflexivity | ].
    unfold Model.MAX_COUNT in Hf. lia.
  - apply run_returns_last_pass.
  - intros. apply loop_exit_cap. assumption.
  - intros. apply loop_exit_at_cap; assumption.
Qed.

(** ** The loop in the dark *)

Section DarkRun.
Import Model Closed.

Lemma io_bind_pure {T U : Type} (v : T) (k : T → io U) :
  (x ← IO [] (Ok v); k x) = k v.
Proof. exact (io_bind_ret v k). Qed.

Lemma le_div a b c : 0 < b → c * b <= a → c <= a / b.
Proof.
  intros Hb H. apply Rmult_le_reg_r with b; [assumption | ].
  unfold Rdiv. rewrite Rmult_assoc, Rinv_l by lra. lra.
Qed.

Lemma loop_exit_converged organ_name count prec_Ci prec_Ts Ci Ts :
  (count < MAX_COUNT)%nat → converged prec_Ci prec_Ts Ci Ts →
  loop_exit organ_name count prec_Ci prec_Ts Ci Ts = IO [] (Ok true).
Proof.
  intros Hc Hconv.
  destruct (loop_exit_below_cap organ_name count prec_Ci prec_Ts Ci Ts Hc) as [Hp Ho].
  apply Ho in Hconv. rewrite <- (io_eta (loop_exit _ _ _ _ _ _)), Hp, Hconv. reflexivity.
Qed.

Lemma loop_exit_Ci_moving organ_name count prec_Ci prec_Ts Ci Ts :
  (count < MAX_COUNT)%nat → prec_Ci ≠ 0 →
  DELTA_CONVERGENCE <= Rabs ((Ci - prec_Ci) / prec_Ci) →
  loop_exit organ_name count prec_Ci prec_Ts Ci Ts = IO [] (Ok false).
Proof.
  intros Hc H0 Hd. unfold loop_exit.
  destruct (Nat.leb_spec MAX_COUNT count) as [Hge|_]; [lia | ].
  rewrite (fdiv_ok (Ci - prec_Ci) prec_Ci) by assumption. rewrite io_bind_lift_Ok.
  rewrite bool_decide_eq_false_2 by lra. reflexivity.
Qed.

(** In the dark and in saturated air the loop settles in its second pass:
    the first moves [Ci] from 0.7 times the ambient CO2 to the ambient CO2,
    the second changes nothing. *)
Lemma while_true_dark fuel N width height Ta ambient_CO2 Ur organ_name height_canopy :
  0 < N → 0 < width → 0 < height_canopy < 2.5 → -239 < Ta → 0 < ambient_CO2 →
  ∃ Rd, while_true (S (S fuel)) N width height 0 Ta ambient_CO2 1 Ur organ_name
          height_canopy (0.7 * ambient_CO2) Ta 0
        = IO [] (Ok (Some (Iterate 0 0 Rd GSMIN ambient_CO2 Ta 0, 2%nat))).
Proof.
  intros HN Hw HZ HTa HC.
  destruct (iteration_dark N width height Ta ambient_CO2 Ur organ_name height_canopy
              (0.7 * ambient_CO2)) as (Rd1 & H1); try assumption; try lra.
  destruct (iteration_dark N width height Ta ambient_CO2 Ur organ_name height_canopy
              ambient_CO2) as (Rd & H2); try assumption; try lra.
  exists Rd.
  rewrite while_true_S, H1, io_bind_lift_Ok. cbn [it_Ci it_Ts].
  rewrite loop_exit_Ci_moving; [ | unfold MAX_COUNT; lia | lra | ].
  2:{ assert (Hq : DELTA_CONVERGENCE
                   <= (ambient_CO2 - 0.7 * ambient_CO2) / (0.7 * ambient_CO2)).
      { apply le_div; unfold DELTA_CONVERGENCE; lra. }
      rewrite Rabs_pos_eq; [assumption | unfold DELTA_CONVERGENCE in Hq; lra]. }
  rewrite io_bind_pure.
  rewrite while_true_S, H2, io_bind_lift_Ok. cbn [it_Ci it_Ts].
  rewrite loop_exit_converged; [ | unfold MAX_COUNT; lia | ].
  2:{ assert (Hz : ∀ x, x ≠ 0 → Rabs ((x - x) / x) < DELTA_CONVERGENCE).
      { intros x Hx. replace ((x - x) / x) with 0 by (field; assumption).
        rewrite Rabs_R0. unfold DELTA_CONVERGENCE. lra. }
      split; [split; [lra | apply Hz; lra] | ].
      destruct (Req_dec_T Ta 0) as [H0|H0]; [right; split; [assumption | reflexivity] | ].
      left. split; [assumption | apply Hz; assumption]. }
  rewrite io_bind_pure. reflexivity.
Qed.

Lemma run_dark Nopt width height Ta ambient_CO2 Ur organ_name height_canopy :
  0 < default NA_0 Nopt → 0 < width → 0 < height_canopy < 2.5 → -239 < Ta →
  0 < ambient_CO2 →
  ∃ Rd, run Nopt width height 0 Ta ambient_CO2 1 Ur organ_name height_canopy
        = IO [] (Ok (Some (if negb (String.eqb organ_name "blade")
                           then 0 * EFFICENCY_STEM else 0,
                           0, Rd, 0 * 1E6 / MM_WATER, Ta, GSMIN))).
Proof.
  intros HN Hw HZ HTa HC.
  destruct (while_true_dark 28 (default NA_0 Nopt) width height Ta ambient_CO2 Ur
              organ_name height_canopy HN Hw HZ HTa HC) as (Rd & H).
  exists Rd. unfold run. rewrite run_fuel_unfold. unfold MAX_COUNT. rewrite H.
  rewrite io_bind_pure, conclude_ok, io_bind_lift_Ok. reflexivity.
Qed.

End DarkRun.


Lemma run_within_thirty_passes_witness :
  Model.run_fuel 40 (Some 2) 0.01 0.5 0 20 380 1 2 "sheath" 1
  = Model.run (Some 2) 0.01 0.5 0 20 380 1 2 "sheath" 1
  ∧ ∃ out, Model.outcome (Model.run (Some 2) 0.01 0.5 0 20 380 1 2 "sheath" 1)
           = Ok (Some out).
Proof.
  split.
  - apply (proj1 (run_within_thirty_passes (Some 2) 0.01 0.5 0 20 380 1 2 "sheath" 1)).
    unfold Model.MAX_COUNT. lia.
  - destruct (run_dark (Some 2) 0.01 0.5 20 380 2 "sheath" 1) as (Rd & H);
      [cbn; lra | lra | split; lra | lra | lra | ].
    rewrite H. eexists. reflexivity.
Defined.

(** C1, as stated, fails: [run] does not return for every input.  An organ
    without non-structural nitrogen makes [_stomatal_conductance] raise zero
    to the power [delta2 = -0.548] in the first pass, which is a
    [ZeroDivisionError]. *)
Lemma run_raises_without_nitrogen :
  Model.outcome (Model.run (Some 0) 0.01 0.5 500 20 380 0.6 2 "blade" 1)
  = Raise ZeroDivisionError.
Proof.
  unfold Model.run. rewrite outcome_run_fuel. cbn [default]. unfold Model.MAX_COUNT.
  rewrite while_true_S.
  rewrite iteration_no_nitrogen by (unfold Model.KELVIN_DEGREE; lra).
  rewrite io_bind_lift_Raise. reflexivity.
Qed.

(** C2.  A pass of the loop that leaves [count] below 30 is the last one,
    the loop breaking with the values of that pass, exactly when the relative
    change of [Ci] is below the tolerance and either the relative change of
    [Ts] is below it too or the previous [Ts] is zero and the new one equals
    it. *)
Theorem loop_breaks_iff_converged
    fuel N width height PAR Ta ambient_CO2 RH Ur organ_name height_canopy Ci Ts count it :
  Model.iteration N width height PAR Ta ambient_CO2 RH Ur organ_name height_canopy Ci Ts
  = Ok it →
  (S count < Model.MAX_COUNT)%nat →
  Model.outcome (Model.while_true (S fuel) N width height PAR Ta ambient_CO2 RH Ur
                   organ_name height_canopy Ci Ts count)
  = Ok (Some (it, S count))
  ↔ Closed.converged Ci Ts (Model.it_Ci it) (Model.it_Ts it).
Proof.
  intros Hit Hc. rewrite while_true_S, Hit, io_bind_lift_Ok, outcome_bind.
  destruct (loop_exit_below_cap organ_name (S count) Ci Ts (Model.it_Ci it) (Model.it_Ts it) Hc)
    as [_ Hiff].
  rewrite <- Hiff.
  destruct (Model.outcome (Model.loop_exit organ_name (S count) Ci Ts _ _)) as [[|]|e].
  - cbn. tauto.
  - split; [ | discriminate]. intros H. apply while_true_count in H. lia.
  - split; discriminate.
Qed.

Lemma loop_breaks_iff_converged_witness :
  ∃ it,
    Model.iteration 2 0.01 0.5 0 20 380 1 2 "blade" 1 380 20 = Ok it
    ∧ (Model.outcome (Model.while_true 29 2 0.01 0.5 0 20 380 1 2 "blade" 1 380 20 1)
       = Ok (Some (it, 2%nat))
       ↔ Closed.converged 380 20 (Model.it_Ci it) (Model.it_Ts it)).
Proof.
  destruct (iteration_dark 2 0.01 0.5 20 380 2 "blade" 1 380) as (Rd & H);
    [lra | lra | split; lra | lra | lra | lra | ].
  eexists. split; [exact H | ].
  apply (loop_breaks_iff_converged 28 2 0.01 0.5 0 20 380 1 2 "blade" 1 380 20 1 _ H).
  unfold Model.MAX_COUNT. lia.
Defined.



(** ** Nitrogen and the limitation rates *)

Section Nitrogen.
Import Model Closed.

Lemma electron_transport_sym x y : electron_transport x y = electron_transport y x.
Proof.
  unfold electron_transport.
  replace ((y + x) ^ 2 - 4 * THETA * x * y) with ((x + y) ^ 2 - 4 * THETA * y * x) by ring.
  replace (y + x) with (x + y) by ring. reflexivity.
Qed.

(** The root in [J] is at least [x + y - 2 * THETA * y]. *)
Lemma root_lower_bound x y :
  0 <= x → 0 <= y →
  x + y - 2 * THETA * y <= sqrt ((x + y) ^ 2 - 4 * THETA * y * x).
Proof.
  intros Hx Hy.
  destruct (Rle_dec (x + y - 2 * THETA * y) 0) as [Hn|Hp].
  - eapply Rle_trans; [exact Hn | apply sqrt_pos].
  - rewrite <- (sqrt_pow2 (x + y - 2 * THETA * y)) by lra.
    apply sqrt_le_1_alt. unfold THETA. nra.
Qed.

Lemma root_lower_bound_strict x y :
  0 <= x → 0 < y →
  x + y - 2 * THETA * y < sqrt ((x + y) ^ 2 - 4 * THETA * y * x).
Proof.
  intros Hx Hy.
  destruct (Rle_dec (x + y - 2 * THETA * y) 0) as [Hn|Hp].
  - destruct Hn as [Hn|Hn].
    + eapply Rlt_le_trans; [exact Hn | apply sqrt_pos].
    + rewrite Hn. apply sqrt_lt_R0. unfold THETA in *.
      assert (Hyy : 0 < y * y) by (apply Rmult_lt_0_compat; assumption).
      assert (Hxe : x = (2 * 0.72 - 1) * y) by lra.
      rewrite Hxe. nra.
  - rewrite <- (sqrt_pow2 (x + y - 2 * THETA * y)) by lra.
    assert (Hyy : 0 < y * y) by (apply Rmult_lt_0_compat; assumption).
    apply sqrt_lt_1_alt. unfold THETA. split; [apply pow2_ge_0 | nra].
Qed.

Lemma electron_transport_mono_l x x' y :
  0 <= x → 0 <= y → x <= x' →
  electron_transport x y <= electron_transport x' y.
Proof.
  intros Hx Hy Hxx'. unfold electron_transport.
  pose proof (root_lower_bound x y Hx Hy) as HK.
  pose proof (discriminant_nonneg x y) as HD.
  set (D := (x + y) ^ 2 - 4 * THETA * y * x) in *.
  pose proof (sqrt_pos D) as HsD.
  pose proof (pow2_sqrt D HD) as HsD2.
  assert (Hroot : sqrt ((x' + y) ^ 2 - 4 * THETA * y * x') <= sqrt D + (x' - x)).
  { rewrite <- (sqrt_pow2 (sqrt D + (x' - x))) by lra.
    apply sqrt_le_1_alt. unfold D in *. unfold THETA in *. nra. }
  apply Rmult_le_compat_r; [unfold THETA; lra | lra].
Qed.

Lemma electron_transport_strict_l x x' y :
  0 <= x → 0 < y → x < x' →
  electron_transport x y < electron_transport x' y.
Proof.
  intros Hx Hy Hxx'. unfold electron_transport.
  pose proof (root_lower_bound_strict x y Hx Hy) as HK.
  pose proof (discriminant_nonneg x y) as HD.
  pose proof (discriminant_nonneg x' y) as HD'.
  set (D := (x + y) ^ 2 - 4 * THETA * y * x) in *.
  pose proof (sqrt_pos D) as HsD.
  pose proof (pow2_sqrt D HD) as HsD2.
  assert (Hroot : sqrt ((x' + y) ^ 2 - 4 * THETA * y * x') < sqrt D + (x' - x)).
  { rewrite <- (sqrt_pow2 (sqrt D + (x' - x))) by lra.
    apply sqrt_lt_1_alt. split; [exact HD' | ]. unfold D in *. unfold THETA in *. nra. }
  apply Rmult_lt_compat_r; [unfold THETA; lra | lra].
Qed.

Lemma electron_transport_mono x x' y y' :
  0 <= x → 0 <= y → x <= x' → y <= y' →
  electron_transport x y <= electron_transport x' y'.
Proof.
  intros Hx Hy Hxx' Hyy'.
  eapply Rle_trans; [apply electron_transport_mono_l; eassumption | ].
  rewrite (electron_transport_sym x' y), (electron_transport_sym x' y').
  apply electron_transport_mono_l; lra.
Qed.

Lemma electron_transport_strict x x' y y' :
  0 <= x → 0 < y → x < x' → y <= y' →
  electron_transport x y < electron_transport x' y'.
Proof.
  intros Hx Hy Hxx' Hyy'.
  eapply Rlt_le_trans; [apply electron_transport_strict_l; eassumption | ].
  rewrite (electron_transport_sym x' y), (electron_transport_sym x' y').
  apply electron_transport_mono_l; lra.
Qed.


Lemma min3_le_1 a b c : min3 a b c <= a.
Proof. unfold min3. eapply Rle_trans; [apply Rmin_l | apply Rmin_l]. Qed.

Lemma min3_le_3 a b c : min3 a b c <= c.
Proof. unfold min3. apply Rmin_r. Qed.

Lemma min3_mono a b c a' b' c' :
  a <= a' → b <= b' → c <= c' → min3 a b c <= min3 a' b' c'.
Proof.
  intros Ha Hb Hc.
  pose proof (min3_le_1 a b c). pose proof (min3_le_2 a b c). pose proof (min3_le_3 a b c).
  unfold min3 at 2. apply Rmin_glb; [apply Rmin_glb | ]; lra.
Qed.

(** A capacity at 25 degrees scaled by positive temperature factors grows
    with the nitrogen content. *)
Lemma capacity_strict c m a d N1 N2 :
  0 < c → 0 < a → 0 < d → N1 < N2 →
  c * (N1 - m) * a * d < c * (N2 - m) * a * d.
Proof.
  intros Hc Ha Hd HN.
  apply Rmult_lt_compat_r; [assumption | ].
  apply Rmult_lt_compat_r; [assumption | ].
  apply Rmult_lt_compat_l; [assumption | lra].
Qed.

Lemma temperature_factor_pos c p T : 0 < c → 0 < c * activation p T * deactivation p T.
Proof.
  intros Hc. pose proof (activation_pos p T). pose proof (deactivation_pos p T).
  apply Rmult_lt_0_compat; [apply Rmult_lt_0_compat | ]; assumption.
Qed.

(** The rates of two nitrogen contents, side by side. *)
Lemma compare_rates PAR N1 N2 Ts Ci r1 r2 :
  rates_of PAR N1 Ts Ci r1 → rates_of PAR N2 Ts Ci r2 → 0 <= N1 → N1 < N2 →
  (Kc r2 = Kc r1 ∧ Ko r2 = Ko r1 ∧ Gamma r2 = Gamma r1)
  ∧ (0 < Kc r1 ∧ 0 < Ko r1 ∧ 0 < Gamma r1)
  ∧ (0 <= Vc_max r1 ∧ Vc_max r1 < Vc_max r2)
  ∧ (0 <= Jmax r1 ∧ Jmax r1 < Jmax r2)
  ∧ (0 <= TPU r1 ∧ TPU r1 < TPU r2)
  ∧ (0 < ALPHA r1 ∧ ALPHA r1 < ALPHA r2).
Proof.
  intros H1 H2 HN0 HN.
  pose proof (activation_pos p_Vc_max Ts). pose proof (deactivation_pos p_Vc_max Ts).
  pose proof (activation_pos p_Jmax Ts). pose proof (deactivation_pos p_Jmax Ts).
  pose proof (activation_pos p_TPU Ts). pose proof (deactivation_pos p_TPU Ts).
  repeat split.
  - rewrite (rates_Kc _ _ _ _ _ H1), (rates_Kc _ _ _ _ _ H2). reflexivity.
  - rewrite (rates_Ko _ _ _ _ _ H1), (rates_Ko _ _ _ _ _ H2). reflexivity.
  - rewrite (rates_Gamma _ _ _ _ _ H1), (rates_Gamma _ _ _ _ _ H2). reflexivity.
  - rewrite (rates_Kc _ _ _ _ _ H1). apply temperature_factor_pos. unfold KC25. lra.
  - rewrite (rates_Ko _ _ _ _ _ H1). apply temperature_factor_pos. unfold KO25. lra.
  - rewrite (rates_Gamma _ _ _ _ _ H1). apply temperature_factor_pos. unfold GAMMA25. lra.
  - rewrite (rates_Vc_max _ _ _ _ _ H1).
    unfold S_surfacic_nitrogen_Vc_max25, surfacic_nitrogen_min_Vc_max25.
    apply Rmult_le_pos; [apply Rmult_le_pos | ]; lra.
  - rewrite (rates_Vc_max _ _ _ _ _ H1), (rates_Vc_max _ _ _ _ _ H2).
    apply capacity_strict; try assumption. unfold S_surfacic_nitrogen_Vc_max25. lra.
  - rewrite (rates_Jmax _ _ _ _ _ H1).
    unfold S_surfacic_nitrogen_Jmax25, surfacic_nitrogen_min_Jmax25.
    apply Rmult_le_pos; [apply Rmult_le_pos | ]; lra.
  - rewrite (rates_Jmax _ _ _ _ _ H1), (rates_Jmax _ _ _ _ _ H2).
    apply capacity_strict; try assumption. unfold S_surfacic_nitrogen_Jmax25. lra.
  - rewrite (rates_TPU _ _ _ _ _ H1).
    unfold S_surfacic_nitrogen_TPU25, surfacic_nitrogen_min_TPU25.
    apply Rmult_le_pos; [apply Rmult_le_pos | ]; lra.
  - rewrite (rates_TPU _ _ _ _ _ H1), (rates_TPU _ _ _ _ _ H2).
    apply capacity_strict; try assumption. unfold S_surfacic_nitrogen_TPU25. lra.
  - rewrite (rates_ALPHA _ _ _ _ _ H1). unfold S_surfacic_nitrogen_alpha, beta. lra.
  - rewrite (rates_ALPHA _ _ _ _ _ H1), (rates_ALPHA _ _ _ _ _ H2). unfold S_surfacic_nitrogen_alpha. lra.
Qed.


Lemma scaled_lt a b k d : a < b → 0 < k → 0 < d → a * k / d < b * k / d.
Proof.
  intros Hab Hk Hd. unfold Rdiv.
  apply Rmult_lt_compat_r; [apply Rinv_0_lt_compat; assumption | ].
  apply Rmult_lt_compat_r; assumption.
Qed.

Lemma scaled_le a b k d : a <= b → 0 < k → 0 < d → a * k / d <= b * k / d.
Proof.
  intros Hab Hk Hd. unfold Rdiv.
  apply Rmult_le_compat_r; [left; apply Rinv_0_lt_compat; assumption | ].
  apply Rmult_le_compat_r; lra.
Qed.

(** Above the CO2 compensation point the three limitation rates grow with
    the nitrogen content; the electron transport limited one strictly so
    only in the light. *)
Lemma limitation_rates_nitrogen PAR N1 N2 Ts Ci r1 r2 :
  rates_of PAR N1 Ts Ci r1 → rates_of PAR N2 Ts Ci r2 → 0 <= N1 → N1 < N2 →
  0 < Ci → Gamma r1 < Ci →
  Ac r1 < Ac r2 ∧ Ap r1 < Ap r2
  ∧ (0 <= PAR → Aj r1 <= Aj r2) ∧ (0 < PAR → Aj r1 < Aj r2).
Proof.
  intros H1 H2 HN0 HN HCi HG.
  destruct (compare_rates PAR N1 N2 Ts Ci r1 r2 H1 H2 HN0 HN)
    as ((EKc & EKo & EG) & (HKc & HKo & HGm) & (HV0 & HV) & (HJ0 & HJ) & (HT0 & HT) & (HA0 & HA)).
  assert (HOK : 0 < O2 / Ko r1) by (apply Rdiv_lt_0_compat; [unfold O2; lra | assumption]).
  assert (Hd1 : 0 < Ci + Kc r1 * (1 + O2 / Ko r1)).
  { assert (0 < Kc r1 * (1 + O2 / Ko r1)) by (apply Rmult_lt_0_compat; lra). lra. }
  assert (Hd3 : 0 < O2 + Ko r1 * (1 + Ci / Kc r1)).
  { assert (0 < Ci / Kc r1) by (apply Rdiv_lt_0_compat; assumption).
    assert (0 < Ko r1 * (1 + Ci / Kc r1)) by (apply Rmult_lt_0_compat; lra).
    unfold O2. lra. }
  assert (Hd4 : 0 < 0.5 * Kc r1 * O2) by (unfold O2; lra).
  assert (HGC : 0 < 1 - Gamma r1 / Ci).
  { assert (Gamma r1 / Ci < 1).
    { apply Rmult_lt_reg_r with Ci; [assumption | ].
      unfold Rdiv. rewrite Rmult_assoc, Rinv_l by lra. lra. }
    lra. }
  split; [ | split; [ | split]].
  - rewrite (rates_Ac _ _ _ _ _ H1), (rates_Ac _ _ _ _ _ H2), EKc, EKo, EG. apply scaled_lt; [assumption | lra | assumption].
  - rewrite (rates_Ap _ _ _ _ _ H1), (rates_Ap _ _ _ _ _ H2), EG.
    apply Rmult_lt_compat_l; [assumption | ].
    assert (Vo r1 < Vo r2).
    { rewrite (rates_Vo _ _ _ _ _ H1), (rates_Vo _ _ _ _ _ H2), EKc, EKo.
      apply scaled_lt; [ | unfold O2; lra | assumption].
      rewrite (rates_Vomax _ _ _ _ _ H1), (rates_Vomax _ _ _ _ _ H2), EKc, EKo, EG.
      unfold Rdiv. apply Rmult_lt_compat_r; [apply Rinv_0_lt_compat; assumption | ].
      apply Rmult_lt_compat_r; [assumption | ].
      apply Rmult_lt_compat_r; assumption. }
    lra.
  - intros HP. rewrite (rates_Aj _ _ _ _ _ H1), (rates_Aj _ _ _ _ _ H2), EG.
    apply scaled_le; [ | lra | lra].
    rewrite (rates_J _ _ _ _ _ H1), (rates_J _ _ _ _ _ H2).
    apply electron_transport_mono; try lra.
    + apply Rmult_le_pos; lra.
    + apply Rmult_le_compat_r; lra.
  - intros HP. rewrite (rates_Aj _ _ _ _ _ H1), (rates_Aj _ _ _ _ _ H2), EG.
    apply scaled_lt; [ | lra | lra].
    rewrite (rates_J _ _ _ _ _ H1), (rates_J _ _ _ _ _ H2).
    apply electron_transport_strict; try lra.
    + apply Rmult_lt_0_compat; lra.
    + apply Rmult_le_compat_r; lra.
Qed.

Lemma Ac_nonpos_below_compensation PAR N1 N2 Ts Ci r1 r2 :
  rates_of PAR N1 Ts Ci r1 → rates_of PAR N2 Ts Ci r2 → 0 <= N1 → N1 < N2 →
  0 < Ci → Ci <= Gamma r1 → Ac r1 <= 0.
Proof.
  intros H1 H2 HN0 HN HCi HG.
  destruct (compare_rates PAR N1 N2 Ts Ci r1 r2 H1 H2 HN0 HN)
    as (_ & (HKc & HKo & HGm) & (HV0 & _) & _).
  assert (HOK : 0 < O2 / Ko r1) by (apply Rdiv_lt_0_compat; [unfold O2; lra | assumption]).
  assert (Hd1 : 0 < Ci + Kc r1 * (1 + O2 / Ko r1)).
  { assert (0 < Kc r1 * (1 + O2 / Ko r1)) by (apply Rmult_lt_0_compat; lra). lra. }
  rewrite (rates_Ac _ _ _ _ _ H1). unfold Rdiv.
  assert (Hi : 0 < / (Ci + Kc r1 * (1 + O2 / Ko r1))) by (apply Rinv_0_lt_compat; assumption).
  assert (Hp : 0 <= Vc_max r1 * (Gamma r1 - Ci)) by (apply Rmult_le_pos; lra).
  pose proof (Rmult_le_pos _ _ Hp (Rlt_le _ _ Hi)) as Hq.
  replace (Vc_max r1 * (Ci - Gamma r1) * / (Ci + Kc r1 * (1 + O2 / Ko r1)))
    with (- (Vc_max r1 * (Gamma r1 - Ci) * / (Ci + Kc r1 * (1 + O2 / Ko r1)))) by ring.
  lra.
Qed.

(** The smallest of the three rates, where it is positive, does not shrink
    when nitrogen is added. *)
Lemma min3_nitrogen PAR N1 N2 Ts Ci r1 r2 :
  rates_of PAR N1 Ts Ci r1 → rates_of PAR N2 Ts Ci r2 → 0 <= N1 → N1 < N2 →
  0 < Ci → 0 <= PAR →
  0 < min3 (Ac r1) (Aj r1) (Ap r1) →
  min3 (Ac r1) (Aj r1) (Ap r1) <= min3 (Ac r2) (Aj r2) (Ap r2).
Proof.
  intros H1 H2 HN0 HN HCi HP Hpos.
  pose proof (min3_le_1 (Ac r1) (Aj r1) (Ap r1)) as HAc.
  destruct (Rle_dec Ci (Gamma r1)) as [HG|HG].
  - pose proof (Ac_nonpos_below_compensation PAR N1 N2 Ts Ci r1 r2 H1 H2 HN0 HN HCi HG). lra.
  - destruct (limitation_rates_nitrogen PAR N1 N2 Ts Ci r1 r2 H1 H2 HN0 HN HCi ltac:(lra))
      as (HA & HAp & HAj & _).
    apply min3_mono; [lra | apply HAj; assumption | lra].
Qed.

End Nitrogen.

(** C6, as stated, fails for the limitation rates.  Below the CO2
    compensation point ([Ci = 20] under [Gamma = 39] at 25 degrees) the
    RuBisCO limited rate [Ac] is negative and more nitrogen makes it more
    negative; and without light the electron transport limited rate [Aj] is
    zero whatever the nitrogen content. *)
Lemma more_nitrogen_lowers_Ac_below_compensation :
  ∃ r1 r2,
    Model.limitation_rates 0 1 25 20 = Ok r1
    ∧ Model.limitation_rates 0 2 25 20 = Ok r2
    ∧ Model.Ac r2 < Model.Ac r1
    ∧ Model.Aj r2 = Model.Aj r1.
Proof.
  destruct (limitation_rates_defined 0 1 25 20) as [r1 H1];
    [lra | unfold Model.KELVIN_DEGREE; lra | ].
  destruct (limitation_rates_defined 0 2 25 20) as [r2 H2];
    [lra | unfold Model.KELVIN_DEGREE; lra | ].
  exists r1, r2. split; [exact H1 | ]. split; [exact H2 | ].
  apply limitation_rates_inv in H1, H2.
  destruct (compare_rates 0 1 2 25 20 r1 r2 H1 H2 ltac:(lra) ltac:(lra))
    as ((EKc & EKo & EG) & (HKc & HKo & HGm) & (HV0 & HV) & (HJ0 & HJ) & _).
  assert (HG : Model.Gamma r1 = 39).
  { rewrite (Closed.rates_Gamma _ _ _ _ _ H1). unfold Closed.activation, Closed.deactivation. cbn.
    replace (25 + Model.KELVIN_DEGREE - Model.Tref) with 0
      by (unfold Model.KELVIN_DEGREE, Model.Tref; lra).
    rewrite Rmult_0_r. unfold Rdiv at 1. rewrite Rmult_0_l, exp_0.
    unfold Model.GAMMA25. lra. }
  split.
  - rewrite (Closed.rates_Ac _ _ _ _ _ H1), (Closed.rates_Ac _ _ _ _ _ H2), EKc, EKo, EG, HG.
    assert (HOK : 0 < Model.O2 / Model.Ko r1)
      by (apply Rdiv_lt_0_compat; [unfold Model.O2; lra | assumption]).
    assert (Hd1 : 0 < 20 + Model.Kc r1 * (1 + Model.O2 / Model.Ko r1)).
    { assert (0 < Model.Kc r1 * (1 + Model.O2 / Model.Ko r1))
        by (apply Rmult_lt_0_compat; lra). lra. }
    unfold Rdiv. apply Rmult_lt_compat_r; [apply Rinv_0_lt_compat; assumption | ]. lra.
  - rewrite (Closed.rates_Aj _ _ _ _ _ H1), (Closed.rates_Aj _ _ _ _ _ H2), (Closed.rates_J _ _ _ _ _ H1), (Closed.rates_J _ _ _ _ _ H2), !Rmult_0_r.
    rewrite !electron_transport_dark by lra. unfold Rdiv. ring.
Qed.

(** C6, amended.  With [PAR], [Ts] and [Ci] fixed and the nitrogen content
    raised from [N1 >= 0] (every minimum threshold is [0]) to [N2 > N1]:
    the capacities [Vc_max], [Jmax] and [TPU] strictly increase; for a
    positive [Ci] above the compensation point [Gamma], so do [Ac] and [Ap],
    while [Aj] does not decrease for [PAR >= 0] and strictly increases for
    [PAR > 0]; and for a positive [Ci] and [PAR >= 0] the [Ag] returned by
    [calculate_photosynthesis] does not decrease. *)
Theorem nitrogen_raises_capacity PAR N1 N2 Ts Ci r1 r2 :
  Model.limitation_rates PAR N1 Ts Ci = Ok r1 →
  Model.limitation_rates PAR N2 Ts Ci = Ok r2 →
  0 <= N1 → N1 < N2 →
  (Model.Vc_max r1 < Model.Vc_max r2
   ∧ Model.Jmax r1 < Model.Jmax r2
   ∧ Model.TPU r1 < Model.TPU r2)
  ∧ (0 < Ci → Model.Gamma r1 < Ci →
     Model.Ac r1 < Model.Ac r2 ∧ Model.Ap r1 < Model.Ap r2
     ∧ (0 <= PAR → Model.Aj r1 <= Model.Aj r2)
     ∧ (0 < PAR → Model.Aj r1 < Model.Aj r2))
  ∧ (0 < Ci → 0 <= PAR →
     ∀ Ag1 An1 Rd1 Ag2 An2 Rd2,
       Model.calculate_photosynthesis PAR N1 Ts Ci = Ok (Ag1, An1, Rd1) →
       Model.calculate_photosynthesis PAR N2 Ts Ci = Ok (Ag2, An2, Rd2) →
       Ag1 <= Ag2).
Proof.
  intros H1 H2 HN0 HN.
  pose proof (limitation_rates_inv _ _ _ _ _ H1) as S1.
  pose proof (limitation_rates_inv _ _ _ _ _ H2) as S2.
  destruct (compare_rates PAR N1 N2 Ts Ci r1 r2 S1 S2 HN0 HN)
    as (_ & _ & (_ & HV) & (_ & HJ) & (_ & HT) & _).
  split; [auto | ]. split.
  - intros HCi HG. apply (limitation_rates_nitrogen PAR N1 N2 Ts Ci); assumption.
  - intros HCi HP Ag1 An1 Rd1 Ag2 An2 Rd2 C1 C2.
    apply calculate_photosynthesis_inv in C1 as (r1' & E1 & _ & HA1).
    apply calculate_photosynthesis_inv in C2 as (r2' & E2 & _ & HA2).
    rewrite H1 in E1. rewrite H2 in E2. injection E1 as <-. injection E2 as <-.
    destruct HA1 as [(_ & -> & _) | (Hpos & -> & _)].
    + destruct HA2 as [(_ & -> & _) | (Hpos2 & -> & _)]; lra.
    + pose proof (min3_nitrogen PAR N1 N2 Ts Ci r1 r2 S1 S2 HN0 HN HCi HP Hpos) as Hm.
      destruct HA2 as [(Hneg & _ & _) | (_ & -> & _)]; lra.
Qed.

Lemma nitrogen_raises_capacity_witness :
  ∃ r1 r2,
    Model.limitation_rates 500 1 20 266 = Ok r1
    ∧ Model.limitation_rates 500 2 20 266 = Ok r2
    ∧ Model.Vc_max r1 < Model.Vc_max r2
    ∧ Model.Jmax r1 < Model.Jmax r2
    ∧ Model.TPU r1 < Model.TPU r2.
Proof.
  destruct (limitation_rates_defined 500 1 20 266) as [r1 H1];
    [lra | unfold Model.KELVIN_DEGREE; lra | ].
  destruct (limitation_rates_defined 500 2 20 266) as [r2 H2];
    [lra | unfold Model.KELVIN_DEGREE; lra | ].
  exists r1, r2. split; [exact H1 | ]. split; [exact H2 | ].
  apply (nitrogen_raises_capacity 500 1 2 20 266 r1 r2 H1 H2); lra.
Defined.

(** ** The floor on the reference wind *)

Section Wind.
Import Model Closed.

Lemma clamp_wind_idem Ur : clamp_wind (clamp_wind Ur) = clamp_wind Ur.
Proof. unfold clamp_wind. apply Rmax_left. apply Rmax_r. Qed.

Lemma clamp_wind_low Ur : Ur <= 0.1 → clamp_wind Ur = 0.1.
Proof. intros H. unfold clamp_wind. apply Rmax_right. assumption. Qed.

(** [_organ_temperature] sees its argument [Ur] through the clamp only. *)
Lemma organ_temperature_clamped w z Zh Ur PAR gsw Ta Ts RH organ_name :
  _organ_temperature w z Zh Ur PAR gsw Ta Ts RH organ_name
  = _organ_temperature w z Zh (clamp_wind Ur) PAR gsw Ta Ts RH organ_name.
Proof.
  unfold _organ_temperature, wind_at_organ. rewrite clamp_wind_idem. reflexivity.
Qed.

(** An error of the wind profile does not come from the reference wind. *)
Lemma wind_at_organ_error z Zh Ur Ur' e :
  wind_at_organ z Zh Ur = Raise e → wind_at_organ z Zh Ur' = Raise e.
Proof.
  unfold wind_at_organ.
  destruct (fdiv (ZR - 0.7 * Zh) (0.1 * Zh)) as [a|e1]; [ | exact (λ H, H)].
  rewrite !rbind_Ok.
  destruct (flog a) as [la|e2]; [ | exact (λ H, H)].
  rewrite !rbind_Ok.
  destruct (Req_dec_T la 0) as [H0|H0].
  { subst la. rewrite !fdiv_zero. exact (λ H, H). }
  rewrite !(fdiv_ok _ la) by assumption. rewrite !rbind_Ok.
  rewrite !(fdiv_ok _ K) by (unfold K; lra). rewrite !rbind_Ok.
  destruct (fdiv (Zh - 0.7 * Zh) (0.1 * Zh)) as [b|e3]; [ | exact (λ H, H)].
  rewrite !rbind_Ok.
  destruct (flog b) as [lb|e4]; [ | exact (λ H, H)].
  rewrite !rbind_Ok.
  destruct (fdiv z Zh) as [q|e5]; [ | exact (λ H, H)].
  rewrite !rbind_Ok. discriminate.
Qed.

Lemma aerodynamic_resistance_error d Zo Ur Ur' e :
  aerodynamic_resistance d Zo (clamp_wind Ur) = Raise e →
  aerodynamic_resistance d Zo (clamp_wind Ur') = Raise e.
Proof.
  unfold aerodynamic_resistance.
  pose proof (clamp_wind_pos Ur). pose proof (clamp_wind_pos Ur').
  rewrite !(fdiv_ok 1) by (unfold K; nra). rewrite !rbind_Ok.
  destruct (fdiv (ZR - d) Zo) as [a|e1]; [ | exact (λ H, H)].
  rewrite !rbind_Ok.
  destruct (flog a) as [la|e2]; [ | exact (λ H, H)].
  rewrite !rbind_Ok. discriminate.
Qed.

End Wind.

(** C9.  [_organ_temperature] replaces [Ur] by [max(Ur, 0.1)] before
    anything else uses it: its result, error included, is the one of the
    clamped wind, so a still air ([Ur = 0]) gives what [Ur = 0.1] gives.  An
    error of the wind profile or of the aerodynamic resistance is raised for
    every reference wind or for none; and under a canopy lower than 2.5 m
    (where the logarithms of the profile are defined) both are computed
    without error for [Ur = 0], with a positive wind at organ height and a
    positive resistance. *)
Theorem wind_speed_floor w z Zh Ur PAR gsw Ta Ts RH organ_name :
  (Model.clamp_wind Ur = Rmax Ur 0.1 ∧ 0.1 <= Model.clamp_wind Ur)
  ∧ Model._organ_temperature w z Zh Ur PAR gsw Ta Ts RH organ_name
    = Model._organ_temperature w z Zh (Rmax Ur 0.1) PAR gsw Ta Ts RH organ_name
  ∧ Model._organ_temperature w z Zh 0 PAR gsw Ta Ts RH organ_name
    = Model._organ_temperature w z Zh 0.1 PAR gsw Ta Ts RH organ_name
  ∧ (∀ e Ur', Model.wind_at_organ z Zh Ur = Raise e →
              Model.wind_at_organ z Zh Ur' = Raise e)
  ∧ (∀ d Zo e Ur', Model.aerodynamic_resistance d Zo (Model.clamp_wind Ur) = Raise e →
                   Model.aerodynamic_resistance d Zo (Model.clamp_wind Ur') = Raise e)
  ∧ (0 < Zh < 2.5 →
     ∃ u ra, 0 < u ∧ 0 < ra
       ∧ Model.wind_at_organ z Zh 0 = Ok (0.7 * Zh, 0.1 * Zh, 0.1, u)
       ∧ Model.aerodynamic_resistance (0.7 * Zh) (0.1 * Zh) 0.1 = Ok ra).
Proof.
  split; [split; [reflexivity | apply clamp_wind_pos] | ].
  split; [apply organ_temperature_clamped | ].
  split.
  { rewrite (organ_temperature_clamped w z Zh 0), (organ_temperature_clamped w z Zh 0.1).
    rewrite !clamp_wind_low by lra. reflexivity. }
  split; [intros e Ur'; apply wind_at_organ_error | ].
  split; [intros d Zo e Ur'; apply aerodynamic_resistance_error | ].
  intros HZ.
  destruct (wind_at_organ_ok z Zh 0 HZ) as (u & Hu & Hw).
  destruct (aerodynamic_resistance_ok Zh 0.1 HZ ltac:(lra)) as (ra & Hra & Ha).
  exists u, ra. rewrite clamp_wind_low in Hw by lra. auto.
Qed.

Lemma wind_speed_floor_witness :
  ∃ u ra, 0 < u ∧ 0 < ra
    ∧ Model.wind_at_organ 0.5 1 0 = Ok (0.7 * 1, 0.1 * 1, 0.1, u)
    ∧ Model.aerodynamic_resistance (0.7 * 1) (0.1 * 1) 0.1 = Ok ra.
Proof.
  apply (wind_speed_floor 0.01 0.5 1 0 500 0.3 20 20 0.6 "blade"). lra.
Defined.

(** ** [Simulation.run] *)

Section SimulationFacts.
Import Simulation Footprint.

Lemma exec_bind {T U : Type} (m : sim T) (k : T → sim U) st :
  exec (x ← m; k x) st =
  match exec m st with
  | (st', Ok v) => exec (k v) st'
  | (st', Raise e) => (st', Raise e)
  end.
Proof. reflexivity. Qed.

Lemma exec_getitem_Some `{Countable K} {V : Type} (d : gmap K V) key v st :
  d !! key = Some v → exec (getitem d key) st = (st, Ok v).
Proof. intros Hd. unfold getitem. rewrite Hd. reflexivity. Qed.

Lemma exec_getitem_None `{Countable K} {V : Type} (d : gmap K V) key st :
  d !! key = None → exec (getitem d key) st = (st, Raise KeyError).
Proof. intros Hd. unfold getitem. rewrite Hd. reflexivity. Qed.

Lemma footprint_unchanged {T : Type} P (m : sim T) :
  (∀ st, (exec m st).1 = st) → footprint P m.
Proof. intros Hm st. rewrite Hm. split; auto. Qed.

Lemma footprint_ret {T : Type} P (v : T) : footprint P (mret v).
Proof. apply footprint_unchanged. reflexivity. Qed.

Lemma footprint_pure {T : Type} P (r : result T) : footprint P (pure r).
Proof. apply footprint_unchanged. reflexivity. Qed.

Lemma footprint_raise {T : Type} P e : footprint P (raise (T := T) e).
Proof. apply footprint_unchanged. reflexivity. Qed.

Lemma footprint_getitem `{Countable K} {V : Type} P (d : gmap K V) key :
  footprint P (getitem d key).
Proof.
  apply footprint_unchanged. intros st. unfold getitem. destruct (d !! key); reflexivity.
Qed.

Lemma footprint_bind {T U : Type} P (m : sim T) (k : T → sim U) :
  footprint P m → (∀ v, footprint P (k v)) → footprint P (x ← m; k x).
Proof.
  intros Hm Hk st. rewrite exec_bind. specialize (Hm st).
  destruct (exec m st) as [st1 [v|e]]; cbn [fst] in *; [ | exact Hm].
  destruct Hm as [Ho Hs]. destruct (Hk v st1) as [Ho' Hs'].
  split.
  - intros id Hid. rewrite Ho', Ho by assumption. reflexivity.
  - intros id Hid. apply Hs' in Hid as [Hid|Hid]; [apply Hs, Hid | right; exact Hid].
Qed.

Lemma footprint_call_run (P : element_id → Prop) id r :
  P id → footprint P (call_run id r).
Proof.
  intros HP st. cbn. split; [reflexivity | ].
  intros id' Hin. apply elem_of_app in Hin as [Hin|Hin]; [left; exact Hin | ].
  apply list_elem_of_singleton in Hin as ->. right. exact HP.
Qed.

Lemma footprint_set_outputs (P : element_id → Prop) id o :
  P id → footprint P (set_outputs id o).
Proof.
  intros HP st. cbn. split; [ | auto].
  intros id' Hid. apply lookup_insert_ne. intros ->. contradiction.
Qed.


Variable MODEL_VERSION : string.
Variable calculate_surfacic_photosynthetic_proteins : pyval → pyval → result pyval.
Variable calculate_surfacic_nonstructural_nitrogen_Farquhar : pyval → result pyval.
Variable calculate_surfacic_WSC : pyval → pyval → pyval → pyval → result pyval.
Variable calculate_surfacic_nitrogen :
  pyval → pyval → pyval → pyval → pyval → result pyval.
Variable model_run :
  pyval → bool → pyval → pyval → pyval → pyval → R → R → R → R → string → pyval
  → result (pyval * pyval * pyval * pyval * pyval * pyval).

#[local] Abbreviation solve_element' :=
  (solve_element MODEL_VERSION calculate_surfacic_photosynthetic_proteins
     calculate_surfacic_nonstructural_nitrogen_Farquhar calculate_surfacic_WSC
     calculate_surfacic_nitrogen model_run).
#[local] Abbreviation run_element' :=
  (run_element MODEL_VERSION calculate_surfacic_photosynthetic_proteins
     calculate_surfacic_nonstructural_nitrogen_Farquhar calculate_surfacic_WSC
     calculate_surfacic_nitrogen model_run).
#[local] Abbreviation for_elements' :=
  (for_elements MODEL_VERSION calculate_surfacic_photosynthetic_proteins
     calculate_surfacic_nonstructural_nitrogen_Farquhar calculate_surfacic_WSC
     calculate_surfacic_nitrogen model_run).
#[local] Abbreviation run' :=
  (run MODEL_VERSION calculate_surfacic_photosynthetic_proteins
     calculate_surfacic_nonstructural_nitrogen_Farquhar calculate_surfacic_WSC
     calculate_surfacic_nitrogen model_run).

Ltac footprint_step :=
  first
    [ apply footprint_getitem
    | apply footprint_ret
    | apply footprint_pure
    | apply footprint_raise
    | apply footprint_call_run; assumption
    | apply footprint_set_outputs; assumption
    | apply footprint_bind; [ | intros ? ]
    | match goal with
      | |- footprint _ (if ?b then _ else _) => destruct b
      | |- footprint _ (match ?x with _ => _ end) => destruct x
      end ].

Lemma footprint_solve_element (P : element_id → Prop) Ta ambient_CO2 RH Ur inp id e :
  P id → footprint P (solve_element' Ta ambient_CO2 RH Ur inp id e).
Proof.
  intros HP. destruct id as [[[[plant axe] metamer] organ] elt].
  unfold solve_element. repeat footprint_step.
Qed.

(** The body of the loop touches the element it is run for and no other,
    and it touches nothing for an element off the main stem. *)
Lemma footprint_run_element Ta ambient_CO2 RH Ur inp id e :
  footprint (λ id', id' = id ∧ axis_label id = "MS")
    (run_element' Ta ambient_CO2 RH Ur inp id e).
Proof.
  destruct id as [[[[plant axe] metamer] organ] elt].
  unfold run_element, axis_label. cbn [fst snd].
  destruct (String.eqb_spec axe "MS") as [->|Hne]; cbn [negb].
  - apply footprint_bind; [apply footprint_getitem | intros height].
    apply footprint_bind.
    + destruct height as [h|].
      * apply footprint_solve_element. auto.
      * repeat footprint_step.
    + intros [[[[[Ag An] Rd] Tr] Ts] gs].
      assert ((λ id', id' = (plant, "MS", metamer, organ, elt) ∧ "MS" = "MS")
                (plant, "MS", metamer, organ, elt)) by auto.
      repeat footprint_step.
  - apply footprint_ret.
Qed.

Lemma footprint_weaken {T : Type} (P Q : element_id → Prop) (m : sim T) :
  (∀ id, P id → Q id) → footprint P m → footprint Q m.
Proof.
  intros HPQ Hm st. destruct (Hm st) as [Ho Hs]. split.
  - intros id Hid. apply Ho. intros HP. apply Hid, HPQ, HP.
  - intros id Hid. apply Hs in Hid as [?|?]; auto.
Qed.

Lemma footprint_for_elements Ta ambient_CO2 RH Ur inp items :
  footprint (λ id, id ∈ map fst items ∧ axis_label id = "MS")
    (for_elements' Ta ambient_CO2 RH Ur inp items).
Proof.
  induction items as [|[id e] items IH]; cbn [for_elements map fst].
  - apply footprint_ret.
  - apply footprint_bind.
    + eapply footprint_weaken; [ | apply footprint_run_element].
      cbn. intros id' [-> HMS]. split; [apply list_elem_of_here | exact HMS].
    + intros _. eapply footprint_weaken; [ | exact IH].
      cbn. intros id' [Hin HMS]. split; [apply list_elem_of_further, Hin | exact HMS].
Qed.

Lemma reset_outputs_lookup ids st id :
  outputs (exec (reset_outputs ids) st).1 !! id
  = if bool_decide (id ∈ ids) then Some ∅ else outputs st !! id.
Proof.
  cbn. generalize (outputs st). induction ids as [|id0 ids IH]; intros o; cbn [foldl].
  - rewrite bool_decide_eq_false_2 by apply not_elem_of_nil. reflexivity.
  - rewrite IH. destruct (bool_decide_reflect (id ∈ ids)) as [Hin|Hin].
    + rewrite bool_decide_eq_true_2 by (apply list_elem_of_further, Hin). reflexivity.
    + destruct (decide (id = id0)) as [->|Hne].
      * rewrite bool_decide_eq_true_2 by apply list_elem_of_here.
        apply lookup_insert_eq.
      * rewrite bool_decide_eq_false_2.
        -- apply lookup_insert_ne. congruence.
        -- intros H. apply elem_of_cons in H as [?|?]; contradiction.
Qed.

Lemma exec_run inp Ta ambient_CO2 RH Ur st :
  exec (run' inp Ta ambient_CO2 RH Ur) st
  = exec (for_elements' Ta ambient_CO2 RH Ur inp (elements inp))
         (exec (reset_outputs (map fst (elements inp))) st).1.
Proof. reflexivity. Qed.


Lemma run_element_off_main_stem Ta ambient_CO2 RH Ur inp id e :
  axis_label id ≠ "MS" → run_element' Ta ambient_CO2 RH Ur inp id e = mret ().
Proof.
  destruct id as [[[[plant axe] metamer] organ] elt]. unfold axis_label. cbn [fst snd].
  intros Hne. unfold run_element.
  destruct (String.eqb_spec axe "MS") as [->|_]; [contradiction | reflexivity].
Qed.


(** What the loop body does for a main stem element without height. *)
Lemma run_element_bypass_inv Ta ambient_CO2 RH Ur inp id e st st1 :
  axis_label id = "MS" → e !! "height" = Some None →
  exec (run_element' Ta ambient_CO2 RH Ur inp id e) st = (st1, Ok ()) →
  ∃ axis Ts width,
    axes inp !! axis_of id = Some axis
    ∧ axis !! "SAM_temperature" = Some Ts
    ∧ e !! "width" = Some width
    ∧ st1 = State (<[id := make_outputs (Some 0) (Some 0) (Some 0) (Some 0) Ts (Some 0)
                             width None]> (outputs st))
                  (solved st).
Proof.
  destruct id as [[[[plant axe] metamer] organ] elt]. unfold axis_label, axis_of.
  cbn [fst snd]. intros -> Hh. unfold run_element. cbn [String.eqb Ascii.eqb Bool.eqb negb andb].
  rewrite exec_bind, (exec_getitem_Some _ _ _ _ Hh). cbv beta iota.
  rewrite !exec_bind.
  destruct (axes inp !! (plant, "MS")) as [axis|] eqn:Hax;
    [rewrite (exec_getitem_Some _ _ _ _ Hax)
    | rewrite (exec_getitem_None _ _ _ Hax); discriminate].
  cbv beta iota. rewrite !exec_bind.
  destruct (axis !! "SAM_temperature") as [Ts|] eqn:HTs;
    [rewrite (exec_getitem_Some _ _ _ _ HTs)
    | rewrite (exec_getitem_None _ _ _ HTs); discriminate].
  cbv beta iota. cbn [exec mret sim_ret]. cbv beta iota.
  rewrite !exec_bind.
  destruct (e !! "width") as [width|] eqn:Hw;
    [rewrite (exec_getitem_Some _ _ _ _ Hw)
    | rewrite (exec_getitem_None _ _ _ Hw); discriminate].
  cbv beta iota. rewrite !exec_bind.
  rewrite (exec_getitem_Some _ _ _ _ Hh). cbn.
  intros [= <-]. exists axis, Ts, width. auto.
Qed.

Lemma for_elements_bypass Ta ambient_CO2 RH Ur inp id e items : ∀ st st',
  NoDup (map fst items) → (id, e) ∈ items →
  axis_label id = "MS" → e !! "height" = Some None →
  exec (for_elements' Ta ambient_CO2 RH Ur inp items) st = (st', Ok ()) →
  ∃ axis Ts width,
    axes inp !! axis_of id = Some axis
    ∧ axis !! "SAM_temperature" = Some Ts
    ∧ e !! "width" = Some width
    ∧ outputs st' !! id
      = Some (make_outputs (Some 0) (Some 0) (Some 0) (Some 0) Ts (Some 0) width None)
    ∧ (id ∈ solved st' → id ∈ solved st).
Proof.
  induction items as [|[id0 e0] items IH]; intros st st' Hnd Hin HMS Hh Hrun.
  - apply elem_of_nil in Hin. contradiction.
  - cbn [map fst] in Hnd. apply NoDup_cons in Hnd as [Hnotin Hnd].
    cbn [for_elements] in Hrun. rewrite exec_bind in Hrun.
    destruct (exec (run_element' Ta ambient_CO2 RH Ur inp id0 e0) st)
      as [st1 [[]|err]] eqn:H1; [ | discriminate].
    apply elem_of_cons in Hin as [[= <- <-]|Hin].
    + destruct (run_element_bypass_inv _ _ _ _ _ _ _ _ _ HMS Hh H1)
        as (axis & Ts & width & Hax & HTs & Hw & ->).
      exists axis, Ts, width. repeat (split; [assumption | ]).
      destruct (footprint_for_elements Ta ambient_CO2 RH Ur inp items
                  (State (<[id := make_outputs (Some 0) (Some 0) (Some 0) (Some 0) Ts
                                   (Some 0) width None]> (outputs st)) (solved st)))
        as [Ho Hs].
      rewrite Hrun in Ho, Hs. cbn [fst outputs solved] in Ho, Hs. split.
      * rewrite Ho by tauto. apply lookup_insert_eq.
      * intros Hsol. apply Hs in Hsol as [?|[? _]]; [assumption | contradiction].
    + destruct (IH st1 st' Hnd Hin HMS Hh Hrun)
        as (axis & Ts & width & Hax & HTs & Hw & Ho & Hs).
      exists axis, Ts, width. repeat (split; [assumption | ]).
      intros Hsol. apply Hs in Hsol.
      destruct (footprint_run_element Ta ambient_CO2 RH Ur inp id0 e0 st) as [_ Hs0].
      rewrite H1 in Hs0. cbn [fst] in Hs0.
      apply Hs0 in Hsol as [?|[-> _]]; [assumption | ].
      exfalso. apply Hnotin. apply (list_elem_of_fmap_2 fst _ _ Hin).
Qed.






(** An element off the main stem is left with an empty output record and
    without a call of the solver, however the run ends. *)
Lemma run_off_main_stem inp Ta ambient_CO2 RH Ur st id e :
  (id, e) ∈ elements inp → axis_label id ≠ "MS" →
  outputs (exec (run' inp Ta ambient_CO2 RH Ur) st).1 !! id = Some ∅
  ∧ (id ∈ solved (exec (run' inp Ta ambient_CO2 RH Ur) st).1 → id ∈ solved st).
Proof.
  intros Hin HMS. rewrite exec_run.
  destruct (footprint_for_elements Ta ambient_CO2 RH Ur inp (elements inp)
              (exec (reset_outputs (map fst (elements inp))) st).1) as [Ho Hs].
  split.
  - rewrite Ho by tauto. rewrite reset_outputs_lookup.
    rewrite bool_decide_eq_true_2; [reflexivity | ].
    apply (list_elem_of_fmap_2 fst _ _ Hin).
  - intros Hsol. apply Hs in Hsol as [Hsol|[_ ?]]; [exact Hsol | contradiction].
Qed.

Lemma run_bypass inp Ta ambient_CO2 RH Ur st id e :
  NoDup (map fst (elements inp)) → (id, e) ∈ elements inp →
  axis_label id = "MS" → e !! "height" = Some None →
  (exec (run' inp Ta ambient_CO2 RH Ur) st).2 = Ok () →
  ∃ axis Ts width,
    axes inp !! axis_of id = Some axis
    ∧ axis !! "SAM_temperature" = Some Ts
    ∧ e !! "width" = Some width
    ∧ outputs (exec (run' inp Ta ambient_CO2 RH Ur) st).1 !! id
      = Some (make_outputs (Some 0) (Some 0) (Some 0) (Some 0) Ts (Some 0) width None)
    ∧ (id ∈ solved (exec (run' inp Ta ambient_CO2 RH Ur) st).1 → id ∈ solved st).
Proof.
  intros Hnd Hin HMS Hh. rewrite exec_run.
  destruct (exec (for_elements' Ta ambient_CO2 RH Ur inp (elements inp))
              (exec (reset_outputs (map fst (elements inp))) st).1) as [st' r] eqn:Hrun.
  cbn [fst snd]. intros ->.
  exact (for_elements_bypass _ _ _ _ _ _ _ _ _ _ Hnd Hin HMS Hh Hrun).
Qed.

End SimulationFacts.

(** C10.  For an element of the inputs whose axis is not the main stem
    ['MS'], however the run ends: the record that [run] leaves for it in
    [outputs] is the empty one it is reset to, so it holds no output value,
    and [model.run] has not been called for it. *)
Theorem off_main_stem_not_computed
    MODEL_VERSION calculate_surfacic_photosynthetic_proteins
    calculate_surfacic_nonstructural_nitrogen_Farquhar calculate_surfacic_WSC
    calculate_surfacic_nitrogen model_run inp Ta ambient_CO2 RH Ur st id e :
  (id, e) ∈ Simulation.elements inp →
  Footprint.axis_label id ≠ "MS" →
  let st' :=
    (Simulation.exec
       (Simulation.run MODEL_VERSION calculate_surfacic_photosynthetic_proteins
          calculate_surfacic_nonstructural_nitrogen_Farquhar calculate_surfacic_WSC
          calculate_surfacic_nitrogen model_run inp Ta ambient_CO2 RH Ur) st).1 in
  Simulation.outputs st' !! id = Some ∅
  ∧ (∀ name, Simulation.outputs st' !! id ≫= (.!! name) = None)
  ∧ (id ∈ Simulation.solved st' → id ∈ Simulation.solved st).
Proof.
  intros Hin HMS st'.
  destruct (run_off_main_stem MODEL_VERSION calculate_surfacic_photosynthetic_proteins
              calculate_surfacic_nonstructural_nitrogen_Farquhar calculate_surfacic_WSC
              calculate_surfacic_nitrogen model_run inp Ta ambient_CO2 RH Ur st id e Hin HMS)
    as [Ho Hs].
  fold st' in Ho, Hs. split; [exact Ho | ]. split; [ | exact Hs].
  intros name. rewrite Ho. cbn. apply lookup_empty.
Qed.

Lemma off_main_stem_not_computed_witness :
  let inp := Simulation.Inputs
               [(Example.tiller_blade, Example.tiller_blade_inputs);
                (Example.hidden_internode, Example.hidden_internode_inputs)]
               Example.main_stem in
  let st' := (Simulation.exec (Example.run "Barillot2016" inp 20 380 0.6 2)
                Example.empty_state).1 in
  Simulation.outputs st' !! Example.tiller_blade = Some ∅
  ∧ Example.tiller_blade ∉ Simulation.solved st'.
Proof.
  intros inp st'.
  destruct (off_main_stem_not_computed "Barillot2016" Example.unreached2 Example.unreached1
              Example.unreached4 Example.unreached5 Example.unreached_run inp 20 380 0.6 2
              Example.empty_state Example.tiller_blade Example.tiller_blade_inputs)
    as (Ho & _ & Hs).
  - apply list_elem_of_here.
  - discriminate.
  - split; [exact Ho | ]. intros Hin. apply Hs in Hin. cbn in Hin.
    apply elem_of_nil in Hin. exact Hin.
Defined.

(** C8, as stated, fails for the elements off the main stem: a tiller
    blade without height is skipped before its height is looked at, and is
    left with the empty record, where neither [Ag] nor [Ts] is set. *)
Lemma tiller_without_height_gets_no_values :
  let inp := Simulation.Inputs
               [(Example.tiller_blade, Example.small_tiller_blade_inputs)]
               Example.main_stem in
  let end_ := Simulation.exec (Example.run "Barillot2016" inp 20 380 0.6 2)
                Example.empty_state in
  Example.small_tiller_blade_inputs !! "height" = Some None
  ∧ end_.2 = Ok ()
  ∧ Simulation.outputs end_.1 !! Example.tiller_blade = Some ∅
  ∧ Simulation.outputs end_.1 !! Example.tiller_blade ≫= (.!! "Ag") = None
  ∧ Simulation.outputs end_.1 !! Example.tiller_blade ≫= (.!! "Ts") = None.
Proof. repeat split; reflexivity. Qed.

(** C8, amended.  In a run that returns, for every element of the main
    stem ['MS'] whose height is [None] (the element identifiers being
    distinct, as the keys of a dictionary are): the solver has not been
    called for it; [Ag], [An], [Rd], [Tr] and [gs] are [0] in its outputs
    and [Ts] is the [SAM_temperature] of its axis; [width] and [height] are
    copied from its inputs. *)
Theorem main_stem_without_height_bypasses_solver
    MODEL_VERSION calculate_surfacic_photosynthetic_proteins
    calculate_surfacic_nonstructural_nitrogen_Farquhar calculate_surfacic_WSC
    calculate_surfacic_nitrogen model_run inp Ta ambient_CO2 RH Ur st id e :
  let end_ :=
    Simulation.exec
      (Simulation.run MODEL_VERSION calculate_surfacic_photosynthetic_proteins
         calculate_surfacic_nonstructural_nitrogen_Farquhar calculate_surfacic_WSC
         calculate_surfacic_nitrogen model_run inp Ta ambient_CO2 RH Ur) st in
  NoDup (map fst (Simulation.elements inp)) →
  (id, e) ∈ Simulation.elements inp →
  Footprint.axis_label id = "MS" →
  e !! "height" = Some None →
  end_.2 = Ok () →
  ∃ axis SAM_temperature width,
    Simulation.axes inp !! Footprint.axis_of id = Some axis
    ∧ axis !! "SAM_temperature" = Some SAM_temperature
    ∧ e !! "width" = Some width
    ∧ Simulation.outputs end_.1 !! id
      = Some (Simulation.make_outputs (Some 0) (Some 0) (Some 0) (Some 0)
                SAM_temperature (Some 0) width None)
    ∧ (id ∈ Simulation.solved end_.1 → id ∈ Simulation.solved st).
Proof.
  intros end_ Hnd Hin HMS Hh Hok.
  exact (run_bypass MODEL_VERSION calculate_surfacic_photosynthetic_proteins
           calculate_surfacic_nonstructural_nitrogen_Farquhar calculate_surfacic_WSC
           calculate_surfacic_nitrogen model_run inp Ta ambient_CO2 RH Ur st id e
           Hnd Hin HMS Hh Hok).
Qed.

Lemma main_stem_without_height_bypasses_solver_witness :
  let inp := Simulation.Inputs
               [(Example.tiller_blade, Example.tiller_blade_inputs);
                (Example.hidden_internode, Example.hidden_internode_inputs)]
               Example.main_stem in
  let end_ := Simulation.exec (Example.run "Barillot2016" inp 20 380 0.6 2)
                Example.empty_state in
  ∃ axis SAM_temperature width,
    Simulation.axes inp !! Footprint.axis_of Example.hidden_internode = Some axis
    ∧ axis !! "SAM_temperature" = Some SAM_temperature
    ∧ Example.hidden_internode_inputs !! "width" = Some width
    ∧ Simulation.outputs end_.1 !! Example.hidden_internode
      = Some (Simulation.make_outputs (Some 0) (Some 0) (Some 0) (Some 0)
                SAM_temperature (Some 0) width None)
    ∧ (Example.hidden_internode ∈ Simulation.solved end_.1
       → Example.hidden_internode ∈ Simulation.solved Example.empty_state).
Proof.
  intros inp end_.
  apply (main_stem_without_height_bypasses_solver "Barillot2016" Example.unreached2
           Example.unreached1 Example.unreached4 Example.unreached5 Example.unreached_run
           inp 20 380 0.6 2 Example.empty_state Example.hidden_internode
           Example.hidden_internode_inputs).
  - cbn. apply NoDup_cons. split.
    + intros H. apply list_elem_of_singleton in H. discriminate.
    + apply NoDup_singleton.
  - apply list_elem_of_further, list_elem_of_here.
  - reflexivity.
  - reflexivity.
  - reflexivity.
Defined.




(** * Further properties of the model and of the simulation *)

Section Temperature.
Import Model Closed.

Lemma activation_at_reference p : activation p 25 = 1.
Proof.
  unfold activation.
  replace (25 + KELVIN_DEGREE - Tref) with 0 by (unfold KELVIN_DEGREE, Tref; lra).
  rewrite Rmult_0_r. unfold Rdiv. rewrite Rmult_0_l. apply exp_0.
Qed.

Lemma deactivation_at_reference p : deactivation p 25 = 1.
Proof.
  unfold deactivation.
  destruct (deltaS p) as [dS|], (deltaHd p) as [dHd|]; try reflexivity.
  replace (25 + KELVIN_DEGREE) with Tref by (unfold KELVIN_DEGREE, Tref; lra).
  unfold Rdiv at 1. apply Rinv_r. apply one_plus_exp_nonzero.
Qed.

Lemma deltaHa_pos p : 0 < deltaHa p.
Proof. destruct p; cbn; lra. Qed.

Lemma deactivation_kinetic p T : is_capacity p = false → deactivation p T = 1.
Proof. destruct p; cbn; intros H; try discriminate; reflexivity. Qed.

(** The Arrhenius factor grows with the temperature above the absolute
    zero. *)
Lemma activation_increasing p T1 T2 :
  0 < T1 + KELVIN_DEGREE → T1 < T2 → activation p T1 < activation p T2.
Proof.
  intros H1 H12. unfold activation. apply exp_increasing.
  pose proof (deltaHa_pos p) as Hd.
  set (k1 := T1 + KELVIN_DEGREE) in *. set (k2 := T2 + KELVIN_DEGREE).
  assert (H2 : 0 < k2) by (unfold k2, k1 in *; lra).
  assert (Hk : k1 < k2) by (unfold k2, k1; lra).
  assert (Hc : 0 < R_gas * 1E-3 * Tref) by (unfold R_gas, Tref; lra).
  assert (Hinv : / k2 < / k1) by (apply Rinv_lt_contravar; [apply Rmult_lt_0_compat | ]; assumption).
  assert (E : ∀ k, 0 < k →
            deltaHa p * (k - Tref) / (R_gas * 1E-3 * Tref * k)
            = deltaHa p / (R_gas * 1E-3 * Tref) * (1 - Tref * / k)).
  { intros k Hk0. field. split; [lra | ]. unfold R_gas, Tref. lra. }
  rewrite (E k1 H1), (E k2 H2).
  apply Rmult_lt_compat_l; [apply Rdiv_lt_0_compat; assumption | ].
  assert (0 < Tref) by (unfold Tref; lra).
  assert (Tref * / k2 < Tref * / k1) by (apply Rmult_lt_compat_l; assumption).
  lra.
Qed.

End Temperature.

(** X1.  At 25 degrees Celsius, the reference temperature, [_f_temperature]
    returns [p25] as it is, for every parameter: the activation and the
    deactivation factors are both 1 there. *)
Theorem f_temperature_at_reference p p25 :
  Model._f_temperature p p25 25 = Ok p25.
Proof.
  rewrite f_temperature_ok by (unfold Model.KELVIN_DEGREE; lra).
  rewrite activation_at_reference, deactivation_at_reference. f_equal. lra.
Qed.



(** X3.  For a parameter that has no deactivation term (any name but
    ['Vc_max'], ['Jmax'] and ['TPU']) and a positive [p25], the value of
    [_f_temperature] grows strictly with the temperature, above absolute
    zero. *)
Theorem kinetic_parameters_increase_with_temperature p p25 T1 T2 :
  Model.is_capacity p = false →
  0 < p25 → 0 < T1 + Model.KELVIN_DEGREE → T1 < T2 →
  ∃ v1 v2,
    Model._f_temperature p p25 T1 = Ok v1
    ∧ Model._f_temperature p p25 T2 = Ok v2
    ∧ v1 < v2.
Proof.
  intros Hp Hp25 H1 H12.
  exists (p25 * Closed.activation p T1 * Closed.deactivation p T1),
         (p25 * Closed.activation p T2 * Closed.deactivation p T2).
  split; [apply f_temperature_ok; lra | ].
  split; [apply f_temperature_ok; lra | ].
  rewrite !deactivation_kinetic by assumption. rewrite !Rmult_1_r.
  apply Rmult_lt_compat_l; [assumption | ].
  apply activation_increasing; assumption.
Qed.

Lemma kinetic_parameters_increase_with_temperature_witness :
  ∃ v1 v2,
    Model._f_temperature Model.p_Gamma Model.GAMMA25 10 = Ok v1
    ∧ Model._f_temperature Model.p_Gamma Model.GAMMA25 30 = Ok v2
    ∧ v1 < v2.
Proof.
  apply (kinetic_parameters_increase_with_temperature Model.p_Gamma Model.GAMMA25 10 30).
  - reflexivity.
  - unfold Model.GAMMA25. lra.
  - unfold Model.KELVIN_DEGREE. lra.
  - lra.
Defined.

Section Light.
Import Model Closed.

Lemma ln_half_neg : ln 0.5 < 0.
Proof. rewrite <- ln_1. apply ln_increasing; lra. Qed.

(** [0.5 ** x] for a non-negative [x] lies in (0, 1]. *)
Lemma half_power_bounds x : 0 <= x → 0 < Rpower 0.5 x <= 1.
Proof.
  intros Hx. split; [apply Rpower_pos | ].
  unfold Rpower. destruct Hx as [Hx| <-].
  - left. rewrite <- exp_0. apply exp_increasing.
    pose proof ln_half_neg. nra.
  - rewrite Rmult_0_l, exp_0. lra.
Qed.

Lemma respiration_ok PAR N Ts :
  Ts + KELVIN_DEGREE ≠ 0 →
  respiration PAR N Ts
  = Ok (S_surfacic_nitrogen_Rdark25 * (N - surfacic_nitrogen_min_Rdark25)
        * activation p_Rdark Ts * deactivation p_Rdark Ts
        * (0.33 + (1 - 0.33) * Rpower 0.5 (PAR / 15))).
Proof.
  intros HT. unfold respiration.
  rewrite f_temperature_ok by assumption. rewrite rbind_Ok.
  step_by ltac:(lra).
  step_by ltac:(lra).
  reflexivity.
Qed.

Lemma respiration_inv PAR N Ts Rd :
  respiration PAR N Ts = Ok Rd → Ts + KELVIN_DEGREE ≠ 0.
Proof.
  unfold respiration. intros H.
  apply rbind_inv in H as (v & Hv & _). apply f_temperature_inv in Hv as [HT _]. exact HT.
Qed.




End Light.

(** X4.  Light inhibits respiration by two thirds at most.  For a light
    [PAR >= 0] and a nitrogen content [N >= 0], the respiration [Rd] of
    [calculate_photosynthesis] lies between 0.33 times the dark respiration
    [Rdark] at the organ temperature and [Rdark] itself, which is not
    negative; in the dark [Rd] is [Rdark]. *)
Theorem respiration_light_inhibition PAR N Ts Ci Ag An Rd :
  Model.calculate_photosynthesis PAR N Ts Ci = Ok (Ag, An, Rd) →
  0 <= PAR → 0 <= N →
  ∃ Rdark,
    Model._f_temperature Model.p_Rdark
      (Model.S_surfacic_nitrogen_Rdark25 * (N - Model.surfacic_nitrogen_min_Rdark25)) Ts
    = Ok Rdark
    ∧ 0 <= Rdark
    ∧ 0.33 * Rdark <= Rd <= Rdark
    ∧ (PAR = 0 → Rd = Rdark).
Proof.
  intros Hph HP HN.
  apply calculate_photosynthesis_inv in Hph as (r & _ & H & _).
  pose proof (respiration_inv _ _ _ _ H) as HT.
  rewrite respiration_ok in H by assumption. injection H as <-.
  eexists. split; [apply f_temperature_ok; assumption | ].
  set (Rdark := Model.S_surfacic_nitrogen_Rdark25 * (N - Model.surfacic_nitrogen_min_Rdark25)
                * Closed.activation Model.p_Rdark Ts * Closed.deactivation Model.p_Rdark Ts).
  assert (HR : 0 <= Rdark).
  { unfold Rdark, Model.S_surfacic_nitrogen_Rdark25, Model.surfacic_nitrogen_min_Rdark25.
    pose proof (activation_pos Model.p_Rdark Ts). pose proof (deactivation_pos Model.p_Rdark Ts).
    apply Rmult_le_pos; [apply Rmult_le_pos | ]; lra. }
  destruct (half_power_bounds (PAR / 15)) as [Hlo Hhi].
  { unfold Rdiv. apply Rmult_le_pos; lra. }
  split; [exact HR | ]. split; [split; nra | ].
  intros ->. replace (0 / 15) with 0 by (unfold Rdiv; ring).
  rewrite Rpower_O by lra. lra.
Qed.

Lemma respiration_light_inhibition_witness :
  ∃ Ag An Rd Rdark,
    Model.calculate_photosynthesis 500 2 20 266 = Ok (Ag, An, Rd)
    ∧ 0 <= Rdark ∧ 0.33 * Rdark <= Rd <= Rdark.
Proof.
  destruct (calculate_photosynthesis_defined 500 2 20 266) as (Ag & An & Rd & H);
    [lra | unfold Model.KELVIN_DEGREE; lra | ].
  destruct (respiration_light_inhibition 500 2 20 266 Ag An Rd H)
    as (Rdark & _ & H0 & Hb & _); [lra | lra | ].
  exists Ag, An, Rd, Rdark. auto.
Defined.





Section Exchange.
Import Model Closed.

Lemma fpow_zero_negative y : y < 0 → fpow 0 y = Raise ZeroDivisionError.
Proof.
  intros Hy. unfold fpow.
  destruct (Rlt_dec 0 0) as [H|_]; [lra | ].
  destruct (Req_dec_T 0 0) as [_|H]; [ | contradiction].
  destruct (Rlt_dec y 0) as [_|H]; [reflexivity | contradiction].
Qed.

Lemma fpow_negative_base x y : x < 0 → fpow x y = Raise ValueError.
Proof.
  intros Hx. unfold fpow.
  destruct (Rlt_dec 0 x) as [H|_]; [lra | ].
  destruct (Req_dec_T x 0) as [H|_]; [lra | reflexivity].
Qed.

End Exchange.

(** X7.  The outcome of [_stomatal_conductance].  A nitrogen content of
    zero raises [ZeroDivisionError] (zero to the power [delta2 < 0]), a
    negative one [ValueError].  With a positive nitrogen content, it raises
    [ZeroDivisionError] when the CO2 at the organ surface
    [Cs = ambient_CO2 - An * (1.37/GB)] is zero, and returns otherwise; what
    it returns is [GSMIN] when [Ag * RH = 0]. *)
Theorem stomatal_conductance_outcome Ag An N ambient_CO2 RH :
  let Cs := ambient_CO2 - An * (1.37 / Model.GB) in
  (N = 0 → Model._stomatal_conductance Ag An N ambient_CO2 RH = Raise ZeroDivisionError)
  ∧ (N < 0 → Model._stomatal_conductance Ag An N ambient_CO2 RH = Raise ValueError)
  ∧ (0 < N → Cs = 0 →
     Model._stomatal_conductance Ag An N ambient_CO2 RH = Raise ZeroDivisionError)
  ∧ (0 < N → Cs ≠ 0 →
     ∃ gsw, Model._stomatal_conductance Ag An N ambient_CO2 RH = Ok gsw
            ∧ (Ag * RH = 0 → gsw = Model.GSMIN)).
Proof.
  intros Cs. unfold Model._stomatal_conductance.
  rewrite fdiv_ok by (unfold Model.GB; lra). rewrite rbind_Ok. fold Cs.
  split; [ | split; [ | split]].
  - intros ->. rewrite fpow_zero_negative by (unfold Model.delta2; lra). reflexivity.
  - intros HN. rewrite fpow_negative_base by assumption. reflexivity.
  - intros HN HCs. rewrite fpow_ok by assumption. rewrite rbind_Ok.
    rewrite HCs, fdiv_zero. reflexivity.
  - intros HN HCs. rewrite fpow_ok by assumption. rewrite rbind_Ok.
    rewrite (fdiv_ok _ Cs) by assumption. rewrite rbind_Ok.
    eexists. split; [reflexivity | ].
    intros ->. unfold Rdiv. ring.
Qed.

Lemma stomatal_conductance_outcome_witness :
  Model._stomatal_conductance 10 8 0 380 0.6 = Raise ZeroDivisionError
  ∧ ∃ gsw, Model._stomatal_conductance 0 0 2 380 0.6 = Ok gsw ∧ gsw = Model.GSMIN.
Proof.
  split.
  - apply (proj1 (stomatal_conductance_outcome 10 8 0 380 0.6)). reflexivity.
  - destruct (proj2 (proj2 (proj2 (stomatal_conductance_outcome 0 0 2 380 0.6))))
      as (gsw & H & Hg); [lra | unfold Model.GB; lra | ].
    exists gsw. split; [exact H | apply Hg; lra].
Defined.

(** X8.  [_calculate_Ci] raises [ZeroDivisionError] for a stomatal
    conductance of zero and returns for any other.  Without net assimilation
    the internal CO2 is the ambient CO2; with a positive conductance it is
    below the ambient CO2 exactly when the net assimilation is positive. *)
Theorem calculate_Ci_outcome ambient_CO2 An gsw :
  (gsw = 0 → Model._calculate_Ci ambient_CO2 An gsw = Raise ZeroDivisionError)
  ∧ (gsw ≠ 0 →
     ∃ Ci, Model._calculate_Ci ambient_CO2 An gsw = Ok Ci
           ∧ (An = 0 → Ci = ambient_CO2)
           ∧ (0 < gsw → (0 < An ↔ Ci < ambient_CO2))).
Proof.
  unfold Model._calculate_Ci. split.
  - intros ->. rewrite fdiv_zero. reflexivity.
  - intros Hg. rewrite (fdiv_ok 1.6 gsw) by assumption. rewrite rbind_Ok.
    rewrite (fdiv_ok 1.37 Model.GB) by (unfold Model.GB; lra). rewrite rbind_Ok.
    eexists. split; [reflexivity | ]. split.
    + intros ->. ring.
    + intros Hpos.
      assert (Hr : 0 < 1.6 / gsw + 1.37 / Model.GB).
      { assert (0 < 1.6 / gsw) by (apply Rdiv_lt_0_compat; lra).
        assert (0 < 1.37 / Model.GB) by (apply Rdiv_lt_0_compat; unfold Model.GB; lra).
        lra. }
      split; intros H; nra.
Qed.

Lemma calculate_Ci_outcome_witness :
  Model._calculate_Ci 380 10 0 = Raise ZeroDivisionError
  ∧ ∃ Ci, Model._calculate_Ci 380 10 0.3 = Ok Ci ∧ Ci < 380.
Proof.
  split.
  - apply (proj1 (calculate_Ci_outcome 380 10 0)). reflexivity.
  - destruct (proj2 (calculate_Ci_outcome 380 10 0.3)) as (Ci & H & _ & Hlt); [lra | ].
    exists Ci. split; [exact H | apply Hlt; lra].
Defined.

Section EnergyBalance.
Import Model Closed.

Lemma fsqrt_negative x : x < 0 → fsqrt x = Raise ValueError.
Proof. intros Hx. unfold fsqrt. destruct (Rle_dec 0 x); [lra | reflexivity]. Qed.

Lemma flog_nonpos x : x <= 0 → flog x = Raise ValueError.
Proof. intros Hx. unfold flog. destruct (Rlt_dec 0 x); [lra | reflexivity]. Qed.

Lemma div_neg_pos a b : a < 0 → 0 < b → a / b < 0.
Proof.
  intros Ha Hb. assert (0 < (- a) / b) by (apply Rdiv_lt_0_compat; lra).
  unfold Rdiv in *. lra.
Qed.

Lemma div_pos_neg a b : 0 < a → b < 0 → a / b < 0.
Proof.
  intros Ha Hb. assert (0 < a / (- b)) by (apply Rdiv_lt_0_compat; lra).
  replace (a / b) with (- (a / - b)) by (field; lra). lra.
Qed.

Lemma div_nonneg a b : 0 <= a → 0 < b → 0 <= a / b.
Proof. intros Ha Hb. unfold Rdiv. apply Rle_mult_inv_pos; assumption. Qed.

Lemma div_lt_one a b : 0 < b → a < b → a / b < 1.
Proof.
  intros Hb Hab. apply Rmult_lt_reg_r with b; [assumption | ].
  unfold Rdiv. rewrite Rmult_assoc, Rinv_l by lra. lra.
Qed.




(** Above a canopy between 2.5 m and 20/7 m the logarithmic wind profile
    gives a negative wind at organ height. *)
Lemma wind_at_organ_tall z Zh Ur :
  2.5 < Zh → 7 * Zh < 20 →
  ∃ u, u < 0 ∧ wind_at_organ z Zh Ur = Ok (0.7 * Zh, 0.1 * Zh, clamp_wind Ur, u).
Proof.
  intros HZ0 HZ1. unfold wind_at_organ, ZR, K.
  pose proof (clamp_wind_pos Ur) as HU.
  assert (Ha0 : 0 < (2 - 0.7 * Zh) / (0.1 * Zh)) by (apply Rdiv_lt_0_compat; lra).
  assert (Ha1 : (2 - 0.7 * Zh) / (0.1 * Zh) < 1) by (apply div_lt_one; lra).
  assert (Ha : ln ((2 - 0.7 * Zh) / (0.1 * Zh)) < 0).
  { rewrite <- ln_1. apply ln_increasing; lra. }
  assert (Hb : 0 < ln ((Zh - 0.7 * Zh) / (0.1 * Zh))) by (apply ln_pos, one_lt_div; lra).
  eexists. split; [ | ].
  2:{ step_by ltac:(lra).
      step_by ltac:(lra).
      step_by ltac:(lra).
      step_by ltac:(lra).
      step_by ltac:(lra).
      step_by ltac:(apply Rdiv_lt_0_compat; lra).
      step_by ltac:(lra).
      reflexivity. }
  cbv beta.
  assert (Hus : clamp_wind Ur * 0.40 / ln ((2 - 0.7 * Zh) / (0.1 * Zh)) / 0.40 < 0).
  { apply div_neg_pos; [ | lra]. apply div_pos_neg; [ | assumption].
    apply Rmult_lt_0_compat; lra. }
  pose proof (exp_pos (A * (z / Zh - 1))) as He.
  set (us := clamp_wind Ur * 0.40 / ln ((2 - 0.7 * Zh) / (0.1 * Zh)) / 0.40) in *.
  set (lb := ln ((Zh - 0.7 * Zh) / (0.1 * Zh))) in *.
  set (e := exp (A * (z / Zh - 1))) in *.
  assert (0 < (- us) * lb * e) by (repeat apply Rmult_lt_0_compat; lra).
  lra.
Qed.

Lemma boundary_layer_resistance_negative_wind organ_name w u :
  0 < w → u < 0 → boundary_layer_resistance organ_name w u = Raise ValueError.
Proof.
  intros Hw Hu. unfold boundary_layer_resistance.
  destruct (String.eqb organ_name "blade").
  - rewrite fdiv_ok by lra. rewrite rbind_Ok.
    rewrite fsqrt_negative by (apply div_pos_neg; assumption). reflexivity.
  - rewrite fdiv_ok by lra. rewrite rbind_Ok.
    unfold fpow.
    assert (u * w / 1.5E-5 < 0) by (apply div_neg_pos; [nra | lra]).
    destruct (Rlt_dec 0 (u * w / 1.5E-5)) as [?|_]; [lra | ].
    destruct (Req_dec_T (u * w / 1.5E-5) 0) as [?|_]; [lra | ]. reflexivity.
Qed.

(** Outside a canopy height between 0 and 2.5 m the wind profile, or the
    boundary layer resistance computed from it, has no value. *)
Lemma organ_temperature_out_of_canopy w z Zh Ur PAR gsw Ta Ts RH organ_name :
  0 < w →
  (Zh = 0 ∨ Zh = 2.5 →
   _organ_temperature w z Zh Ur PAR gsw Ta Ts RH organ_name = Raise ZeroDivisionError)
  ∧ (Zh < 0 ∨ 2.5 < Zh →
     _organ_temperature w z Zh Ur PAR gsw Ta Ts RH organ_name = Raise ValueError).
Proof.
  intros Hw. unfold _organ_temperature. split.
  - intros [->| ->]; unfold wind_at_organ, ZR.
    + replace (0.1 * 0) with 0 by ring. rewrite (fdiv_zero (2 - 0.7 * 0)). reflexivity.
    + rewrite (fdiv_ok (2 - 0.7 * 2.5)) by lra. rewrite rbind_Ok.
      replace ((2 - 0.7 * 2.5) / (0.1 * 2.5)) with 1 by lra.
      rewrite (flog_ok 1) by lra. rewrite rbind_Ok. rewrite ln_1, (fdiv_zero (clamp_wind Ur * K)). reflexivity.
  - intros [HZ|HZ].
    + unfold wind_at_organ, ZR.
      rewrite (fdiv_ok (2 - 0.7 * Zh)) by lra. rewrite rbind_Ok.
      rewrite (flog_nonpos ((2 - 0.7 * Zh) / (0.1 * Zh))); [reflexivity | ].
      apply Rlt_le, div_pos_neg; lra.
    + destruct (Rlt_dec (7 * Zh) 20) as [Hlt|Hge].
      * destruct (wind_at_organ_tall z Zh Ur HZ Hlt) as (u & Hu & ->).
        rewrite rbind_Ok. cbv beta iota.
        rewrite boundary_layer_resistance_negative_wind by assumption. reflexivity.
      * unfold wind_at_organ, ZR.
        rewrite (fdiv_ok (2 - 0.7 * Zh)) by lra. rewrite rbind_Ok.
        rewrite (flog_nonpos ((2 - 0.7 * Zh) / (0.1 * Zh))); [reflexivity | ].
        assert (0 <= (0.7 * Zh - 2) / (0.1 * Zh)) by (apply div_nonneg; lra).
        replace ((2 - 0.7 * Zh) / (0.1 * Zh)) with (- ((0.7 * Zh - 2) / (0.1 * Zh)))
          by (field; lra).
        lra.
Qed.

End EnergyBalance.



(** X10.  The canopy height has to lie strictly between 0 and 2.5 m.
    For a positive organ width, [_organ_temperature] raises
    [ZeroDivisionError] for a canopy height [Zh] of 0 (the roughness length
    is zero) or of 2.5 m (the logarithm of [(ZR - d)/Zo] is zero), and
    [ValueError] for a negative one and for one above 2.5 m (a logarithm, a
    square root or a fractional power of a negative number), whatever the
    other arguments. *)
Theorem organ_temperature_canopy_bounds w z Zh Ur PAR gsw Ta Ts RH organ_name :
  0 < w →
  (Zh = 0 ∨ Zh = 2.5 →
   Model._organ_temperature w z Zh Ur PAR gsw Ta Ts RH organ_name = Raise ZeroDivisionError)
  ∧ (Zh < 0 ∨ 2.5 < Zh →
     Model._organ_temperature w z Zh Ur PAR gsw Ta Ts RH organ_name = Raise ValueError).
Proof. apply organ_temperature_out_of_canopy. Qed.

Lemma organ_temperature_canopy_bounds_witness :
  Model._organ_temperature 0.01 0.5 0 3 500 0.3 20 22 0.6 "blade" = Raise ZeroDivisionError
  ∧ Model._organ_temperature 0.01 0.5 2.6 3 500 0.3 20 22 0.6 "internode" = Raise ValueError.
Proof.
  split.
  - apply (proj1 (organ_temperature_canopy_bounds 0.01 0.5 0 3 500 0.3 20 22 0.6 "blade"
                    ltac:(lra))). left. reflexivity.
  - apply (proj2 (organ_temperature_canopy_bounds 0.01 0.5 2.6 3 500 0.3 20 22 0.6 "internode"
                    ltac:(lra))). right. lra.
Defined.

Section RunOutcome.
Import Model Closed.

Lemma printed_bind {T U : Type} (m : io T) (k : T → io U) :
  printed (x ← m; k x) =
  match outcome m with Ok v => printed m ++ printed (k v) | Raise _ => printed m end.
Proof. unfold mbind, io_bind. destruct (outcome m); reflexivity. Qed.


(** What the four calls of a pass returned when the pass returned. *)
Lemma iteration_inv N width height PAR Ta ambient_CO2 RH Ur organ_name height_canopy Ci Ts it :
  iteration N width height PAR Ta ambient_CO2 RH Ur organ_name height_canopy Ci Ts = Ok it →
  calculate_photosynthesis PAR N Ts Ci = Ok (it_Ag it, it_An it, it_Rd it)
  ∧ _stomatal_conductance (it_Ag it) (it_An it) N ambient_CO2 RH = Ok (it_gsw it)
  ∧ _calculate_Ci ambient_CO2 (it_An it) (it_gsw it) = Ok (it_Ci it)
  ∧ _organ_temperature width height height_canopy Ur PAR (it_gsw it) Ta Ts RH organ_name
    = Ok (it_Ts it, it_Tr it).
Proof.
  unfold iteration. intros H.
  apply rbind_inv in H as ([[Ag An] Rd] & H1 & H).
  apply rbind_inv in H as (gsw & H2 & H).
  apply rbind_inv in H as (Ci' & H3 & H).
  apply rbind_inv in H as ([Ts' Tr] & H4 & H).
  injection H as <-. cbn. auto.
Qed.

(** The values of the last pass come out of a pass. *)
Lemma nth_pass_last n N width height PAR Ta ambient_CO2 RH Ur organ_name height_canopy :
  ∀ Ci Ts it,
    nth_pass n N width height PAR Ta ambient_CO2 RH Ur organ_name height_canopy Ci Ts = Ok it →
    ∃ Ci' Ts',
      iteration N width height PAR Ta ambient_CO2 RH Ur organ_name height_canopy Ci' Ts'
      = Ok it.
Proof.
  induction n as [|n IH]; intros Ci Ts it H; cbn [nth_pass] in H.
  - eauto.
  - apply rbind_inv in H as (it0 & _ & H). eapply IH, H.
Qed.

Lemma organ_temperature_inv w z Zh Ur PAR gsw Ta Ts RH organ_name Ts' Tr :
  _organ_temperature w z Zh Ur PAR gsw Ta Ts RH organ_name = Ok (Ts', Tr) → 0 <= Tr.
Proof.
  unfold _organ_temperature. intros H.
  apply rbind_inv in H as ([[[d Zo] Ur'] u] & _ & H).
  do 4 (apply rbind_inv in H as (? & _ & H)).
  apply rbind_inv in H as (s & _ & H).
  do 5 (apply rbind_inv in H as (? & _ & H)).
  apply rbind_inv in H as (h & _ & H).
  injection H as _ <-. apply Rmax_l.
Qed.

Lemma stomatal_conductance_closed N An ambient_CO2 RH gsw :
  _stomatal_conductance 0 An N ambient_CO2 RH = Ok gsw → gsw = GSMIN.
Proof.
  unfold _stomatal_conductance. intros H.
  apply rbind_inv in H as (c & _ & H).
  apply rbind_inv in H as (p & _ & H).
  apply rbind_inv in H as (q & Hq & H).
  apply fdiv_inv in Hq as [_ ->].
  injection H as <-. unfold Rdiv. ring.
Qed.

(** Organs other than a blade are told apart by nothing. *)
Lemma boundary_layer_resistance_stem o1 o2 w u :
  o1 ≠ "blade" → o2 ≠ "blade" →
  boundary_layer_resistance o1 w u = boundary_layer_resistance o2 w u.
Proof.
  intros H1 H2. unfold boundary_layer_resistance.
  apply String.eqb_neq in H1, H2. rewrite H1, H2. reflexivity.
Qed.

Lemma iteration_stem o1 o2 N width height PAR Ta ambient_CO2 RH Ur height_canopy Ci Ts :
  o1 ≠ "blade" → o2 ≠ "blade" →
  iteration N width height PAR Ta ambient_CO2 RH Ur o1 height_canopy Ci Ts
  = iteration N width height PAR Ta ambient_CO2 RH Ur o2 height_canopy Ci Ts.
Proof.
  intros H1 H2. unfold iteration, _organ_temperature.
  destruct (calculate_photosynthesis PAR N Ts Ci) as [[[Ag An] Rd]|e]; [ | reflexivity].
  rewrite !rbind_Ok.
  destruct (_stomatal_conductance Ag An N ambient_CO2 RH) as [gsw|e]; [ | reflexivity].
  rewrite !rbind_Ok.
  destruct (_calculate_Ci ambient_CO2 An gsw) as [Ci'|e]; [ | reflexivity].
  rewrite !rbind_Ok.
  destruct (wind_at_organ height height_canopy Ur) as [[[[d Zo] Ur'] u]|e]; [ | reflexivity].
  rewrite !rbind_Ok.
  rewrite (boundary_layer_resistance_stem o1 o2 width u H1 H2). reflexivity.
Qed.

(** The organ name reaches the exit test for the printed lines only. *)
Lemma loop_exit_outcome_organ o1 o2 count prec_Ci prec_Ts Ci Ts :
  outcome (loop_exit o1 count prec_Ci prec_Ts Ci Ts)
  = outcome (loop_exit o2 count prec_Ci prec_Ts Ci Ts).
Proof.
  unfold loop_exit.
  destruct (MAX_COUNT <=? count)%nat.
  - destruct (fdiv (Ci - prec_Ci) prec_Ci) as [r|e]; [ | reflexivity].
    rewrite !io_bind_lift_Ok, !outcome_bind.
    destruct (bool_decide (DELTA_CONVERGENCE <= Rabs r)); cbn.
    all: destruct (bool_decide (prec_Ts = 0)); cbn; try reflexivity.
    all: destruct (fdiv (Ts - prec_Ts) prec_Ts) as [r'|e']; cbn; try reflexivity.
    all: destruct (bool_decide (DELTA_CONVERGENCE <= Rabs r')); cbn; reflexivity.
  - reflexivity.
Qed.

Lemma while_true_outcome_stem o1 o2 N width height PAR Ta ambient_CO2 RH Ur height_canopy fuel :
  o1 ≠ "blade" → o2 ≠ "blade" →
  ∀ Ci Ts count,
    outcome (while_true fuel N width height PAR Ta ambient_CO2 RH Ur o1 height_canopy
               Ci Ts count)
    = outcome (while_true fuel N width height PAR Ta ambient_CO2 RH Ur o2 height_canopy
                 Ci Ts count).
Proof.
  intros H1 H2. induction fuel as [|fuel IH]; intros Ci Ts count; [reflexivity | ].
  rewrite !while_true_S. rewrite (iteration_stem o1 o2) by assumption.
  destruct (iteration N width height PAR Ta ambient_CO2 RH Ur o2 height_canopy Ci Ts)
    as [it|e]; [ | reflexivity].
  rewrite !io_bind_lift_Ok, !outcome_bind.
  rewrite (loop_exit_outcome_organ o1 o2).
  destruct (outcome (loop_exit o2 (S count) Ci Ts (it_Ci it) (it_Ts it))) as [[|]|e];
    [reflexivity | apply IH | reflexivity].
Qed.

(** The loop prints at the cap only, at most two lines, and then breaks. *)
Lemma while_true_printed N width height PAR Ta ambient_CO2 RH Ur organ_name height_canopy fuel :
  ∀ Ci Ts count, (count + fuel = MAX_COUNT)%nat →
    let m := while_true fuel N width height PAR Ta ambient_CO2 RH Ur organ_name
               height_canopy Ci Ts count in
    printed m ≠ [] →
    (length (printed m) ≤ 2)%nat ∧ ∃ it, outcome m = Ok (Some (it, MAX_COUNT)).
Proof.
  induction fuel as [|fuel IH]; intros Ci Ts count Hc; [intros m H; contradiction | ].
  cbv zeta. rewrite while_true_S.
  destruct (iteration N width height PAR Ta ambient_CO2 RH Ur organ_name height_canopy Ci Ts)
    as [it|e]; [ | intros H; contradiction].
  rewrite io_bind_lift_Ok.
  destruct (Nat.eq_dec fuel 0%nat) as [->|Hf].
  - assert (Hcap : (MAX_COUNT ≤ S count)%nat) by lia.
    destruct (Req_dec_T Ci 0) as [->|HCi].
    + unfold loop_exit. destruct (Nat.leb_spec MAX_COUNT (S count)) as [_|?]; [ | lia].
      rewrite fdiv_zero, io_bind_lift_Raise. intros H. contradiction.
    + rewrite (loop_exit_at_cap organ_name (S count) Ci Ts (it_Ci it) (it_Ts it) Hcap HCi).
      rewrite printed_bind, outcome_bind. cbn [outcome printed mret io_ret].
      rewrite app_nil_r. intros _. split.
      * destruct (bool_decide _); destruct (bool_decide _); cbn; lia.
      * exists it. do 3 f_equal. lia.
  - assert (Hlt : (S count < MAX_COUNT)%nat) by lia.
    destruct (loop_exit_below_cap organ_name (S count) Ci Ts (it_Ci it) (it_Ts it) Hlt)
      as [Hp _].
    rewrite printed_bind, outcome_bind, Hp.
    destruct (outcome (loop_exit organ_name (S count) Ci Ts (it_Ci it) (it_Ts it)))
      as [[|]|e]; cbn [app printed mret io_ret]; [intros H; contradiction | | intros H; contradiction].
    apply IH. lia.
Qed.

(** One pass in the dark, with the respiration it returns named. *)
Lemma iteration_dark_respiration
    N width height Ta ambient_CO2 Ur organ_name height_canopy Ci Rd :
  0 < N → 0 < width → 0 < height_canopy < 2.5 → -239 < Ta → ambient_CO2 ≠ 0 → 0 < Ci →
  respiration 0 N Ta = Ok Rd →
  iteration N width height 0 Ta ambient_CO2 1 Ur organ_name height_canopy Ci Ta
  = Ok (Iterate 0 0 Rd GSMIN ambient_CO2 Ta 0).
Proof.
  intros HN Hw HZ HTa HC HCi HRd.
  destruct (iteration_dark N width height Ta ambient_CO2 Ur organ_name height_canopy Ci
              HN Hw HZ HTa HC HCi) as (Rd0 & H).
  rewrite H. pose proof (iteration_inv _ _ _ _ _ _ _ _ _ _ _ _ _ H) as (Hc & _).
  cbn [it_Ag it_An it_Rd] in Hc.
  apply calculate_photosynthesis_inv in Hc as (r & _ & HR & _).
  rewrite HRd in HR. injection HR as <-. reflexivity.
Qed.

Lemma nth_pass_dark N width height Ta ambient_CO2 Ur organ_name height_canopy Rd n :
  0 < N → 0 < width → 0 < height_canopy < 2.5 → -239 < Ta → 0 < ambient_CO2 →
  respiration 0 N Ta = Ok Rd →
  ∀ Ci, 0 < Ci →
    nth_pass n N width height 0 Ta ambient_CO2 1 Ur organ_name height_canopy Ci Ta
    = Ok (Iterate 0 0 Rd GSMIN ambient_CO2 Ta 0).
Proof.
  intros HN Hw HZ HTa HC HRd.
  induction n as [|n IH]; intros Ci HCi; cbn [nth_pass];
    rewrite (iteration_dark_respiration N width height Ta ambient_CO2 Ur organ_name
               height_canopy Ci Rd) by (assumption || lra).
  - reflexivity.
  - rewrite rbind_Ok. cbn [it_Ci it_Ts]. apply IH. assumption.
Qed.

End RunOutcome.

(** X11.  The organ name tells a blade from anything else, and nothing
    more: for two names that both differ from ['blade'], [run] returns the
    same sextuple or raises the same exception (the name also appears in the
    lines it prints). *)
Theorem non_blade_organs_alike
    o1 o2 Nopt width height PAR Ta ambient_CO2 RH Ur height_canopy :
  o1 ≠ "blade" → o2 ≠ "blade" →
  Model.outcome (Model.run Nopt width height PAR Ta ambient_CO2 RH Ur o1 height_canopy)
  = Model.outcome (Model.run Nopt width height PAR Ta ambient_CO2 RH Ur o2 height_canopy).
Proof.
  intros H1 H2. unfold Model.run. rewrite !outcome_run_fuel.
  rewrite (while_true_outcome_stem o1 o2) by assumption.
  apply String.eqb_neq in H1, H2. rewrite H1, H2. reflexivity.
Qed.

Lemma non_blade_organs_alike_witness :
  Model.outcome (Model.run (Some 2) 0.01 0.5 500 20 380 0.6 3 "sheath" 0.8)
  = Model.outcome (Model.run (Some 2) 0.01 0.5 500 20 380 0.6 3 "internode" 0.8).
Proof.
  apply (non_blade_organs_alike "sheath" "internode"); discriminate.
Defined.


(** X13.  For a positive organ width and a canopy height of at most 0 or
    at least 2.5 m, [run] does not return: it raises, in its first pass. *)
Theorem run_canopy_out_of_range
    Nopt width height PAR Ta ambient_CO2 RH Ur organ_name height_canopy :
  0 < width → height_canopy <= 0 ∨ 2.5 <= height_canopy →
  ∃ e, Model.outcome
         (Model.run Nopt width height PAR Ta ambient_CO2 RH Ur organ_name height_canopy)
       = Raise e.
Proof.
  intros Hw HZ.
  pose proof (run_returns_last_pass Nopt width height PAR Ta ambient_CO2 RH Ur organ_name
                height_canopy) as H.
  destruct (Model.outcome _) as [[out|]|e]; [ | contradiction | eauto].
  exfalso. destruct H as (n & it & _ & Hp & _).
  apply nth_pass_last in Hp as (Ci' & Ts' & Hit).
  apply iteration_inv in Hit as (_ & _ & _ & HT).
  destruct (organ_temperature_out_of_canopy width height height_canopy Ur PAR
              (Model.it_gsw it) Ta Ts' RH organ_name Hw) as [Hz Hv].
  assert (Hcase : (height_canopy = 0 ∨ height_canopy = 2.5)
                  ∨ (height_canopy < 0 ∨ 2.5 < height_canopy)) by lra.
  destruct Hcase as [Hc|Hc]; [rewrite (Hz Hc) in HT | rewrite (Hv Hc) in HT]; discriminate.
Qed.

Lemma run_canopy_out_of_range_witness :
  ∃ e, Model.outcome (Model.run (Some 2) 0.01 0.5 500 20 380 0.6 3 "blade" 3) = Raise e.
Proof.
  apply (run_canopy_out_of_range (Some 2) 0.01 0.5 500 20 380 0.6 3 "blade" 3); [lra | ].
  right. lra.
Defined.

(** X14.  In the dark and in saturated air, [run] returns
    [(0, 0, Rd, 0, Ta, GSMIN)] and prints nothing: no assimilation, no
    transpiration, the organ at air temperature, the stomata at their
    minimal conductance and [Rd] the respiration without light at air
    temperature.  This holds for a positive nitrogen content ([NA_0] for
    [None]), a positive width, a canopy height strictly between 0 and 2.5 m,
    an air temperature above -239 degrees Celsius and a positive ambient
    CO2, for every wind, organ height and organ name. *)
Theorem run_in_the_dark Nopt width height Ta ambient_CO2 Ur organ_name height_canopy :
  0 < default Model.NA_0 Nopt → 0 < width → 0 < height_canopy < 2.5 → -239 < Ta →
  0 < ambient_CO2 →
  ∃ Rd, Model.respiration 0 (default Model.NA_0 Nopt) Ta = Ok Rd
        ∧ Model.run Nopt width height 0 Ta ambient_CO2 1 Ur organ_name height_canopy
          = Model.IO [] (Ok (Some (0, 0, Rd, 0, Ta, Model.GSMIN))).
Proof.
  intros HN Hw HZ HTa HC.
  destruct (respiration_defined 0 (default Model.NA_0 Nopt) Ta) as (Rd & HRd);
    [unfold Model.KELVIN_DEGREE; lra | ].
  exists Rd. split; [exact HRd | ].
  destruct (run_dark Nopt width height Ta ambient_CO2 Ur organ_name height_canopy
              HN Hw HZ HTa HC) as (Rd0 & Hrun).
  pose proof (run_returns_last_pass Nopt width height 0 Ta ambient_CO2 1 Ur organ_name
                height_canopy) as H.
  rewrite Hrun in H. cbn [Model.outcome] in H.
  destruct H as (n & it & _ & Hp & Hc).
  rewrite (nth_pass_dark _ width height Ta ambient_CO2 Ur organ_name height_canopy Rd n
             HN Hw HZ HTa HC HRd) in Hp by lra.
  injection Hp as <-. rewrite conclude_ok in Hc. cbn [Model.it_Rd] in Hc.
  assert (HR : Rd0 = Rd) by congruence. subst Rd0.
  rewrite Hrun. do 3 f_equal.
  assert (E1 : (if negb (String.eqb organ_name "blade")
                then 0 * Model.EFFICENCY_STEM else 0) = 0)
    by (destruct (negb _); lra).
  assert (E2 : 0 * 1E6 / Model.MM_WATER = 0) by (unfold Model.MM_WATER; lra).
  rewrite E1, E2. reflexivity.
Qed.

Lemma run_in_the_dark_witness :
  ∃ Rd, Model.run (Some 2) 0.01 0.5 0 20 380 1 3 "blade" 0.8
        = Model.IO [] (Ok (Some (0, 0, Rd, 0, 20, Model.GSMIN))).
Proof.
  destruct (run_in_the_dark (Some 2) 0.01 0.5 20 380 3 "blade" 0.8) as (Rd & _ & H);
    [cbn; lra | lra | split; lra | lra | lra | ].
  exists Rd. exact H.
Defined.

(** X15.  What [run] returns, whenever it returns: a gross assimilation
    [Ag] and a transpiration [Tr] that are not negative; and with [Ag = 0],
    a net assimilation [An = 0] and the minimal stomatal conductance
    [GSMIN]. *)
Theorem run_returns_nonnegative_fluxes
    Nopt width height PAR Ta ambient_CO2 RH Ur organ_name height_canopy Ag An Rd Tr Ts gs :
  Model.outcome
    (Model.run Nopt width height PAR Ta ambient_CO2 RH Ur organ_name height_canopy)
  = Ok (Some (Ag, An, Rd, Tr, Ts, gs)) →
  0 <= Ag ∧ 0 <= Tr ∧ (Ag = 0 → An = 0 ∧ gs = Model.GSMIN).
Proof.
  intros Hrun.
  pose proof (run_returns_last_pass Nopt width height PAR Ta ambient_CO2 RH Ur organ_name
                height_canopy) as H.
  rewrite Hrun in H. destruct H as (n & it & _ & Hp & Hc).
  apply nth_pass_last in Hp as (Ci' & Ts' & Hit).
  apply iteration_inv in Hit as (Hph & Hgs & _ & HT).
  apply organ_temperature_inv in HT.
  rewrite conclude_ok in Hc. injection Hc as HAg HAn _ HTr _ Hg.
  apply calculate_photosynthesis_inv in Hph as (r & _ & _ & Hsign).
  assert (HAg0 : 0 <= Model.it_Ag it) by (destruct Hsign as [(_ & -> & _)|(? & -> & _)]; lra).
  assert (HAgE : Ag = 0 → Model.it_Ag it = 0).
  { subst Ag. destruct (negb _); unfold Model.EFFICENCY_STEM; lra. }
  split; [ | split].
  - subst Ag. destruct (negb _); unfold Model.EFFICENCY_STEM; nra.
  - subst Tr. unfold Model.MM_WATER. lra.
  - intros H0. apply HAgE in H0. split.
    + subst An. destruct Hsign as [(_ & _ & ->)|(? & HA & _)]; [reflexivity | lra].
    + subst gs. rewrite H0 in Hgs. apply stomatal_conductance_closed in Hgs. exact Hgs.
Qed.

Lemma run_returns_nonnegative_fluxes_witness :
  ∃ Ag An Rd Tr Ts gs,
    Model.outcome (Model.run (Some 2) 0.01 0.5 0 20 380 1 3 "blade" 0.8)
    = Ok (Some (Ag, An, Rd, Tr, Ts, gs))
    ∧ 0 <= Ag ∧ 0 <= Tr ∧ (Ag = 0 → An = 0 ∧ gs = Model.GSMIN).
Proof.
  destruct (run_dark (Some 2) 0.01 0.5 20 380 3 "blade" 0.8) as (Rd & H);
    [cbn; lra | lra | split; lra | lra | lra | ].
  do 6 eexists. split; [rewrite H; reflexivity | ].
  eapply (run_returns_nonnegative_fluxes (Some 2) 0.01 0.5 0 20 380 1 3 "blade" 0.8).
  rewrite H. reflexivity.
Defined.

(** X16.  [run] prints at the cap only.  Either it prints nothing, or it
    prints at most two lines, has made 30 passes and returns the values of
    the 30th.  So a run that raises has printed nothing. *)
Theorem run_prints_at_the_cap_only
    Nopt width height PAR Ta ambient_CO2 RH Ur organ_name height_canopy :
  let r := Model.run Nopt width height PAR Ta ambient_CO2 RH Ur organ_name height_canopy in
  Model.printed r = []
  ∨ ((length (Model.printed r) ≤ 2)%nat
     ∧ ∃ it out,
         Closed.nth_pass 29 (default Model.NA_0 Nopt) width height PAR Ta ambient_CO2
           RH Ur organ_name height_canopy (0.7 * ambient_CO2) Ta = Ok it
         ∧ Model.conclude organ_name it = Ok out
         ∧ Model.outcome r = Ok (Some out)).
Proof.
  cbv zeta. unfold Model.run. rewrite outcome_run_fuel, run_fuel_unfold, printed_bind.
  pose proof (while_true_printed (default Model.NA_0 Nopt) width height PAR Ta ambient_CO2
                RH Ur organ_name height_canopy Model.MAX_COUNT (0.7 * ambient_CO2) Ta 0
                eq_refl) as Hpr.
  pose proof (while_true_result (default Model.NA_0 Nopt) width height PAR Ta ambient_CO2
                RH Ur organ_name height_canopy 29 0 (0.7 * ambient_CO2) Ta eq_refl) as Hres.
  change (S 29) with Model.MAX_COUNT in Hres. cbv zeta in Hpr.
  set (m := Model.while_true Model.MAX_COUNT (default Model.NA_0 Nopt) width height PAR Ta
              ambient_CO2 RH Ur organ_name height_canopy (0.7 * ambient_CO2) Ta 0) in *.
  destruct (Model.printed m) as [|d ds] eqn:Hm.
  - left. destruct (Model.outcome m) as [[[it c]|]|e]; try reflexivity.
    rewrite conclude_ok. reflexivity.
  - right. destruct Hpr as [Hlen (it & Hout)]; [discriminate | ].
    rewrite Hout in Hres |- *. destruct Hres as (n & Hn & Hc & Hp).
    assert (n = 29%nat) by (unfold Model.MAX_COUNT in Hc; lia). subst n.
    rewrite conclude_ok. cbn [Model.printed mret Model.io_ret Model.lift mbind Model.io_bind Model.outcome].
    rewrite !app_nil_r. split; [exact Hlen | ].
    exists it. eexists. split; [exact Hp | ]. split; [apply conclude_ok | reflexivity].
Qed.

(** X17.  When the exit test of the loop raises.  It raises
    [ZeroDivisionError] and nothing else, and it does so exactly when the
    previous [Ci] is zero, or when, below the cap, [Ci] has converged while
    the previous [Ts] is zero and the new [Ts] is not: the relative change of
    [Ts] is then a quotient by zero.  At the cap the test [prec_Ts != 0]
    guards that quotient. *)
Theorem loop_exit_raises organ_name count prec_Ci prec_Ts Ci Ts e :
  Model.outcome (Model.loop_exit organ_name count prec_Ci prec_Ts Ci Ts) = Raise e
  ↔ e = ZeroDivisionError
    ∧ (prec_Ci = 0
       ∨ ((count < Model.MAX_COUNT)%nat
          ∧ Rabs ((Ci - prec_Ci) / prec_Ci) < Model.DELTA_CONVERGENCE
          ∧ prec_Ts = 0 ∧ Ts ≠ 0)).
Proof.
  destruct (Req_dec_T prec_Ci 0) as [->|HCi].
  { unfold Model.loop_exit.
    destruct (Model.MAX_COUNT <=? count)%nat; rewrite fdiv_zero, io_bind_lift_Raise; cbn.
    all: split; [intros [= <-]; auto | intros [-> _]; reflexivity]. }
  destruct (Nat.leb_spec Model.MAX_COUNT count) as [Hcap|Hlt].
  - rewrite (loop_exit_at_cap organ_name count prec_Ci prec_Ts Ci Ts Hcap HCi). cbn.
    split; [discriminate | ]. intros [_ [?|[? _]]]; [contradiction | lia].
  - unfold Model.loop_exit.
    destruct (Nat.leb_spec Model.MAX_COUNT count) as [?|_]; [lia | ].
    rewrite (fdiv_ok (Ci - prec_Ci) prec_Ci) by assumption. rewrite io_bind_lift_Ok.
    destruct (bool_decide_reflect
                (Rabs ((Ci - prec_Ci) / prec_Ci) < Model.DELTA_CONVERGENCE)) as [Hd|Hd].
    2:{ cbn. split; [discriminate | ]. intros [_ [?|(_ & ? & _)]]; contradiction. }
    destruct (bool_decide_reflect (prec_Ts = 0)) as [->|HTs].
    + destruct (bool_decide_reflect (Ts - 0 = 0)) as [HT|HT]; cbn [andb].
      * cbn. split; [discriminate | ]. intros [_ [?|(_ & _ & _ & ?)]]; [contradiction | lra].
      * rewrite fdiv_zero, io_bind_lift_Raise. cbn.
        split; [intros [= <-]; split; [reflexivity | right; repeat split; auto; lra]
               | intros [-> _]; reflexivity].
    + cbn [andb]. rewrite (fdiv_ok (Ts - prec_Ts) prec_Ts) by assumption.
      rewrite io_bind_lift_Ok. cbn.
      split; [discriminate | ]. intros [_ [?|(_ & _ & ? & _)]]; contradiction.
Qed.

(** X18.  The three surfacic contents.  With a green area of zero each
    of [calculate_surfacic_nitrogen],
    [calculate_surfacic_nonstructural_nitrogen] and
    [calculate_surfacic_photosynthetic_proteins] raises
    [ZeroDivisionError].  With any other green area they return; the total
    nitrogen is the non-structural nitrogen plus [Nstruct / green_area], and
    the non-structural nitrogen is the photosynthetic proteins plus the
    nitrogen of the nitrates and the amino acids per unit area. *)
Theorem surfacic_nitrogen_contents nitrates amino_acids proteins Nstruct green_area :
  (green_area = 0 →
   Model.calculate_surfacic_nitrogen nitrates amino_acids proteins Nstruct green_area
   = Raise ZeroDivisionError
   ∧ Model.calculate_surfacic_nonstructural_nitrogen nitrates amino_acids proteins green_area
     = Raise ZeroDivisionError
   ∧ Model.calculate_surfacic_photosynthetic_proteins proteins green_area
     = Raise ZeroDivisionError)
  ∧ (green_area ≠ 0 →
     ∃ total nonstructural photosynthetic,
       Model.calculate_surfacic_nitrogen nitrates amino_acids proteins Nstruct green_area
       = Ok total
       ∧ Model.calculate_surfacic_nonstructural_nitrogen nitrates amino_acids proteins
           green_area = Ok nonstructural
       ∧ Model.calculate_surfacic_photosynthetic_proteins proteins green_area
         = Ok photosynthetic
       ∧ total = nonstructural + Nstruct / green_area
       ∧ nonstructural
         = photosynthetic
           + (nitrates + amino_acids) * 1E-6 * Model.N_MOLAR_MASS / green_area).
Proof.
  unfold Model.calculate_surfacic_nitrogen, Model.calculate_surfacic_nonstructural_nitrogen,
    Model.calculate_surfacic_photosynthetic_proteins.
  split.
  - intros ->. rewrite !fdiv_zero. auto.
  - intros Hg. cbv zeta. rewrite !fdiv_ok by assumption.
    do 3 eexists. repeat (split; [reflexivity | ]).
    split; unfold Rdiv; ring.
Qed.

Lemma surfacic_nitrogen_contents_witness :
  Model.calculate_surfacic_nitrogen 10 20 300 0.002 0 = Raise ZeroDivisionError
  ∧ ∃ total nonstructural,
      Model.calculate_surfacic_nitrogen 10 20 300 0.002 0.003 = Ok total
      ∧ Model.calculate_surfacic_nonstructural_nitrogen 10 20 300 0.003 = Ok nonstructural
      ∧ total = nonstructural + 0.002 / 0.003.
Proof.
  split.
  - apply (proj1 (surfacic_nitrogen_contents 10 20 300 0.002 0)). reflexivity.
  - destruct (proj2 (surfacic_nitrogen_contents 10 20 300 0.002 0.003))
      as (t & n & p & Ht & Hn & _ & Hsum & _); [lra | ].
    exists t, n. auto.
Defined.

(** ** The branch of [Simulation.run] that calls the solver *)

(** [sim_step H] runs the lookup at the head of the body in [H], which
    says that the body returned: the key is there. *)
Ltac sim_step H :=
  rewrite ?exec_bind in H;
  lazymatch type of H with
  | context [Simulation.exec (Simulation.getitem ?d ?k) ?st] =>
      first
        [ match goal with
          | E : d !! k = Some _ |- _ => rewrite (exec_getitem_Some d k _ st E) in H
          end
        | let E := fresh "E" in
          destruct (d !! k) as [?|] eqn:E;
          [ rewrite (exec_getitem_Some d k _ st E) in H
          | rewrite (exec_getitem_None d k st E) in H; discriminate H ] ];
      cbv beta iota in H
  end.

(** [sim_pure H] does the same for a call of a function of the model. *)
Ltac sim_pure H :=
  rewrite ?exec_bind in H;
  lazymatch type of H with
  | context [Simulation.exec (Simulation.pure ?r) ?st] =>
      let E := fresh "E" in
      destruct r as [?|?] eqn:E; [ | discriminate H];
      cbn [Simulation.exec Simulation.pure] in H; cbv beta iota in H
  end.

Section SimulationSolve.
Import Simulation Footprint.

Variable MODEL_VERSION : string.
Variable calculate_surfacic_photosynthetic_proteins : pyval → pyval → result pyval.
Variable calculate_surfacic_nonstructural_nitrogen_Farquhar : pyval → result pyval.
Variable calculate_surfacic_WSC : pyval → pyval → pyval → pyval → result pyval.
Variable calculate_surfacic_nitrogen :
  pyval → pyval → pyval → pyval → pyval → result pyval.
Variable model_run :
  pyval → bool → pyval → pyval → pyval → pyval → R → R → R → R → string → pyval
  → result (pyval * pyval * pyval * pyval * pyval * pyval).

#[local] Abbreviation solve_element' :=
  (solve_element MODEL_VERSION calculate_surfacic_photosynthetic_proteins
     calculate_surfacic_nonstructural_nitrogen_Farquhar calculate_surfacic_WSC
     calculate_surfacic_nitrogen model_run).
#[local] Abbreviation run_element' :=
  (run_element MODEL_VERSION calculate_surfacic_photosynthetic_proteins
     calculate_surfacic_nonstructural_nitrogen_Farquhar calculate_surfacic_WSC
     calculate_surfacic_nitrogen model_run).
#[local] Abbreviation for_elements' :=
  (for_elements MODEL_VERSION calculate_surfacic_photosynthetic_proteins
     calculate_surfacic_nonstructural_nitrogen_Farquhar calculate_surfacic_WSC
     calculate_surfacic_nitrogen model_run).
#[local] Abbreviation run' :=
  (run MODEL_VERSION calculate_surfacic_photosynthetic_proteins
     calculate_surfacic_nonstructural_nitrogen_Farquhar calculate_surfacic_WSC
     calculate_surfacic_nitrogen model_run).

Ltac run_head :=
  rewrite ?exec_bind;
  lazymatch goal with
  | |- context [exec (getitem ?d ?k) ?st] =>
      let E := fresh "E" in
      destruct (d !! k) as [?|] eqn:E;
      [ rewrite (exec_getitem_Some d k _ st E) | rewrite (exec_getitem_None d k st E) ];
      cbv beta iota
  | |- context [exec (pure ?r) ?st] =>
      destruct r as [?|?]; cbn [exec pure]; cbv beta iota
  end.

(** The branch of an element with a height leaves the outputs alone; when
    it returns, it has logged one call of the solver, for this element. *)
Lemma solve_element_state Ta ambient_CO2 RH Ur inp id e st :
  outputs (exec (solve_element' Ta ambient_CO2 RH Ur inp id e) st).1 = outputs st
  ∧ ∀ v, (exec (solve_element' Ta ambient_CO2 RH Ur inp id e) st).2 = Ok v →
         solved (exec (solve_element' Ta ambient_CO2 RH Ur inp id e) st).1
         = solved st ++ [id].
Proof.
  destruct id as [[[[plant axe] metamer] organ] elt]. unfold solve_element.
  do 3 (run_head; [ | split; [reflexivity | discriminate]]).
  destruct (String.eqb MODEL_VERSION "SurfacicProteins"
            || String.eqb MODEL_VERSION "SurfacicProteins_Retroinhibition").
  - do 2 (run_head; [ | split; [reflexivity | discriminate]]).
    do 2 (run_head; [ | split; [reflexivity | discriminate]]).
    destruct (String.eqb MODEL_VERSION "SurfacicProteins_Retroinhibition").
    + do 4 (run_head; [ | split; [reflexivity | discriminate]]).
      run_head; [ | split; [reflexivity | discriminate]].
      cbn [exec mret sim_ret]. cbv beta iota.
      do 2 (run_head; [ | split; [reflexivity | discriminate]]).
      cbn. split; [reflexivity | intros; reflexivity].
    + rewrite ?exec_bind. cbn [exec mret sim_ret]. cbv beta iota.
      do 2 (run_head; [ | split; [reflexivity | discriminate]]).
      cbn. split; [reflexivity | intros; reflexivity].
  - destruct (String.eqb MODEL_VERSION "Barillot2016").
    + do 5 (run_head; [ | split; [reflexivity | discriminate]]).
      run_head; [ | split; [reflexivity | discriminate]].
      do 2 (run_head; [ | split; [reflexivity | discriminate]]).
      cbn. split; [reflexivity | intros; reflexivity].
    + cbn. split; [reflexivity | discriminate].
Qed.

(** What the body of the loop leaves for one element: nothing in the
    outputs when it raises; when it returns, nothing at all off the main
    stem, and on the main stem a full record with the width and the height
    of the inputs, and a logged call exactly for an element with a height. *)
Lemma run_element_effect Ta ambient_CO2 RH Ur inp id e st :
  match (exec (run_element' Ta ambient_CO2 RH Ur inp id e) st).2 with
  | Raise _ =>
      outputs (exec (run_element' Ta ambient_CO2 RH Ur inp id e) st).1 = outputs st
  | Ok _ =>
      (axis_label id ≠ "MS" ∧ (exec (run_element' Ta ambient_CO2 RH Ur inp id e) st).1 = st)
      ∨ (axis_label id = "MS"
         ∧ ∃ Ag An Rd Tr Ts gs w h,
             e !! "width" = Some w ∧ e !! "height" = Some h
             ∧ (exec (run_element' Ta ambient_CO2 RH Ur inp id e) st).1
               = State (<[id := make_outputs Ag An Rd Tr Ts gs w h]> (outputs st))
                       (solved st ++ if to_solve (id, e) then [id] else []))
  end.
Proof.
  pose proof (solve_element_state Ta ambient_CO2 RH Ur inp id e st) as Hsolve.
  destruct id as [[[[plant axe] metamer] organ] elt].
  unfold run_element, axis_label, to_solve. cbn [fst snd].
  destruct (String.eqb_spec axe "MS") as [->|Hne]; cbn [negb andb].
  2:{ cbn. left. auto. }
  run_head; [ | reflexivity].
  rename E into Hh.
  match goal with H : e !! "height" = Some ?h |- _ => destruct h as [h|] end.
  - rewrite exec_bind.
    destruct (exec (solve_element' Ta ambient_CO2 RH Ur inp
                      (plant, "MS", metamer, organ, elt) e) st)
      as [st1 [[[[[[Ag An] Rd] Tr] Ts] gs]|err]] eqn:Hs; cbn [fst snd] in Hsolve;
      destruct Hsolve as [Ho Hl]; [ | exact Ho].
    cbv beta iota.
    run_head; [ | exact Ho].
    rewrite ?exec_bind, (exec_getitem_Some e "height" _ _ Hh). cbv beta iota.
    cbn [exec set_outputs snd fst]. right. split; [reflexivity | ].
    exists Ag, An, Rd, Tr, Ts, gs. do 2 eexists.
    split; [reflexivity | ]. split; [reflexivity | ].
    rewrite Ho, (Hl _ eq_refl). reflexivity.
  - rewrite exec_bind.
    run_head; [ | reflexivity].
    run_head; [ | reflexivity].
    cbn [exec mret sim_ret]. cbv beta iota.
    run_head; [ | reflexivity].
    rewrite ?exec_bind, (exec_getitem_Some e "height" _ _ Hh). cbv beta iota.
    cbn [exec set_outputs snd fst]. right. split; [reflexivity | ].
    do 8 eexists. split; [reflexivity | ]. split; [reflexivity | ].
    rewrite app_nil_r. reflexivity.
Qed.

(** The loop over the elements, one part after the other. *)
Lemma for_elements_app Ta ambient_CO2 RH Ur inp l1 l2 st :
  exec (for_elements' Ta ambient_CO2 RH Ur inp (l1 ++ l2)) st
  = match exec (for_elements' Ta ambient_CO2 RH Ur inp l1) st with
    | (st', Ok _) => exec (for_elements' Ta ambient_CO2 RH Ur inp l2) st'
    | (st', Raise err) => (st', Raise err)
    end.
Proof.
  revert st. induction l1 as [|[id e] l1 IH]; intros st; [reflexivity | ].
  cbn [app for_elements]. rewrite !exec_bind.
  destruct (exec (run_element' Ta ambient_CO2 RH Ur inp id e) st) as [st1 [[]|err]];
    [apply IH | reflexivity].
Qed.

(** A loop that returns has called the solver once for each element to
    solve, in the order of the elements. *)
Lemma for_elements_solved Ta ambient_CO2 RH Ur inp items : ∀ st st',
  exec (for_elements' Ta ambient_CO2 RH Ur inp items) st = (st', Ok ()) →
  solved st' = solved st ++ map fst (List.filter to_solve items).
Proof.
  induction items as [|[id e] items IH]; intros st st' H.
  - injection H as <-. cbn. rewrite app_nil_r. reflexivity.
  - cbn [for_elements] in H. rewrite exec_bind in H.
    pose proof (run_element_effect Ta ambient_CO2 RH Ur inp id e st) as Heff.
    destruct (exec (run_element' Ta ambient_CO2 RH Ur inp id e) st) as [st1 [[]|err]];
      [ | discriminate].
    cbn [fst snd] in Heff. apply IH in H. rewrite H. cbn [List.filter].
    destruct Heff as [[HMS ->]|(HMS & Ag & An & Rd & Tr & Ts & gs & w & h & _ & _ & ->)].
    + assert (to_solve (id, e) = false) as ->; [ | reflexivity].
      unfold to_solve. cbn [fst]. apply String.eqb_neq in HMS. rewrite HMS. reflexivity.
    + cbn [solved]. destruct (to_solve (id, e)); cbn [map fst].
      * rewrite <- app_assoc. reflexivity.
      * rewrite app_nil_r. reflexivity.
Qed.

(** A loop that raises does so in the body for one element, the elements
    before it done. *)
Lemma for_elements_raise Ta ambient_CO2 RH Ur inp items : ∀ st st' err,
  exec (for_elements' Ta ambient_CO2 RH Ur inp items) st = (st', Raise err) →
  ∃ pre id e post st0,
    items = pre ++ (id, e) :: post
    ∧ exec (for_elements' Ta ambient_CO2 RH Ur inp pre) st = (st0, Ok ())
    ∧ exec (run_element' Ta ambient_CO2 RH Ur inp id e) st0 = (st', Raise err).
Proof.
  induction items as [|[id e] items IH]; intros st st' err H; [discriminate | ].
  cbn [for_elements] in H. rewrite exec_bind in H.
  destruct (exec (run_element' Ta ambient_CO2 RH Ur inp id e) st) as [st1 [[]|err1]] eqn:H1.
  - apply IH in H as (pre & id' & e' & post & st0 & -> & Hpre & Hid).
    exists ((id, e) :: pre), id', e', post, st0. split; [reflexivity | ].
    split; [ | exact Hid]. cbn [for_elements]. rewrite exec_bind, H1. exact Hpre.
  - injection H as <- <-. exists [], id, e, items, st. auto.
Qed.

(** The record a loop leaves for an element of its list: the one it found,
    or a full record with the width and the height of the inputs; the
    latter for an element of the main stem when the loop returns. *)
Lemma for_elements_records Ta ambient_CO2 RH Ur inp items : ∀ st id e,
  NoDup (map fst items) → (id, e) ∈ items →
  let end_ := exec (for_elements' Ta ambient_CO2 RH Ur inp items) st in
  (end_.2 = Ok () ∧ axis_label id = "MS" ∨ outputs end_.1 !! id ≠ outputs st !! id →
   ∃ Ag An Rd Tr Ts gs w h,
     e !! "width" = Some w ∧ e !! "height" = Some h
     ∧ outputs end_.1 !! id = Some (make_outputs Ag An Rd Tr Ts gs w h)).
Proof.
  induction items as [|[id0 e0] items IH]; intros st id e Hnd Hin.
  { apply elem_of_nil in Hin. contradiction. }
  cbn [map fst] in Hnd. apply NoDup_cons in Hnd as [Hnotin Hnd].
  cbn [for_elements]. cbv zeta. rewrite exec_bind.
  pose proof (run_element_effect Ta ambient_CO2 RH Ur inp id0 e0 st) as Heff.
  destruct (exec (run_element' Ta ambient_CO2 RH Ur inp id0 e0) st) as [st1 [[]|err]];
    cbn [fst snd] in Heff |- *.
  2:{ rewrite Heff. intros [[? _]|?]; [discriminate | contradiction]. }
  apply elem_of_cons in Hin as [[= <- <-]|Hin].
  - destruct (footprint_for_elements MODEL_VERSION calculate_surfacic_photosynthetic_proteins
                calculate_surfacic_nonstructural_nitrogen_Farquhar calculate_surfacic_WSC
                calculate_surfacic_nitrogen model_run Ta ambient_CO2 RH Ur inp items st1)
      as [Ho _].
    rewrite Ho by tauto.
    destruct Heff as [[HMS ->]|(HMS & Ag & An & Rd & Tr & Ts & gs & w & h & Hw & Hh & ->)].
    + intros [[_ ?]|?]; contradiction.
    + intros _. exists Ag, An, Rd, Tr, Ts, gs, w, h. cbn [outputs].
      rewrite lookup_insert_eq. auto.
  - assert (Hne : id ≠ id0).
    { intros ->. apply Hnotin. apply (list_elem_of_fmap_2 fst _ _ Hin). }
    specialize (IH st1 id e Hnd Hin). cbv zeta in IH.
    assert (Hsame : outputs st1 !! id = outputs st !! id).
    { destruct Heff as [[_ ->]|(_ & Ag & An & Rd & Tr & Ts & gs & w & h & _ & _ & ->)];
        [reflexivity | ].
      cbn [outputs]. apply lookup_insert_ne. congruence. }
    rewrite <- Hsame. exact IH.
Qed.

(** What the body of the loop found when it returned for an element of
    the main stem with a height. *)
Lemma run_element_solve_inv Ta ambient_CO2 RH Ur inp id e h st st1 :
  axis_label id = "MS" → e !! "height" = Some (Some h) →
  exec (run_element' Ta ambient_CO2 RH Ur inp id e) st = (st1, Ok ()) →
  ∃ Ag An Rd Tr Ts gs w st0,
    exec (solve_element' Ta ambient_CO2 RH Ur inp id e) st
    = (st0, Ok (Ag, An, Rd, Tr, Ts, gs))
    ∧ e !! "width" = Some w
    ∧ outputs st1 !! id = Some (make_outputs Ag An Rd Tr Ts gs w (Some h)).
Proof.
  destruct id as [[[[plant axe] metamer] organ] elt]. unfold axis_label. cbn [fst snd].
  intros -> Hh. unfold run_element. cbn [String.eqb Ascii.eqb Bool.eqb negb andb].
  rewrite exec_bind, (exec_getitem_Some _ _ _ _ Hh). cbv beta iota.
  rewrite exec_bind.
  destruct (exec (solve_element' Ta ambient_CO2 RH Ur inp
                    (plant, "MS", metamer, organ, elt) e) st)
    as [st0 [[[[[[Ag An] Rd] Tr] Ts] gs]|err]]; [ | discriminate].
  cbv beta iota. intros H. sim_step H.
  rewrite ?exec_bind, (exec_getitem_Some _ _ _ _ Hh) in H. cbv beta iota in H.
  cbn [exec set_outputs] in H. injection H as <-.
  exists Ag, An, Rd, Tr, Ts, gs. do 2 eexists. split; [reflexivity | ].
  split; [reflexivity | ]. cbn [outputs]. apply lookup_insert_eq.
Qed.

(** In a loop that returns, the body has returned for each element, and
    the record it wrote is still there at the end. *)
Lemma for_elements_at Ta ambient_CO2 RH Ur inp items : ∀ st st' id e,
  NoDup (map fst items) → (id, e) ∈ items →
  exec (for_elements' Ta ambient_CO2 RH Ur inp items) st = (st', Ok ()) →
  ∃ st0 st1,
    exec (run_element' Ta ambient_CO2 RH Ur inp id e) st0 = (st1, Ok ())
    ∧ (axis_label id = "MS" → outputs st' !! id = outputs st1 !! id).
Proof.
  induction items as [|[id0 e0] items IH]; intros st st' id e Hnd Hin H.
  { apply elem_of_nil in Hin. contradiction. }
  cbn [map fst] in Hnd. apply NoDup_cons in Hnd as [Hnotin Hnd].
  cbn [for_elements] in H. rewrite exec_bind in H.
  destruct (exec (run_element' Ta ambient_CO2 RH Ur inp id0 e0) st) as [st1 [[]|err]] eqn:H1;
    [ | discriminate].
  apply elem_of_cons in Hin as [[= <- <-]|Hin].
  - exists st, st1. split; [exact H1 | ]. intros _.
    destruct (footprint_for_elements MODEL_VERSION calculate_surfacic_photosynthetic_proteins
                calculate_surfacic_nonstructural_nitrogen_Farquhar calculate_surfacic_WSC
                calculate_surfacic_nitrogen model_run Ta ambient_CO2 RH Ur inp items st1)
      as [Ho _].
    rewrite H in Ho. cbn [fst] in Ho. apply Ho. tauto.
  - exact (IH st1 st' id e Hnd Hin H).
Qed.

End SimulationSolve.

Section Versions.
Import Simulation Footprint.

Variable calculate_surfacic_photosynthetic_proteins : pyval → pyval → result pyval.
Variable calculate_surfacic_nonstructural_nitrogen_Farquhar : pyval → result pyval.
Variable calculate_surfacic_WSC : pyval → pyval → pyval → pyval → result pyval.
Variable calculate_surfacic_nitrogen :
  pyval → pyval → pyval → pyval → pyval → result pyval.
Variable model_run :
  pyval → bool → pyval → pyval → pyval → pyval → R → R → R → R → string → pyval
  → result (pyval * pyval * pyval * pyval * pyval * pyval).

(** What the branch of line 117 read and called when it returned. *)
Lemma solve_element_Barillot2016 Ta ambient_CO2 RH Ur inp id e st st0 out :
  exec (solve_element "Barillot2016" calculate_surfacic_photosynthetic_proteins
          calculate_surfacic_nonstructural_nitrogen_Farquhar calculate_surfacic_WSC
          calculate_surfacic_nitrogen model_run Ta ambient_CO2 RH Ur inp id e) st
  = (st0, Ok out) →
  ∃ PARa axis height_canopy nitrates amino_acids proteins Nstruct green_area
    surfacic_nitrogen width height,
    e !! "PARa" = Some PARa
    ∧ axes inp !! axis_of id = Some axis
    ∧ axis !! "height_canopy" = Some height_canopy
    ∧ e !! "nitrates" = Some nitrates
    ∧ e !! "amino_acids" = Some amino_acids
    ∧ e !! "proteins" = Some proteins
    ∧ e !! "Nstruct" = Some Nstruct
    ∧ e !! "green_area" = Some green_area
    ∧ e !! "width" = Some width
    ∧ e !! "height" = Some height
    ∧ calculate_surfacic_nitrogen nitrates amino_acids proteins Nstruct green_area
      = Ok surfacic_nitrogen
    ∧ model_run surfacic_nitrogen false (Some 0) width height PARa Ta ambient_CO2 RH Ur
        (organ_label id) height_canopy = Ok out.
Proof.
  destruct id as [[[[plant axe] metamer] organ] elt].
  unfold solve_element, axis_of, organ_label. cbn [fst snd]. intros H.
  do 3 sim_step H.
  cbn [String.eqb Ascii.eqb Bool.eqb orb andb] in H.
  do 5 sim_step H. sim_pure H. do 2 sim_step H.
  cbn [exec call_run] in H. injection H as _ H.
  do 11 eexists. repeat (split; [first [reflexivity | eassumption] | ]). exact H.
Qed.

(** What the branch of line 98 read and called when it returned. *)
Lemma solve_element_SurfacicProteins (retro : bool) Ta ambient_CO2 RH Ur inp id e st st0 out :
  exec (solve_element
          (if retro then "SurfacicProteins_Retroinhibition" else "SurfacicProteins")
          calculate_surfacic_photosynthetic_proteins
          calculate_surfacic_nonstructural_nitrogen_Farquhar calculate_surfacic_WSC
          calculate_surfacic_nitrogen model_run Ta ambient_CO2 RH Ur inp id e) st
  = (st0, Ok out) →
  ∃ PARa axis height_canopy proteins green_area surfacic_photosynthetic_proteins
    SLN_nonstruct_Farquhar surfacic_WSC width height,
    e !! "PARa" = Some PARa
    ∧ axes inp !! axis_of id = Some axis
    ∧ axis !! "height_canopy" = Some height_canopy
    ∧ e !! "proteins" = Some proteins
    ∧ e !! "green_area" = Some green_area
    ∧ e !! "width" = Some width
    ∧ e !! "height" = Some height
    ∧ calculate_surfacic_photosynthetic_proteins proteins green_area
      = Ok surfacic_photosynthetic_proteins
    ∧ calculate_surfacic_nonstructural_nitrogen_Farquhar surfacic_photosynthetic_proteins
      = Ok SLN_nonstruct_Farquhar
    ∧ (if retro then
         ∃ sucrose starch fructan,
           e !! "sucrose" = Some sucrose
           ∧ e !! "starch" = Some starch
           ∧ e !! "fructan" = Some fructan
           ∧ calculate_surfacic_WSC sucrose starch fructan green_area = Ok surfacic_WSC
       else surfacic_WSC = None)
    ∧ model_run SLN_nonstruct_Farquhar retro surfacic_WSC width height PARa
        Ta ambient_CO2 RH Ur (organ_label id) height_canopy = Ok out.
Proof.
  destruct id as [[[[plant axe] metamer] organ] elt].
  unfold solve_element, axis_of, organ_label. cbn [fst snd]. intros H.
  do 3 sim_step H.
  destruct retro; cbn [String.eqb Ascii.eqb Bool.eqb orb andb] in H.
  - do 2 sim_step H. do 2 sim_pure H. do 4 sim_step H. sim_pure H.
    cbn [exec mret sim_ret] in H. cbv beta iota in H.
    do 2 sim_step H.
    cbn [exec call_run] in H. injection H as _ H.
    do 10 eexists. do 9 (split; [first [reflexivity | eassumption] | ]).
    split; [ | exact H].
    do 3 eexists. repeat (split; [first [reflexivity | eassumption] | ]). eassumption.
  - do 2 sim_step H. do 2 sim_pure H.
    rewrite ?exec_bind in H. cbn [exec mret sim_ret] in H. cbv beta iota in H.
    do 2 sim_step H.
    cbn [exec call_run] in H. injection H as _ H.
    do 10 eexists. do 9 (split; [first [reflexivity | eassumption] | ]).
    split; [reflexivity | exact H].
Qed.

End Versions.

(** X19.  In a run that returns, [model.run] has been called once for
    each element of the main stem whose height is not [None], in the order
    of the elements, and not otherwise: these calls are what the run adds to
    the log. *)
Theorem solver_called_once_per_element
    MODEL_VERSION calculate_surfacic_photosynthetic_proteins
    calculate_surfacic_nonstructural_nitrogen_Farquhar calculate_surfacic_WSC
    calculate_surfacic_nitrogen model_run inp Ta ambient_CO2 RH Ur st :
  let end_ :=
    Simulation.exec
      (Simulation.run MODEL_VERSION calculate_surfacic_photosynthetic_proteins
         calculate_surfacic_nonstructural_nitrogen_Farquhar calculate_surfacic_WSC
         calculate_surfacic_nitrogen model_run inp Ta ambient_CO2 RH Ur) st in
  end_.2 = Ok () →
  Simulation.solved end_.1
  = Simulation.solved st
    ++ map fst (List.filter Footprint.to_solve (Simulation.elements inp)).
Proof.
  intros end_. subst end_. rewrite exec_run.
  destruct (Simulation.exec (Simulation.for_elements _ _ _ _ _ _ _ _ _ _ _ _) _)
    as [st' r] eqn:Hrun.
  cbn [fst snd]. intros ->.
  apply for_elements_solved in Hrun. exact Hrun.
Qed.

Lemma solver_called_once_per_element_witness :
  let inp := Simulation.Inputs
               [(Example.tiller_blade, Example.tiller_blade_inputs);
                (Example.hidden_internode, Example.hidden_internode_inputs);
                (Example.main_stem_blade, SolverExample.main_stem_blade_inputs)]
               Example.main_stem in
  Simulation.solved
    (Simulation.exec (SolverExample.run "Barillot2016" inp 20 380 0.6 2)
       Example.empty_state).1
  = [Example.main_stem_blade].
Proof.
  intros inp.
  apply (solver_called_once_per_element "Barillot2016" SolverExample.returned2
           SolverExample.returned1 SolverExample.returned4 SolverExample.returned5
           SolverExample.returned_run inp 20 380 0.6 2 Example.empty_state).
  reflexivity.
Defined.

(** X20.  A run that raises stops where it raises.  The element
    identifiers being distinct (they are the keys of a dictionary), the
    exception is the one of the loop body for some element of the main stem,
    and the state the run ends in is the state that body stopped in; the
    record of that element and the record of every element after it are
    empty, and the solver has not been called for an element after it. *)
Theorem run_stops_at_first_exception
    MODEL_VERSION calculate_surfacic_photosynthetic_proteins
    calculate_surfacic_nonstructural_nitrogen_Farquhar calculate_surfacic_WSC
    calculate_surfacic_nitrogen model_run inp Ta ambient_CO2 RH Ur st err :
  let end_ :=
    Simulation.exec
      (Simulation.run MODEL_VERSION calculate_surfacic_photosynthetic_proteins
         calculate_surfacic_nonstructural_nitrogen_Farquhar calculate_surfacic_WSC
         calculate_surfacic_nitrogen model_run inp Ta ambient_CO2 RH Ur) st in
  NoDup (map fst (Simulation.elements inp)) →
  end_.2 = Raise err →
  ∃ pre id e post,
    Simulation.elements inp = pre ++ (id, e) :: post
    ∧ Footprint.axis_label id = "MS"
    ∧ (∃ st0,
         Simulation.exec
           (Simulation.run_element MODEL_VERSION calculate_surfacic_photosynthetic_proteins
              calculate_surfacic_nonstructural_nitrogen_Farquhar calculate_surfacic_WSC
              calculate_surfacic_nitrogen model_run Ta ambient_CO2 RH Ur inp id e) st0
         = (end_.1, Raise err))
    ∧ Simulation.outputs end_.1 !! id = Some ∅
    ∧ ∀ id', id' ∈ map fst post →
        Simulation.outputs end_.1 !! id' = Some ∅
        ∧ (id' ∈ Simulation.solved end_.1 → id' ∈ Simulation.solved st).
Proof.
  intros end_ Hnd. subst end_. rewrite exec_run.
  destruct (Simulation.exec (Simulation.for_elements _ _ _ _ _ _ _ _ _ _ _ _) _)
    as [st' r] eqn:Hrun.
  cbn [fst snd]. intros ->.
  apply for_elements_raise in Hrun as (pre & id & e & post & st0 & Hel & Hpre & Hid).
  exists pre, id, e, post.
  rewrite Hel, map_app in Hnd. cbn [map fst] in Hnd.
  apply NoDup_app in Hnd as (_ & Hdisj & Hnd). apply NoDup_cons in Hnd as [Hidpost _].
  assert (HMS : Footprint.axis_label id = "MS").
  { destruct (String.eqb_spec (Footprint.axis_label id) "MS") as [?|Hne]; [assumption | ].
    rewrite (run_element_off_main_stem _ _ _ _ _ _ _ _ _ _ _ _ _ Hne) in Hid.
    discriminate. }
  pose proof (run_element_effect MODEL_VERSION calculate_surfacic_photosynthetic_proteins
                calculate_surfacic_nonstructural_nitrogen_Farquhar calculate_surfacic_WSC
                calculate_surfacic_nitrogen model_run Ta ambient_CO2 RH Ur inp id e st0)
    as Heff.
  rewrite Hid in Heff. cbn [fst snd] in Heff.
  destruct (footprint_for_elements MODEL_VERSION calculate_surfacic_photosynthetic_proteins
              calculate_surfacic_nonstructural_nitrogen_Farquhar calculate_surfacic_WSC
              calculate_surfacic_nitrogen model_run Ta ambient_CO2 RH Ur inp pre
              (Simulation.exec (Simulation.reset_outputs (map fst (Simulation.elements inp)))
                 st).1) as [Ho Hs].
  rewrite Hpre in Ho, Hs. cbn [fst] in Ho, Hs.
  assert (Hreset : ∀ id', id' = id ∨ id' ∈ map fst post →
                     Simulation.outputs st' !! id' = Some ∅).
  { intros id' Hin. rewrite Heff, Ho.
    - rewrite reset_outputs_lookup, bool_decide_eq_true_2; [reflexivity | ].
      rewrite Hel, map_app. apply elem_of_app. right. cbn [map fst].
      apply elem_of_cons. exact Hin.
    - intros [Hpre' _]. apply (Hdisj id' Hpre'). apply elem_of_cons. exact Hin. }
  split; [exact Hel | ]. split; [exact HMS | ]. split; [exists st0; exact Hid | ].
  split; [apply Hreset; left; reflexivity | ].
  intros id' Hin. split; [apply Hreset; right; exact Hin | ].
  intros Hsol.
  destruct (footprint_run_element MODEL_VERSION calculate_surfacic_photosynthetic_proteins
              calculate_surfacic_nonstructural_nitrogen_Farquhar calculate_surfacic_WSC
              calculate_surfacic_nitrogen model_run Ta ambient_CO2 RH Ur inp id e st0)
    as [_ Hs1].
  rewrite Hid in Hs1. cbn [fst] in Hs1.
  apply Hs1 in Hsol as [Hsol|[-> _]]; [ | contradiction].
  apply Hs in Hsol as [Hsol|[Hpre' _]]; [exact Hsol | ].
  exfalso. apply (Hdisj id' Hpre'). apply elem_of_cons. right. exact Hin.
Qed.

Lemma run_stops_at_first_exception_witness :
  let inp := Simulation.Inputs
               [(Example.tiller_blade, Example.tiller_blade_inputs);
                (Example.main_stem_blade, Example.main_stem_blade_inputs);
                (Example.hidden_internode, Example.hidden_internode_inputs)]
               Example.main_stem in
  let end_ := Simulation.exec (Example.run "Barillot2016" inp 20 380 0.6 2)
                Example.empty_state in
  ∃ pre id e post,
    Simulation.elements inp = pre ++ (id, e) :: post
    ∧ Footprint.axis_label id = "MS"
    ∧ (∃ st0,
         Simulation.exec
           (Simulation.run_element "Barillot2016" Example.unreached2 Example.unreached1
              Example.unreached4 Example.unreached5 Example.unreached_run
              20 380 0.6 2 inp id e) st0
         = (end_.1, Raise KeyError))
    ∧ Simulation.outputs end_.1 !! id = Some ∅
    ∧ ∀ id', id' ∈ map fst post →
        Simulation.outputs end_.1 !! id' = Some ∅
        ∧ (id' ∈ Simulation.solved end_.1 → id' ∈ Simulation.solved Example.empty_state).
Proof.
  intros inp end_.
  apply (run_stops_at_first_exception "Barillot2016" Example.unreached2
           Example.unreached1 Example.unreached4 Example.unreached5 Example.unreached_run
           inp 20 380 0.6 2 Example.empty_state KeyError).
  - cbn. repeat (apply NoDup_cons; split; [ | ]); [ | | | apply NoDup_nil_2].
    + intros H. apply elem_of_cons in H as [H|H]; [discriminate | ].
      apply list_elem_of_singleton in H. discriminate.
    + intros H. apply list_elem_of_singleton in H. discriminate.
    + apply not_elem_of_nil.
  - reflexivity.
Defined.

(** X21.  No record of an earlier run survives for an element of the
    inputs.  The element identifiers being distinct, the record a run leaves
    for an element of its inputs, however the run ends, is empty or is the
    record with the keys [Ag], [An], [Rd], [Tr], [Ts], [gs], [width] and
    [height] that this run built, [width] and [height] being those of the
    inputs.  In a run that returns every element of the main stem has the
    latter. *)
Theorem run_leaves_no_stale_record
    MODEL_VERSION calculate_surfacic_photosynthetic_proteins
    calculate_surfacic_nonstructural_nitrogen_Farquhar calculate_surfacic_WSC
    calculate_surfacic_nitrogen model_run inp Ta ambient_CO2 RH Ur st id e :
  let end_ :=
    Simulation.exec
      (Simulation.run MODEL_VERSION calculate_surfacic_photosynthetic_proteins
         calculate_surfacic_nonstructural_nitrogen_Farquhar calculate_surfacic_WSC
         calculate_surfacic_nitrogen model_run inp Ta ambient_CO2 RH Ur) st in
  let written :=
    ∃ Ag An Rd Tr Ts gs width height,
      e !! "width" = Some width ∧ e !! "height" = Some height
      ∧ Simulation.outputs end_.1 !! id
        = Some (Simulation.make_outputs Ag An Rd Tr Ts gs width height) in
  NoDup (map fst (Simulation.elements inp)) →
  (id, e) ∈ Simulation.elements inp →
  (Simulation.outputs end_.1 !! id = Some ∅ ∨ written)
  ∧ (end_.2 = Ok () → Footprint.axis_label id = "MS" → written).
Proof.
  intros end_ written Hnd Hin. subst written end_. rewrite exec_run.
  pose proof (for_elements_records MODEL_VERSION calculate_surfacic_photosynthetic_proteins
                calculate_surfacic_nonstructural_nitrogen_Farquhar calculate_surfacic_WSC
                calculate_surfacic_nitrogen model_run Ta ambient_CO2 RH Ur inp
                (Simulation.elements inp)
                (Simulation.exec
                   (Simulation.reset_outputs (map fst (Simulation.elements inp))) st).1
                id e Hnd Hin) as Hrec.
  cbv zeta in Hrec.
  rewrite (reset_outputs_lookup _ st id), bool_decide_eq_true_2 in Hrec
    by (apply (list_elem_of_fmap_2 fst _ _ Hin)).
  split.
  - destruct (decide (Simulation.outputs
                        (Simulation.exec
                           (Simulation.for_elements MODEL_VERSION
                              calculate_surfacic_photosynthetic_proteins
                              calculate_surfacic_nonstructural_nitrogen_Farquhar
                              calculate_surfacic_WSC calculate_surfacic_nitrogen model_run
                              Ta ambient_CO2 RH Ur inp (Simulation.elements inp))
                           (Simulation.exec
                              (Simulation.reset_outputs (map fst (Simulation.elements inp)))
                              st).1).1 !! id = Some ∅)) as [Heq|Hne].
    + left. exact Heq.
    + right. apply Hrec. right. exact Hne.
  - intros Hok HMS. apply Hrec. left. split; assumption.
Qed.

Lemma run_leaves_no_stale_record_witness :
  let inp := Simulation.Inputs
               [(Example.tiller_blade, Example.tiller_blade_inputs);
                (Example.main_stem_blade, SolverExample.main_stem_blade_inputs)]
               Example.main_stem in
  let end_ := Simulation.exec (SolverExample.run "Barillot2016" inp 20 380 0.6 2)
                (Simulation.State
                   (<[Example.main_stem_blade := <["Ag" := Some 99]> ∅]> ∅) []) in
  ∃ Ag An Rd Tr Ts gs width height,
    SolverExample.main_stem_blade_inputs !! "width" = Some width
    ∧ SolverExample.main_stem_blade_inputs !! "height" = Some height
    ∧ Simulation.outputs end_.1 !! Example.main_stem_blade
      = Some (Simulation.make_outputs Ag An Rd Tr Ts gs width height).
Proof.
  intros inp end_.
  apply (run_leaves_no_stale_record "Barillot2016" SolverExample.returned2
           SolverExample.returned1 SolverExample.returned4 SolverExample.returned5
           SolverExample.returned_run inp 20 380 0.6 2
           (Simulation.State (<[Example.main_stem_blade := <["Ag" := Some 99]> ∅]> ∅) [])
           Example.main_stem_blade SolverExample.main_stem_blade_inputs).
  - cbn. apply NoDup_cons. split.
    + intros H. apply list_elem_of_singleton in H. discriminate.
    + apply NoDup_singleton.
  - apply list_elem_of_further, list_elem_of_here.
  - reflexivity.
  - reflexivity.
Defined.

(** X22.  The version ['Barillot2016'], in a run that returns, for an
    element of the main stem with a height (the identifiers being distinct).
    Its inputs had ['PARa'], ['nitrates'], ['amino_acids'], ['proteins'],
    ['Nstruct'], ['green_area'] and ['width'], and its axis a
    ['height_canopy'].  [model.run] was called with the surfacic nitrogen
    that [calculate_surfacic_nitrogen] made of these, without
    retroinhibition and with a surfacic WSC of [0.], with the width, the
    height, the light, the weather, the organ label and the canopy height;
    the six values it returned are in the record of the element, with the
    width and the height of the inputs. *)
Theorem Barillot2016_element_record
    calculate_surfacic_photosynthetic_proteins
    calculate_surfacic_nonstructural_nitrogen_Farquhar calculate_surfacic_WSC
    calculate_surfacic_nitrogen model_run inp Ta ambient_CO2 RH Ur st id e h :
  let end_ :=
    Simulation.exec
      (Simulation.run "Barillot2016" calculate_surfacic_photosynthetic_proteins
         calculate_surfacic_nonstructural_nitrogen_Farquhar calculate_surfacic_WSC
         calculate_surfacic_nitrogen model_run inp Ta ambient_CO2 RH Ur) st in
  NoDup (map fst (Simulation.elements inp)) →
  (id, e) ∈ Simulation.elements inp →
  Footprint.axis_label id = "MS" →
  e !! "height" = Some (Some h) →
  end_.2 = Ok () →
  ∃ PARa axis height_canopy nitrates amino_acids proteins Nstruct green_area
    surfacic_nitrogen width Ag An Rd Tr Ts gs,
    e !! "PARa" = Some PARa
    ∧ Simulation.axes inp !! Footprint.axis_of id = Some axis
    ∧ axis !! "height_canopy" = Some height_canopy
    ∧ e !! "nitrates" = Some nitrates
    ∧ e !! "amino_acids" = Some amino_acids
    ∧ e !! "proteins" = Some proteins
    ∧ e !! "Nstruct" = Some Nstruct
    ∧ e !! "green_area" = Some green_area
    ∧ e !! "width" = Some width
    ∧ calculate_surfacic_nitrogen nitrates amino_acids proteins Nstruct green_area
      = Ok surfacic_nitrogen
    ∧ model_run surfacic_nitrogen false (Some 0) width (Some h) PARa Ta ambient_CO2 RH Ur
        (Footprint.organ_label id) height_canopy = Ok (Ag, An, Rd, Tr, Ts, gs)
    ∧ Simulation.outputs end_.1 !! id
      = Some (Simulation.make_outputs Ag An Rd Tr Ts gs width (Some h)).
Proof.
  intros end_ Hnd Hin HMS Hh. subst end_. rewrite exec_run.
  destruct (Simulation.exec (Simulation.for_elements _ _ _ _ _ _ _ _ _ _ _ _) _)
    as [st' r] eqn:Hrun.
  cbn [fst snd]. intros ->.
  destruct (for_elements_at _ _ _ _ _ _ _ _ _ _ _ _ _ _ _ _ Hnd Hin Hrun)
    as (st0 & st1 & Hel & Hout).
  destruct (run_element_solve_inv _ _ _ _ _ _ _ _ _ _ _ _ _ _ _ _ HMS Hh Hel)
    as (Ag & An & Rd & Tr & Ts & gs & w & st2 & Hsolve & Hw & Hrec).
  apply solve_element_Barillot2016 in Hsolve
    as (PARa & axis & hc & nitrates & amino_acids & proteins & Nstruct & green_area
        & sn & width & height & HP & Hax & Hhc & Hn & Ha & Hp & Hns & Hga & Hw' & Hh'
        & Hsn & Hcall).
  assert (width = w) by congruence. assert (height = Some h) by congruence. subst.
  exists PARa, axis, hc, nitrates, amino_acids, proteins, Nstruct, green_area, sn, w,
    Ag, An, Rd, Tr, Ts, gs.
  repeat (split; [assumption | ]). rewrite (Hout HMS). exact Hrec.
Qed.

Lemma Barillot2016_element_record_witness :
  let inp := Simulation.Inputs
               [(Example.tiller_blade, Example.tiller_blade_inputs);
                (Example.main_stem_blade, SolverExample.main_stem_blade_inputs)]
               Example.main_stem in
  let end_ := Simulation.exec (SolverExample.run "Barillot2016" inp 20 380 0.6 2)
                Example.empty_state in
  ∃ width,
    SolverExample.main_stem_blade_inputs !! "width" = Some width
    ∧ Simulation.outputs end_.1 !! Example.main_stem_blade
      = Some (Simulation.make_outputs (Some 12) (Some 10) (Some 2) (Some 1.5) (Some 21)
                (Some 0.3) width (Some 0.6)).
Proof.
  intros inp end_.
  destruct (Barillot2016_element_record SolverExample.returned2
              SolverExample.returned1 SolverExample.returned4 SolverExample.returned5
              SolverExample.returned_run inp 20 380 0.6 2 Example.empty_state
              Example.main_stem_blade SolverExample.main_stem_blade_inputs 0.6)
    as (PARa & axis & hc & nitrates & amino_acids & proteins & Nstruct & green_area
        & sn & width & Ag & An & Rd & Tr & Ts & gs & _ & _ & _ & _ & _ & _ & _ & _ & Hw
        & _ & Hcall & Hrec).
  - cbn. apply NoDup_cons. split.
    + intros H. apply list_elem_of_singleton in H. discriminate.
    + apply NoDup_singleton.
  - apply list_elem_of_further, list_elem_of_here.
  - reflexivity.
  - reflexivity.
  - reflexivity.
  - exists width. split; [exact Hw | ].
    unfold SolverExample.returned_run in Hcall. injection Hcall as <- <- <- <- <- <-.
    exact Hrec.
Defined.

(** X23.  The versions ['SurfacicProteins'] ([retro = false]) and
    ['SurfacicProteins_Retroinhibition'] ([retro = true]), in a run that
    returns, for an element of the main stem with a height (the identifiers
    being distinct).  [model.run] was called with the nitrogen that
    [calculate_surfacic_nonstructural_nitrogen_Farquhar] made of the
    surfacic photosynthetic proteins, themselves made of ['proteins'] and
    ['green_area']; with the option [retro]; and with a surfacic WSC that is
    [None] without retroinhibition and otherwise what
    [calculate_surfacic_WSC] made of ['sucrose'], ['starch'], ['fructan'] and
    ['green_area'].  The six values it returned are in the record of the
    element, with the width and the height of the inputs.  Nitrates, amino
    acids and structural nitrogen are not read. *)
Theorem SurfacicProteins_element_record (retro : bool)
    calculate_surfacic_photosynthetic_proteins
    calculate_surfacic_nonstructural_nitrogen_Farquhar calculate_surfacic_WSC
    calculate_surfacic_nitrogen model_run inp Ta ambient_CO2 RH Ur st id e h :
  let end_ :=
    Simulation.exec
      (Simulation.run
         (if retro then "SurfacicProteins_Retroinhibition" else "SurfacicProteins")
         calculate_surfacic_photosynthetic_proteins
         calculate_surfacic_nonstructural_nitrogen_Farquhar calculate_surfacic_WSC
         calculate_surfacic_nitrogen model_run inp Ta ambient_CO2 RH Ur) st in
  NoDup (map fst (Simulation.elements inp)) →
  (id, e) ∈ Simulation.elements inp →
  Footprint.axis_label id = "MS" →
  e !! "height" = Some (Some h) →
  end_.2 = Ok () →
  ∃ PARa axis height_canopy proteins green_area surfacic_photosynthetic_proteins
    SLN_nonstruct_Farquhar surfacic_WSC width Ag An Rd Tr Ts gs,
    e !! "PARa" = Some PARa
    ∧ Simulation.axes inp !! Footprint.axis_of id = Some axis
    ∧ axis !! "height_canopy" = Some height_canopy
    ∧ e !! "proteins" = Some proteins
    ∧ e !! "green_area" = Some green_area
    ∧ e !! "width" = Some width
    ∧ calculate_surfacic_photosynthetic_proteins proteins green_area
      = Ok surfacic_photosynthetic_proteins
    ∧ calculate_surfacic_nonstructural_nitrogen_Farquhar surfacic_photosynthetic_proteins
      = Ok SLN_nonstruct_Farquhar
    ∧ (if retro then
         ∃ sucrose starch fructan,
           e !! "sucrose" = Some sucrose
           ∧ e !! "starch" = Some starch
           ∧ e !! "fructan" = Some fructan
           ∧ calculate_surfacic_WSC sucrose starch fructan green_area = Ok surfacic_WSC
       else surfacic_WSC = None)
    ∧ model_run SLN_nonstruct_Farquhar retro surfacic_WSC width (Some h) PARa
        Ta ambient_CO2 RH Ur (Footprint.organ_label id) height_canopy
      = Ok (Ag, An, Rd, Tr, Ts, gs)
    ∧ Simulation.outputs end_.1 !! id
      = Some (Simulation.make_outputs Ag An Rd Tr Ts gs width (Some h)).
Proof.
  intros end_ Hnd Hin HMS Hh. subst end_. rewrite exec_run.
  destruct (Simulation.exec (Simulation.for_elements _ _ _ _ _ _ _ _ _ _ _ _) _)
    as [st' r] eqn:Hrun.
  cbn [fst snd]. intros ->.
  destruct (for_elements_at _ _ _ _ _ _ _ _ _ _ _ _ _ _ _ _ Hnd Hin Hrun)
    as (st0 & st1 & Hel & Hout).
  destruct (run_element_solve_inv _ _ _ _ _ _ _ _ _ _ _ _ _ _ _ _ HMS Hh Hel)
    as (Ag & An & Rd & Tr & Ts & gs & w & st2 & Hsolve & Hw & Hrec).
  apply solve_element_SurfacicProteins in Hsolve
    as (PARa & axis & hc & proteins & green_area & spp & sln & wsc & width & height
        & HP & Hax & Hhc & Hp & Hga & Hw' & Hh' & Hspp & Hsln & Hwsc & Hcall).
  assert (width = w) by congruence. assert (height = Some h) by congruence. subst.
  exists PARa, axis, hc, proteins, green_area, spp, sln, wsc, w, Ag, An, Rd, Tr, Ts, gs.
  repeat (split; [assumption | ]). rewrite (Hout HMS). exact Hrec.
Qed.

Lemma SurfacicProteins_element_record_witness :
  let inp := Simulation.Inputs
               [(Example.tiller_blade, Example.tiller_blade_inputs);
                (Example.main_stem_blade, SolverExample.main_stem_blade_inputs)]
               Example.main_stem in
  let end_ := Simulation.exec (SolverExample.run "SurfacicProteins_Retroinhibition"
                                 inp 20 380 0.6 2)
                Example.empty_state in
  ∃ width,
    SolverExample.main_stem_blade_inputs !! "width" = Some width
    ∧ Simulation.outputs end_.1 !! Example.main_stem_blade
      = Some (Simulation.make_outputs (Some 12) (Some 10) (Some 2) (Some 1.5) (Some 21)
                (Some 0.3) width (Some 0.6)).
Proof.
  intros inp end_.
  destruct (SurfacicProteins_element_record true SolverExample.returned2
              SolverExample.returned1 SolverExample.returned4 SolverExample.returned5
              SolverExample.returned_run inp 20 380 0.6 2 Example.empty_state
              Example.main_stem_blade SolverExample.main_stem_blade_inputs 0.6)
    as (PARa & axis & hc & proteins & green_area & spp & sln & wsc & width
        & Ag & An & Rd & Tr & Ts & gs & _ & _ & _ & _ & _ & Hw & _ & _ & _ & Hcall & Hrec).
  - cbn. apply NoDup_cons. split.
    + intros H. apply list_elem_of_singleton in H. discriminate.
    + apply NoDup_singleton.
  - apply list_elem_of_further, list_elem_of_here.
  - reflexivity.
  - reflexivity.
  - reflexivity.
  - exists width. split; [exact Hw | ].
    unfold SolverExample.returned_run in Hcall. injection Hcall as <- <- <- <- <- <-.
    exact Hrec.
Defined.

Section Nitrogen0.
Import Model Closed.


End Nitrogen0.



(** ** [Simulation.run] and the state it starts in *)

Section Uniform.
Import Simulation Footprint.

Lemma uniform_unchanged {T : Type} (m : sim T) (r : result T) :
  (∀ st, exec m st = (st, r)) → uniform m.
Proof.
  intros Hm. exists r, (λ o, o), []. split; [auto | ].
  intros st. rewrite Hm, app_nil_r. destruct st; reflexivity.
Qed.

Lemma uniform_ret {T : Type} (v : T) : uniform (mret v).
Proof. apply (uniform_unchanged _ (Ok v)). reflexivity. Qed.

Lemma uniform_pure {T : Type} (r : result T) : uniform (pure r).
Proof. apply (uniform_unchanged _ r). reflexivity. Qed.

Lemma uniform_raise {T : Type} e : uniform (raise (T := T) e).
Proof. apply (uniform_unchanged _ (Raise e)). reflexivity. Qed.

Lemma uniform_getitem `{Countable K} {V : Type} (d : gmap K V) key :
  uniform (getitem d key).
Proof.
  unfold getitem. destruct (d !! key); [apply uniform_ret | apply uniform_raise].
Qed.

Lemma uniform_call_run id r : uniform (call_run id r).
Proof. exists r, (λ o, o), [id]. split; [auto | reflexivity]. Qed.

Lemma uniform_set_outputs id rec : uniform (set_outputs id rec).
Proof.
  exists (Ok ()), (λ o, <[id := rec]> o), []. split.
  - intros o o' id' Hid. destruct (decide (id' = id)) as [->|Hne].
    + rewrite !lookup_insert_eq. reflexivity.
    + rewrite !lookup_insert_ne by congruence. exact Hid.
  - intros st. cbn. rewrite app_nil_r. reflexivity.
Qed.

Lemma uniform_reset_outputs ids : uniform (reset_outputs ids).
Proof.
  exists (Ok ()), (λ o, foldl (λ o id, <[id := ∅]> o) o ids), []. split.
  - intros o o' id Hid.
    pose proof (reset_outputs_lookup ids (State o []) id) as H1.
    pose proof (reset_outputs_lookup ids (State o' []) id) as H2.
    cbn in H1, H2. rewrite H1, H2, Hid. reflexivity.
  - intros st. cbn. rewrite app_nil_r. reflexivity.
Qed.

Lemma uniform_bind {T U : Type} (m : sim T) (k : T → sim U) :
  uniform m → (∀ v, uniform (k v)) → uniform (x ← m; k x).
Proof.
  intros (r & upd & log & Hupd & Hm) Hk. destruct r as [v|e].
  - destruct (Hk v) as (r2 & upd2 & log2 & Hupd2 & Hk2).
    exists r2, (λ o, upd2 (upd o)), (log ++ log2). split.
    + intros o o' id Hid. apply Hupd2, Hupd, Hid.
    + intros st. rewrite exec_bind, Hm, Hk2. cbn [outputs solved].
      rewrite app_assoc. reflexivity.
  - exists (Raise e), upd, log. split; [exact Hupd | ].
    intros st. rewrite exec_bind, Hm. reflexivity.
Qed.

Variable MODEL_VERSION : string.
Variable calculate_surfacic_photosynthetic_proteins : pyval → pyval → result pyval.
Variable calculate_surfacic_nonstructural_nitrogen_Farquhar : pyval → result pyval.
Variable calculate_surfacic_WSC : pyval → pyval → pyval → pyval → result pyval.
Variable calculate_surfacic_nitrogen :
  pyval → pyval → pyval → pyval → pyval → result pyval.
Variable model_run :
  pyval → bool → pyval → pyval → pyval → pyval → R → R → R → R → string → pyval
  → result (pyval * pyval * pyval * pyval * pyval * pyval).

Ltac uniform_step :=
  first
    [ apply uniform_getitem
    | apply uniform_ret
    | apply uniform_pure
    | apply uniform_raise
    | apply uniform_call_run
    | apply uniform_set_outputs
    | apply uniform_bind; [ | intros ? ]
    | match goal with
      | |- uniform (if ?b then _ else _) => destruct b
      | |- uniform (match ?x with _ => _ end) => destruct x
      end ].

Lemma uniform_run_element Ta ambient_CO2 RH Ur inp id e :
  uniform (run_element MODEL_VERSION calculate_surfacic_photosynthetic_proteins
             calculate_surfacic_nonstructural_nitrogen_Farquhar calculate_surfacic_WSC
             calculate_surfacic_nitrogen model_run Ta ambient_CO2 RH Ur inp id e).
Proof.
  destruct id as [[[[plant axe] metamer] organ] elt].
  unfold run_element, solve_element. repeat uniform_step.
Qed.

Lemma uniform_for_elements Ta ambient_CO2 RH Ur inp items :
  uniform (for_elements MODEL_VERSION calculate_surfacic_photosynthetic_proteins
             calculate_surfacic_nonstructural_nitrogen_Farquhar calculate_surfacic_WSC
             calculate_surfacic_nitrogen model_run Ta ambient_CO2 RH Ur inp items).
Proof.
  induction items as [|[id e] items IH]; cbn [for_elements].
  - apply uniform_ret.
  - apply uniform_bind; [apply uniform_run_element | intros _; exact IH].
Qed.

End Uniform.

(** X25.  What a run does is the same whatever earlier runs left in
    [self.outputs].  From two states, [run] returns or raises the same, logs
    the same calls of the solver and leaves the same record for each element
    of its inputs, and for any other element whose records were the same
    before. *)
Theorem run_does_not_depend_on_previous_runs
    MODEL_VERSION calculate_surfacic_photosynthetic_proteins
    calculate_surfacic_nonstructural_nitrogen_Farquhar calculate_surfacic_WSC
    calculate_surfacic_nitrogen model_run inp Ta ambient_CO2 RH Ur st st' :
  let run :=
    Simulation.run MODEL_VERSION calculate_surfacic_photosynthetic_proteins
      calculate_surfacic_nonstructural_nitrogen_Farquhar calculate_surfacic_WSC
      calculate_surfacic_nitrogen model_run inp Ta ambient_CO2 RH Ur in
  (Simulation.exec run st).2 = (Simulation.exec run st').2
  ∧ (∃ log, Simulation.solved (Simulation.exec run st).1 = Simulation.solved st ++ log
            ∧ Simulation.solved (Simulation.exec run st').1 = Simulation.solved st' ++ log)
  ∧ ∀ id,
      id ∈ map fst (Simulation.elements inp)
      ∨ Simulation.outputs st !! id = Simulation.outputs st' !! id →
      Simulation.outputs (Simulation.exec run st).1 !! id
      = Simulation.outputs (Simulation.exec run st').1 !! id.
Proof.
  cbv zeta. rewrite !exec_run.
  destruct (uniform_for_elements MODEL_VERSION calculate_surfacic_photosynthetic_proteins
              calculate_surfacic_nonstructural_nitrogen_Farquhar calculate_surfacic_WSC
              calculate_surfacic_nitrogen model_run Ta ambient_CO2 RH Ur inp
              (Simulation.elements inp)) as (r & upd & log & Hupd & Hrun).
  rewrite !Hrun. cbn [fst snd Simulation.outputs Simulation.solved].
  split; [reflexivity | ]. split.
  - exists log. split; reflexivity.
  - intros id Hid. apply Hupd.
    rewrite !reset_outputs_lookup.
    destruct (bool_decide_reflect (id ∈ map fst (Simulation.elements inp))) as [_|Hnot];
      [reflexivity | ].
    destruct Hid as [?|Hid]; [contradiction | exact Hid].
Qed.

(** X26.  [run] updates [self.outputs], it does not clear it: the record
    of an element that is not among the inputs stays as it was, however the
    run ends, and the solver is not called for it. *)
Theorem run_keeps_records_of_other_elements
    MODEL_VERSION calculate_surfacic_photosynthetic_proteins
    calculate_surfacic_nonstructural_nitrogen_Farquhar calculate_surfacic_WSC
    calculate_surfacic_nitrogen model_run inp Ta ambient_CO2 RH Ur st id :
  let end_ :=
    Simulation.exec
      (Simulation.run MODEL_VERSION calculate_surfacic_photosynthetic_proteins
         calculate_surfacic_nonstructural_nitrogen_Farquhar calculate_surfacic_WSC
         calculate_surfacic_nitrogen model_run inp Ta ambient_CO2 RH Ur) st in
  id ∉ map fst (Simulation.elements inp) →
  Simulation.outputs end_.1 !! id = Simulation.outputs st !! id
  ∧ (id ∈ Simulation.solved end_.1 → id ∈ Simulation.solved st).
Proof.
  intros end_ Hnot. subst end_. rewrite exec_run.
  destruct (footprint_for_elements MODEL_VERSION calculate_surfacic_photosynthetic_proteins
              calculate_surfacic_nonstructural_nitrogen_Farquhar calculate_surfacic_WSC
              calculate_surfacic_nitrogen model_run Ta ambient_CO2 RH Ur inp
              (Simulation.elements inp)
              (Simulation.exec
                 (Simulation.reset_outputs (map fst (Simulation.elements inp))) st).1)
    as [Ho Hs].
  split.
  - rewrite Ho by tauto. rewrite reset_outputs_lookup.
    rewrite bool_decide_eq_false_2 by assumption. reflexivity.
  - intros Hsol. apply Hs in Hsol as [Hsol|[? _]]; [exact Hsol | contradiction].
Qed.

Lemma run_keeps_records_of_other_elements_witness :
  let inp := Simulation.Inputs
               [(Example.main_stem_blade, SolverExample.main_stem_blade_inputs)]
               Example.main_stem in
  let st := Simulation.State (<[Example.tiller_blade := <["Ag" := Some 99]> ∅]> ∅) [] in
  let end_ := Simulation.exec (SolverExample.run "Barillot2016" inp 20 380 0.6 2) st in
  Simulation.outputs end_.1 !! Example.tiller_blade = Some (<["Ag" := Some 99]> ∅).
Proof.
  intros inp st end_.
  apply (run_keeps_records_of_other_elements "Barillot2016" SolverExample.returned2
           SolverExample.returned1 SolverExample.returned4 SolverExample.returned5
           SolverExample.returned_run inp 20 380 0.6 2 st Example.tiller_blade).
  cbn. intros H. apply list_elem_of_singleton in H. discriminate.
Defined.
